(** * Hypo-Test (DBPA): the statistical core, embedded and verified

    The development follows [src/dbpa/model/core.py], and of
    [src/dbpa/interface.py] the import line and the part of [main] that
    reads the changes.

    Numbers.  Embedding coordinates and cosine similarities are finite
    doubles and are modelled as real numbers ([R]); rounding and
    overflow are not modelled.  Histogram densities and divergences can
    be [inf] or [nan] in the program (a bin of width zero), so they are
    modelled by [f64]: a real number or one of the IEEE special values,
    with the IEEE rules for the special values and exact arithmetic on
    the finite ones.  Signed zeros are not distinguished.  Properties
    that say which values are computed, in which order, how many, and
    when an error or [nan] arises are stated in this model.  Where a
    property depends on rounding, the similarity operation is evaluated
    on binary64 numbers in [Module Double].

    Arrays.  A 2-D array is a list of rows, a 1-D array a list.

    Library code (numpy, scikit-learn, scipy) is not part of the
    repository; each library function the core calls is modelled from
    its implementation and marked as such. *)

From Stdlib Require Import List Arith ZArith Lia Reals Lra Psatz Permutation Bool.
From Stdlib Require PrimFloat.
From Stdlib Require String.
Import String.StringSyntax.
Delimit Scope string_scope with string.
Import ListNotations.
Local Open Scope R_scope.

Set Implicit Arguments.

(* ================================================================== *)
(** * Exceptions and fallible results *)

Inductive exn : Type :=
| ValueError
| IndexError
| TypeError
| ZeroDivisionError
| ImportError.

Inductive result (A : Type) : Type :=
| Ok (a : A)
| Raise (e : exn).

Arguments Ok {A} a.
Arguments Raise {A} e.

Definition rbind {A B : Type} (m : result A) (k : A -> result B) : result B :=
  match m with
  | Ok a => k a
  | Raise e => Raise e
  end.

Notation "x <- m ;; k" := (rbind m (fun x => k))
  (at level 61, m at next level, right associativity).

Fixpoint mapM {A B : Type} (f : A -> result B) (l : list A) : result (list B) :=
  match l with
  | [] => Ok []
  | x :: xs => y <- f x ;; ys <- mapM f xs ;; Ok (y :: ys)
  end.

(* ================================================================== *)
(** * Numbers *)

Definition Rltb (x y : R) : bool := if Rlt_dec x y then true else false.
Definition Rleb (x y : R) : bool := if Rle_dec x y then true else false.
Definition Reqb (x y : R) : bool := if Req_dec_T x y then true else false.

(** A double: finite, or one of the special values. *)
Inductive f64 : Type :=
| Fin (r : R)
| PInf
| NInf
| NaN.

Definition inf_of (positive : bool) : f64 := if positive then PInf else NInf.

Definition fadd (x y : f64) : f64 :=
  match x, y with
  | NaN, _ | _, NaN => NaN
  | Fin a, Fin b => Fin (a + b)
  | PInf, NInf | NInf, PInf => NaN
  | PInf, _ | _, PInf => PInf
  | NInf, _ | _, NInf => NInf
  end.

Definition fmul (x y : f64) : f64 :=
  match x, y with
  | NaN, _ | _, NaN => NaN
  | Fin a, Fin b => Fin (a * b)
  | Fin a, PInf | PInf, Fin a => if Reqb a 0 then NaN else inf_of (Rltb 0 a)
  | Fin a, NInf | NInf, Fin a => if Reqb a 0 then NaN else inf_of (Rltb a 0)
  | PInf, PInf | NInf, NInf => PInf
  | PInf, NInf | NInf, PInf => NInf
  end.

Definition fdiv (x y : f64) : f64 :=
  match x, y with
  | NaN, _ | _, NaN => NaN
  | Fin a, Fin b =>
      if Reqb b 0
      then (if Reqb a 0 then NaN else inf_of (Rltb 0 a))
      else Fin (a / b)
  | Fin _, _ => Fin 0
  | PInf, Fin b => inf_of (negb (Rltb b 0))
  | NInf, Fin b => inf_of (Rltb b 0)
  | _, _ => NaN
  end.

(** [np.log] and [np.sqrt] on one double. *)
Definition flog (x : f64) : f64 :=
  match x with
  | Fin a => if Rltb 0 a then Fin (ln a) else if Reqb a 0 then NInf else NaN
  | PInf => PInf
  | NInf | NaN => NaN
  end.

Definition fsqrt (x : f64) : f64 :=
  match x with
  | Fin a => if Rltb a 0 then NaN else Fin (sqrt a)
  | PInf => PInf
  | NInf | NaN => NaN
  end.

(** Comparisons; every comparison with [nan] is false. *)
Definition fltb (x y : f64) : bool :=
  match x, y with
  | NaN, _ | _, NaN => false
  | Fin a, Fin b => Rltb a b
  | _, NInf => false
  | NInf, _ => true
  | PInf, _ => false
  | Fin _, PInf => true
  end.

Definition feqb (x y : f64) : bool :=
  match x, y with
  | Fin a, Fin b => Reqb a b
  | PInf, PInf | NInf, NInf => true
  | _, _ => false
  end.

Definition fleb (x y : f64) : bool := fltb x y || feqb x y.
Definition fgtb (x y : f64) : bool := fltb y x.
Definition fgeb (x y : f64) : bool := fleb y x.

Definition isnan (x : f64) : bool :=
  match x with NaN => true | _ => false end.

(** Sum of a float array ([np.sum]). *)
Definition fsum (l : list f64) : f64 := fold_left fadd l (Fin 0).

(** Python's integer true division [a / b]. *)
Definition py_truediv (a b : Z) : result R :=
  if (b =? 0)%Z then Raise ZeroDivisionError else Ok (IZR a / IZR b).

(** Python's two-argument [min] and [max]: the first argument wins
    unless the second is strictly smaller (larger). *)
Definition py_min (a b : R) : R := if Rltb b a then b else a.
Definition py_max (a b : R) : R := if Rltb a b then b else a.

(* ================================================================== *)
(** * Arrays *)

Definition vector : Type := list R.
Definition matrix : Type := list (list R).

Definition ncols (X : matrix) : nat := length (hd [] X).

Definition rectangularb (X : matrix) : bool :=
  forallb (fun row => Nat.eqb (length row) (ncols X)) X.

(** [a.min()] and [a.max()]: a reduction of an empty array raises. *)
Definition ndarray_min (a : list R) : result R :=
  match a with
  | [] => Raise ValueError
  | x :: xs => Ok (fold_left Rmin xs x)
  end.

Definition ndarray_max (a : list R) : result R :=
  match a with
  | [] => Raise ValueError
  | x :: xs => Ok (fold_left Rmax xs x)
  end.

(** [M.flatten()]: the rows one after the other. *)
Definition flatten (X : matrix) : list R := concat X.

(** [X[idx]] for an integer index array: the selected rows, copied. *)
Definition take_rows (X : matrix) (idx : list nat) : result matrix :=
  mapM (fun i => match nth_error X i with
                 | Some row => Ok row
                 | None => Raise IndexError
                 end) idx.

(** [X[(rows, cols)]] for a pair of index arrays, given as a list of
    positions. *)
Definition getitem2 (X : matrix) (pos : nat * nat) : result R :=
  match nth_error X (fst pos) with
  | Some row =>
      match nth_error row (snd pos) with
      | Some v => Ok v
      | None => Raise IndexError
      end
  | None => Raise IndexError
  end.

Definition take_positions (X : matrix) (idx : list (nat * nat)) : result (list R) :=
  mapM (getitem2 X) idx.

(** [np.vstack((X, Y))]: a new array holding the rows of [X] followed
    by the rows of [Y]; the column counts must agree. *)
Definition vstack (X Y : matrix) : result matrix :=
  if rectangularb X && rectangularb Y && Nat.eqb (ncols X) (ncols Y)
  then Ok (X ++ Y)
  else Raise ValueError.

(** [np.triu_indices_from(arr, k)]: the positions [(i, j)] with
    [j >= i + k] of an [n x m] array, rows first. *)
Definition triu_indices (n k m : nat) : list (nat * nat) :=
  flat_map (fun i => map (fun j => (i, j))
                         (filter (fun j => Nat.leb (i + k) j) (seq 0 m)))
           (seq 0 n).

Definition triu_indices_from (arr : matrix) (k : nat) : list (nat * nat) :=
  triu_indices (length arr) k (ncols arr).

(* ================================================================== *)
(** * scikit-learn: [cosine_similarity] *)

Definition dot (x y : vector) : R :=
  fold_right (fun p acc => fst p * snd p + acc) 0 (combine x y).

(** [row_norms]: the Euclidean norm of a row. *)
Definition row_norm (x : vector) : R := sqrt (dot x x).

(** [np.finfo(np.float64).eps], that is [2 ** -52]. *)
Definition float_eps : R := / 4503599627370496.

(** [_handle_zeros_in_scale]: a norm below ten machine epsilons (zero in
    particular) is replaced by one. *)
Definition handle_zeros_in_scale (s : R) : R :=
  if Rltb s (10 * float_eps) then 1 else s.

(** [normalize(X)], one row: a copy scaled to unit length. *)
Definition normalize_row (x : vector) : vector :=
  map (fun t => t / handle_zeros_in_scale (row_norm x)) x.

(** [check_array]: a 2-D array with at least one row and one column. *)
Definition check_array (X : matrix) : result matrix :=
  match X with
  | [] => Raise ValueError
  | row :: _ =>
      if negb (rectangularb X) then Raise ValueError
      else if Nat.eqb (length row) 0 then Raise ValueError
      else Ok X
  end.

(** [check_pairwise_arrays]: both arrays are checked and must have the
    same number of columns. *)
Definition check_pairwise_arrays (X : matrix) (Y : option matrix)
  : result (matrix * matrix) :=
  match Y with
  | None => X' <- check_array X ;; Ok (X', X')
  | Some Y =>
      X' <- check_array X ;;
      Y' <- check_array Y ;;
      if Nat.eqb (ncols X') (ncols Y') then Ok (X', Y') else Raise ValueError
  end.

(** scikit-learn's [cosine_similarity(X, Y=None)]: the
    matrix of dot products of the normalized rows of [X] with the
    normalized rows of [Y] ([Y] defaults to [X]). *)
Definition cosine (x y : vector) : R := dot (normalize_row x) (normalize_row y).

Definition cosine_similarity (X : matrix) (Y : option matrix) : result matrix :=
  XY <- check_pairwise_arrays X Y ;;
  Ok (map (fun x => map (fun y => cosine x y) (snd XY)) (fst XY)).

(* ================================================================== *)
(** * numpy: [linspace] and [histogram] *)

Fixpoint set_last (y : list R) (v : R) : list R :=
  match y with
  | [] => []
  | [_] => [v]
  | x :: xs => x :: set_last xs v
  end.

(** numpy's [np.linspace(start, stop, num)], end point included, as
    its implementation computes it. *)
Definition linspace (start stop : R) (num : nat) : list R :=
  let div := (num - 1)%nat in
  let delta := stop - start in
  let y := map INR (seq 0 num) in
  let y :=
    if Nat.ltb 0 div then
      let step := delta / INR div in
      if Reqb step 0
      then map (fun t => t / INR div * delta) y
      else map (fun t => t * step) y
    else map (fun t => t * delta) y in
  let y := map (fun t => t + start) y in
  if Nat.ltb 1 num then set_last y stop else y.

(** [np.diff]. *)
Definition diffR (l : list R) : list R :=
  map (fun p => snd p - fst p) (combine l (tl l)).

Definition diffZ (l : list Z) : list Z :=
  map (fun p => (snd p - fst p)%Z) (combine l (tl l)).

Definition count_lt (a : list R) (v : R) : Z :=
  Z.of_nat (length (filter (fun x => Rltb x v) a)).

Definition count_le (a : list R) (v : R) : Z :=
  Z.of_nat (length (filter (fun x => Rleb x v) a)).

(** [_search_sorted_inclusive(sort(a), v)]: for every edge but the
    last the number of data points strictly below it, for the last
    edge the number of data points below or equal to it. *)
Definition search_sorted_inclusive (a : list R) (v : list R) : list Z :=
  match v with
  | [] => []
  | _ => map (count_lt a) (removelast v) ++ [count_le a (last v 0)]
  end.

Definition monotoneb (edges : list R) : bool :=
  forallb (fun p => negb (Rltb (snd p) (fst p))) (combine edges (tl edges)).

(** numpy's [np.histogram(a, bins=bin_edges, density=True)[0]], on
    the path taken for an array of edges: the
    counts are differences of cumulative counts, and the density is
    [n / db / n.sum()]. *)
Definition histogram_density (a : list R) (bin_edges : list R) : result (list f64) :=
  if negb (monotoneb bin_edges) then Raise ValueError
  else
    let cum_n := search_sorted_inclusive a bin_edges in
    let n := diffZ cum_n in
    let db := diffR bin_edges in
    let total := fold_right Z.add 0%Z n in
    Ok (map (fun p => fdiv (fdiv (Fin (IZR (fst p))) (Fin (snd p)))
                           (Fin (IZR total)))
            (combine n db)).

(* ================================================================== *)
(** * scipy: [rel_entr] and [jensenshannon] *)

Definition rel_entr (x y : f64) : f64 :=
  if isnan x || isnan y then NaN
  else if fgtb x (Fin 0) && fgtb y (Fin 0) then fmul x (flog (fdiv x y))
  else if feqb x (Fin 0) && fgeb y (Fin 0) then Fin 0
  else PInf.

(** scipy's [jensenshannon(p, q)] with the default base. *)
Definition jensenshannon (p q : list f64) : f64 :=
  let p := map (fun x => fdiv x (fsum p)) p in
  let q := map (fun x => fdiv x (fsum q)) q in
  let m := map (fun xy => fdiv (fadd (fst xy) (snd xy)) (Fin 2)) (combine p q) in
  let left := map (fun xm => rel_entr (fst xm) (snd xm)) (combine p m) in
  let right := map (fun xm => rel_entr (fst xm) (snd xm)) (combine q m) in
  let left_sum := fsum left in
  let right_sum := fsum right in
  let js := fadd left_sum right_sum in
  fsqrt (fdiv js (Fin 2)).

(* ================================================================== *)
(** * core.py: [calculate_cosine_similarities] *)

Definition calculate_cosine_similarities
  (embeddings1 : matrix) (embeddings2 : option matrix) : result (list R) :=
  match embeddings2 with
  | None =>
      similarities <- cosine_similarity embeddings1 None ;;
      take_positions similarities (triu_indices_from similarities 1)
  | Some embeddings2 =>
      similarities <- cosine_similarity embeddings1 (Some embeddings2) ;;
      Ok (flatten similarities)
  end.

(* ================================================================== *)
(** * core.py: the helper [_calculate_jsd] *)

(** Lines 41-43: the edges handed to [np.histogram]. *)
Definition bin_edges_of (bins : nat) (scores1 scores2 : list R) : result (list R) :=
  min1 <- ndarray_min scores1 ;;
  min2 <- ndarray_min scores2 ;;
  let min_val := py_min min1 min2 in
  max1 <- ndarray_max scores1 ;;
  max2 <- ndarray_max scores2 ;;
  let max_val := py_max max1 max2 in
  Ok (linspace min_val max_val (bins + 1)).

(** Lines 40-46; [bins] is the argument of the enclosing function. *)
Definition _calculate_jsd (bins : nat) (scores1 scores2 : list R) : result f64 :=
  bin_edges <- bin_edges_of bins scores1 scores2 ;;
  hist1 <- histogram_density scores1 bin_edges ;;
  hist2 <- histogram_density scores2 bin_edges ;;
  Ok (jensenshannon hist1 hist2).

(** The test statistic of a pair of groups, as the function computes it
    for the observed groups and for every permuted pair. *)
Definition statistic (bins : nat) (group1 group2 : matrix) : result f64 :=
  p0 <- calculate_cosine_similarities group1 None ;;
  p1 <- calculate_cosine_similarities group1 (Some group2) ;;
  _calculate_jsd bins p0 p1.

(* ================================================================== *)
(** * The random source *)

(** numpy's global generator, as far as the core uses it: a state of
    type [G], [np.random.permutation(n)], which returns an array and
    advances the state, and [np.random.seed(s)], which resets the state
    to one determined by [s]. *)
Class RandomSource (G : Type) : Type := {
  random_permutation : nat -> G -> list nat * G;
  random_seed : Z -> G
}.

(** What numpy documents for [permutation(n)]: a rearrangement of
    [range(n)]. *)
Class RandomSourceOk (G : Type) `{RandomSource G} : Prop :=
  random_permutation_perm :
    forall (n : nat) (g : G), Permutation (fst (random_permutation n g)) (seq 0 n).

Arguments RandomSourceOk G {_}.

(** Computations that read and advance the generator and may raise. *)
Definition M (G A : Type) : Type := G -> result A * G.

Definition ret {G A : Type} (a : A) : M G A := fun g => (Ok a, g).

Definition lift {G A : Type} (r : result A) : M G A := fun g => (r, g).

Definition bind {G A B : Type} (m : M G A) (k : A -> M G B) : M G B :=
  fun g =>
    match m g with
    | (Ok a, g') => k a g'
    | (Raise e, g') => (Raise e, g')
    end.

Notation "x <~ m ;; k" := (bind m (fun x => k))
  (at level 61, m at next level, right associativity).

Definition np_random_permutation {G : Type} `{RandomSource G} (n : nat) : M G (list nat) :=
  fun g => (Ok (fst (random_permutation n g)), snd (random_permutation n g)).

(** [for _ in range(n): count = body(count)]. *)
Fixpoint for_range {G : Type} (n : nat) (body : Z -> M G Z) (count : Z) : M G Z :=
  match n with
  | O => ret count
  | S n' => c <~ body count ;; for_range n' body c
  end.

(* ================================================================== *)
(** * core.py: [jensen_shannon_divergence_and_pvalue] *)

(** One pass of the loop body (lines 62-73); the result is the new
    value of [count]. *)
Definition permutation_iteration {G : Type} `{RandomSource G}
  (combined_embeddings : matrix) (k bins : nat) (observed_jsd : f64) (count : Z)
  : M G Z :=
  permuted_indices <~ np_random_permutation (length combined_embeddings) ;;
  perm_group1 <~ lift (take_rows combined_embeddings (firstn k permuted_indices)) ;;
  perm_group2 <~ lift (take_rows combined_embeddings (skipn k permuted_indices)) ;;
  p0_perm <~ lift (calculate_cosine_similarities perm_group1 None) ;;
  p1_perm <~ lift (calculate_cosine_similarities perm_group1 (Some perm_group2)) ;;
  perm_jsd <~ lift (_calculate_jsd bins p0_perm p1_perm) ;;
  ret (if fgeb perm_jsd observed_jsd then (count + 1)%Z else count).

Definition jensen_shannon_divergence_and_pvalue {G : Type} `{RandomSource G}
  (embeddings1 embeddings2 : matrix) (num_permutations : Z) (bins : nat)
  : M G (f64 * R) :=
  p0_observed <~ lift (calculate_cosine_similarities embeddings1 None) ;;
  p1_observed <~ lift (calculate_cosine_similarities embeddings1 (Some embeddings2)) ;;
  observed_jsd <~ lift (_calculate_jsd bins p0_observed p1_observed) ;;
  combined_embeddings <~ lift (vstack embeddings1 embeddings2) ;;
  let k := length embeddings1 in
  count <~ for_range (Z.to_nat num_permutations)
             (permutation_iteration combined_embeddings k bins observed_jsd) 0%Z ;;
  p_value <~ lift (py_truediv (count + 1) (num_permutations + 1)) ;;
  ret (observed_jsd, p_value).

(* ================================================================== *)
(** * The same code over a store of array objects *)

(** To state what the test does to its arguments, arrays are placed in
    a store.  An argument is a reference to an array object; every
    numpy, scikit-learn and scipy call the core makes reads the objects
    it is given and returns a reference to a newly allocated object
    ([cosine_similarity] normalizes a copy, [vstack], [flatten] and
    indexing with an index array copy, [linspace], [histogram] and
    [permutation] build new arrays).  A basic slice
    ([permuted_indices[:k]]) is a view on its base array; nothing is
    ever written through it and it is modelled as an object of its
    own. *)
Inductive ndarray : Type :=
| Arr2 (rows : matrix)
| Arr1 (values : list R)
| ArrF (densities : list f64)
| ArrI (indices : list nat).

Definition loc : Type := nat.

Record state (G : Type) : Type := { rng : G; store : list ndarray }.

(** Computations over the generator and the store. *)
Definition HM (G A : Type) : Type := state G -> result A * state G.

Definition hret {G A : Type} (a : A) : HM G A := fun st => (Ok a, st).

Definition hlift {G A : Type} (r : result A) : HM G A := fun st => (r, st).

Definition hbind {G A B : Type} (m : HM G A) (k : A -> HM G B) : HM G B :=
  fun st =>
    match m st with
    | (Ok a, st') => k a st'
    | (Raise e, st') => (Raise e, st')
    end.

Notation "x <== m ;; k" := (hbind m (fun x => k))
  (at level 61, m at next level, right associativity).

(** A new object; its reference is the next free position. *)
Definition alloc {G : Type} (a : ndarray) : HM G loc :=
  fun st => (Ok (length (store st)),
             {| rng := rng st; store := store st ++ [a] |}).

Definition load2 {G : Type} (l : loc) : HM G matrix :=
  fun st => match nth_error (store st) l with
            | Some (Arr2 m) => (Ok m, st)
            | _ => (Raise TypeError, st)
            end.

Definition load1 {G : Type} (l : loc) : HM G (list R) :=
  fun st => match nth_error (store st) l with
            | Some (Arr1 v) => (Ok v, st)
            | _ => (Raise TypeError, st)
            end.

Definition loadF {G : Type} (l : loc) : HM G (list f64) :=
  fun st => match nth_error (store st) l with
            | Some (ArrF v) => (Ok v, st)
            | _ => (Raise TypeError, st)
            end.

Definition loadI {G : Type} (l : loc) : HM G (list nat) :=
  fun st => match nth_error (store st) l with
            | Some (ArrI v) => (Ok v, st)
            | _ => (Raise TypeError, st)
            end.

Definition load2_opt {G : Type} (l : option loc) : HM G (option matrix) :=
  match l with
  | None => hret None
  | Some l' => m <== load2 l' ;; hret (Some m)
  end.

(** In [Heap] every function takes and returns references; the name of
    a library function used inside the definition of its counterpart
    over the store refers to the function on values defined above. *)
Module Heap.

Definition cosine_similarity {G : Type} (X : loc) (Y : option loc) : HM G loc :=
  x <== load2 X ;;
  y <== load2_opt Y ;;
  K <== hlift (cosine_similarity x y) ;;
  alloc (Arr2 K).

Definition triu_indices_from {G : Type} (arr : loc) (k : nat) : HM G (loc * loc) :=
  a <== load2 arr ;;
  rows <== alloc (ArrI (map fst (triu_indices_from a k))) ;;
  cols <== alloc (ArrI (map snd (triu_indices_from a k))) ;;
  hret (rows, cols).

(** [arr[(rows, cols)]]. *)
Definition take_positions {G : Type} (arr : loc) (idx : loc * loc) : HM G loc :=
  a <== load2 arr ;;
  rows <== loadI (fst idx) ;;
  cols <== loadI (snd idx) ;;
  v <== hlift (take_positions a (combine rows cols)) ;;
  alloc (Arr1 v).

Definition flatten {G : Type} (arr : loc) : HM G loc :=
  a <== load2 arr ;;
  alloc (Arr1 (flatten a)).

Definition ndarray_min {G : Type} (arr : loc) : HM G R :=
  a <== load1 arr ;; hlift (ndarray_min a).

Definition ndarray_max {G : Type} (arr : loc) : HM G R :=
  a <== load1 arr ;; hlift (ndarray_max a).

Definition linspace {G : Type} (start stop : R) (num : nat) : HM G loc :=
  alloc (Arr1 (linspace start stop num)).

Definition histogram_density {G : Type} (a bin_edges : loc) : HM G loc :=
  x <== load1 a ;;
  e <== load1 bin_edges ;;
  h <== hlift (histogram_density x e) ;;
  alloc (ArrF h).

Definition jensenshannon {G : Type} (p q : loc) : HM G f64 :=
  x <== loadF p ;;
  y <== loadF q ;;
  hret (jensenshannon x y).

Definition vstack {G : Type} (X Y : loc) : HM G loc :=
  x <== load2 X ;;
  y <== load2 Y ;;
  c <== hlift (vstack x y) ;;
  alloc (Arr2 c).

Definition len {G : Type} (X : loc) : HM G nat :=
  x <== load2 X ;; hret (length x).

Definition np_random_permutation {G : Type} `{RandomSource G} (n : nat) : HM G loc :=
  fun st =>
    alloc (ArrI (fst (random_permutation n (rng st))))
          {| rng := snd (random_permutation n (rng st)); store := store st |}.

(** [idx[:k]] and [idx[k:]]. *)
Definition slice_to {G : Type} (idx : loc) (k : nat) : HM G loc :=
  i <== loadI idx ;; alloc (ArrI (firstn k i)).

Definition slice_from {G : Type} (idx : loc) (k : nat) : HM G loc :=
  i <== loadI idx ;; alloc (ArrI (skipn k i)).

(** [X[idx]]. *)
Definition take_rows {G : Type} (X idx : loc) : HM G loc :=
  x <== load2 X ;;
  i <== loadI idx ;;
  r <== hlift (take_rows x i) ;;
  alloc (Arr2 r).

Fixpoint for_range {G : Type} (n : nat) (body : Z -> HM G Z) (count : Z) : HM G Z :=
  match n with
  | O => hret count
  | S n' => c <== body count ;; for_range n' body c
  end.

Definition calculate_cosine_similarities {G : Type}
  (embeddings1 : loc) (embeddings2 : option loc) : HM G loc :=
  match embeddings2 with
  | None =>
      similarities <== cosine_similarity embeddings1 None ;;
      idx <== triu_indices_from similarities 1 ;;
      take_positions similarities idx
  | Some embeddings2 =>
      similarities <== cosine_similarity embeddings1 (Some embeddings2) ;;
      flatten similarities
  end.

Definition _calculate_jsd {G : Type} (bins : nat) (scores1 scores2 : loc) : HM G f64 :=
  min1 <== ndarray_min scores1 ;;
  min2 <== ndarray_min scores2 ;;
  let min_val := py_min min1 min2 in
  max1 <== ndarray_max scores1 ;;
  max2 <== ndarray_max scores2 ;;
  let max_val := py_max max1 max2 in
  bin_edges <== linspace min_val max_val (bins + 1) ;;
  hist1 <== histogram_density scores1 bin_edges ;;
  hist2 <== histogram_density scores2 bin_edges ;;
  jensenshannon hist1 hist2.

Definition permutation_iteration {G : Type} `{RandomSource G}
  (combined_embeddings : loc) (k bins : nat) (observed_jsd : f64) (count : Z)
  : HM G Z :=
  n <== len combined_embeddings ;;
  permuted_indices <== np_random_permutation n ;;
  first <== slice_to permuted_indices k ;;
  perm_group1 <== take_rows combined_embeddings first ;;
  rest <== slice_from permuted_indices k ;;
  perm_group2 <== take_rows combined_embeddings rest ;;
  p0_perm <== calculate_cosine_similarities perm_group1 None ;;
  p1_perm <== calculate_cosine_similarities perm_group1 (Some perm_group2) ;;
  perm_jsd <== _calculate_jsd bins p0_perm p1_perm ;;
  hret (if fgeb perm_jsd observed_jsd then (count + 1)%Z else count).

Definition jensen_shannon_divergence_and_pvalue {G : Type} `{RandomSource G}
  (embeddings1 embeddings2 : loc) (num_permutations : Z) (bins : nat)
  : HM G (f64 * R) :=
  p0_observed <== calculate_cosine_similarities embeddings1 None ;;
  p1_observed <== calculate_cosine_similarities embeddings1 (Some embeddings2) ;;
  observed_jsd <== _calculate_jsd bins p0_observed p1_observed ;;
  combined_embeddings <== vstack embeddings1 embeddings2 ;;
  k <== len embeddings1 ;;
  count <== for_range (Z.to_nat num_permutations)
              (permutation_iteration combined_embeddings k bins observed_jsd) 0%Z ;;
  p_value <== hlift (py_truediv (count + 1) (num_permutations + 1)) ;;
  hret (observed_jsd, p_value).

End Heap.

(** The store only grew. *)
Definition extends {G : Type} (st st' : state G) : Prop :=
  exists ext, store st' = store st ++ ext.

(** The run of [m] from [st] matches an outcome [(r, g')] of the code
    on values: the store only grows, the generator ends in [g'], an
    error is the same error, and a result is related to the value by
    [rel] in the final store. *)
Definition sim {G A B : Type} (rel : state G -> A -> B -> Prop)
  (m : HM G A) (st : state G) (r : result B) (g' : G) : Prop :=
  extends st (snd (m st)) /\
  rng (snd (m st)) = g' /\
  match r with
  | Ok b => exists a, fst (m st) = Ok a /\ rel (snd (m st)) a b
  | Raise e => fst (m st) = Raise e
  end.

Definition at2 {G : Type} (st : state G) (l : loc) (v : matrix) : Prop :=
  nth_error (store st) l = Some (Arr2 v).

Definition at1 {G : Type} (st : state G) (l : loc) (v : list R) : Prop :=
  nth_error (store st) l = Some (Arr1 v).

Definition atF {G : Type} (st : state G) (l : loc) (v : list f64) : Prop :=
  nth_error (store st) l = Some (ArrF v).

Definition atI {G : Type} (st : state G) (l : loc) (v : list nat) : Prop :=
  nth_error (store st) l = Some (ArrI v).

Definition atII {G : Type} (st : state G) (l : loc * loc) (v : list (nat * nat)) : Prop :=
  atI st (fst l) (map fst v) /\ atI st (snd l) (map snd v).

Definition same {G A : Type} (st : state G) (a b : A) : Prop := a = b.

(* ================================================================== *)
(** * The similarity operation in double precision *)

(** [calculate_cosine_similarities] once more, on IEEE binary64 numbers
    (the kernel's primitive floats): every addition, multiplication,
    division and square root is rounded to nearest, as the processor
    does it for numpy.  [check_array] also rejects [nan] and [inf]
    entries here.  A dot product is accumulated from the left; a
    library may add in another order, and for rows of two columns every
    order gives the same double. *)
Module Double.
Import PrimFloat.
Local Open Scope float_scope.

Definition vector : Type := list float.
Definition matrix : Type := list (list float).

Definition ncols (X : matrix) : nat := length (hd [] X).

Definition rectangularb (X : matrix) : bool :=
  forallb (fun row => Nat.eqb (length row) (ncols X)) X.

Definition dot (x y : vector) : float :=
  fold_left (fun acc p => acc + fst p * snd p) (combine x y) 0.

Definition row_norm (x : vector) : float := sqrt (dot x x).

Definition float_eps : float := 0x1p-52.

Definition handle_zeros_in_scale (s : float) : float :=
  if s <? 10 * float_eps then 1 else s.

Definition normalize_row (x : vector) : vector :=
  map (fun t => t / handle_zeros_in_scale (row_norm x)) x.

Definition check_array (X : matrix) : result matrix :=
  match X with
  | [] => Raise ValueError
  | row :: _ =>
      if negb (rectangularb X) then Raise ValueError
      else if negb (forallb (forallb is_finite) X) then Raise ValueError
      else if Nat.eqb (length row) 0 then Raise ValueError
      else Ok X
  end.

Definition check_pairwise_arrays (X : matrix) (Y : option matrix)
  : result (matrix * matrix) :=
  match Y with
  | None => X' <- check_array X ;; Ok (X', X')
  | Some Y =>
      X' <- check_array X ;;
      Y' <- check_array Y ;;
      if Nat.eqb (ncols X') (ncols Y') then Ok (X', Y') else Raise ValueError
  end.

Definition cosine (x y : vector) : float := dot (normalize_row x) (normalize_row y).

Definition cosine_similarity (X : matrix) (Y : option matrix) : result matrix :=
  XY <- check_pairwise_arrays X Y ;;
  Ok (map (fun x => map (fun y => cosine x y) (snd XY)) (fst XY)).

Definition getitem2 (X : matrix) (pos : nat * nat) : result float :=
  match nth_error X (fst pos) with
  | Some row =>
      match nth_error row (snd pos) with
      | Some v => Ok v
      | None => Raise IndexError
      end
  | None => Raise IndexError
  end.

Definition take_positions (X : matrix) (idx : list (nat * nat)) : result (list float) :=
  mapM (getitem2 X) idx.

Definition flatten (X : matrix) : list float := concat X.

Definition calculate_cosine_similarities
  (embeddings1 : matrix) (embeddings2 : option matrix) : result (list float) :=
  match embeddings2 with
  | None =>
      similarities <- cosine_similarity embeddings1 None ;;
      take_positions similarities
        (triu_indices (length similarities) 1 (ncols similarities))
  | Some embeddings2 =>
      similarities <- cosine_similarity embeddings1 (Some embeddings2) ;;
      Ok (flatten similarities)
  end.

End Double.

(* ================================================================== *)
(** * Names used to state the properties *)

(** The successive index arrays drawn by [n] passes of the loop from
    generator state [g], for a pool of [len] vectors. *)
Fixpoint draws {G : Type} `{RandomSource G} (n len : nat) (g : G) : list (list nat) :=
  match n with
  | O => []
  | S n' => fst (random_permutation len g)
            :: draws n' len (snd (random_permutation len g))
  end.

(** The generator state after [n] draws. *)
Fixpoint after_draws {G : Type} `{RandomSource G} (n len : nat) (g : G) : G :=
  match n with
  | O => g
  | S n' => after_draws n' len (snd (random_permutation len g))
  end.

(** The two synthetic groups of one pass: the rows of the pool at the
    first [k] permuted indices, and the rows at the remaining ones. *)
Definition select (pool : matrix) (idx : list nat) : matrix :=
  map (fun i => nth i pool []) idx.

Definition synthetic_group1 (pool : matrix) (k : nat) (perm : list nat) : matrix :=
  select pool (firstn k perm).

Definition synthetic_group2 (pool : matrix) (k : nat) (perm : list nat) : matrix :=
  select pool (skipn k perm).

(** A group the data model admits: [d] columns in every row. *)
Definition group_of_dim (d : nat) (X : matrix) : Prop :=
  Forall (fun row => length row = d) X.

(** The strictly upper triangular entries of a square table, row by
    row, and all entries of a table, row by row. *)
Definition upper_triangle (A : matrix) : list R :=
  flat_map (fun i => map (fun j => cosine (nth i A []) (nth j A []))
                         (seq (S i) (length A - S i)))
           (seq 0 (length A)).

Definition all_pairs (A B : matrix) : list R :=
  flat_map (fun a => map (fun b => cosine a b) B) A.

(* ================================================================== *)
(** * A concrete random source, for examples *)

(** The state is a counter [g]; the permutation drawn is [range(n)]
    rotated left by [g mod n] places. *)
Definition rotation (n g : nat) : list nat :=
  skipn (g mod n) (seq 0 n) ++ firstn (g mod n) (seq 0 n).

#[export] Instance CounterSource : RandomSource nat := {|
  random_permutation := fun n g => (rotation n g, S g);
  random_seed := fun s => Z.to_nat s
|}.

(* ================================================================== *)
(** * interface.py: the import from the core module *)

(** The names bound at the top level of [core.py] when it is imported
    (the block under [if __name__ == '__main__'] does not run). *)
Definition core_namespace : list String.string :=
  [ "np"%string; "cosine_similarity"%string; "jensenshannon"%string;
    "calculate_cosine_similarities"%string;
    "jensen_shannon_divergence_and_pvalue"%string ].

(** [from module import name]. *)
Definition import_from (namespace : list String.string) (name : String.string)
  : result unit :=
  if existsb (String.eqb name) namespace then Ok tt else Raise ImportError.

(** Line 9 of [interface.py]. *)
Definition interface_import : result unit :=
  import_from core_namespace "quantify_perturbations"%string.

(** The effect of one pass on [count]: one more when the statistic of
    the permuted split is at least [observed]. *)
Definition count_step (bins : nat) (pool : matrix) (k : nat) (observed : f64)
  (count : Z) (perm : list nat) : Z :=
  match statistic bins (synthetic_group1 pool k perm)
                       (synthetic_group2 pool k perm) with
  | Ok perm_jsd => if fgeb perm_jsd observed then (count + 1)%Z else count
  | Raise _ => count
  end.

(** The value of [count] after the passes that drew [perms]. *)
Definition exceed_count (bins : nat) (pool : matrix) (k : nat) (observed : f64)
  (perms : list (list nat)) : Z :=
  fold_left (count_step bins pool k observed) perms 0%Z.

(** Whether the split made from [perm] has a statistic that is at least
    [observed]. *)
Definition counted (bins : nat) (pool : matrix) (k : nat) (observed : f64)
  (perm : list nat) : bool :=
  match statistic bins (synthetic_group1 pool k perm)
                       (synthetic_group2 pool k perm) with
  | Ok perm_jsd => fgeb perm_jsd observed
  | Raise _ => false
  end.

(** Dimensions disagree: within the first group, within the second, or
    between the two. *)
Definition dimension_mismatch (A : matrix) (B : option matrix) : Prop :=
  rectangularb A = false \/
  match B with
  | None => False
  | Some B' => rectangularb B' = false \/ ncols A <> ncols B'
  end.

(** All values of the collection are the same value [v]. *)
Definition constant (v : R) (X : list R) : Prop := Forall (fun x => x = v) X.

(** The [i]-th edge of [linspace start stop (bins + 1)]. *)
Definition edge (start stop : R) (bins i : nat) : R :=
  if Nat.eqb i bins && Nat.ltb 0 bins then stop
  else start + INR i * ((stop - start) / INR bins).

(** The cumulative count at edge [i] of [bins + 1] edges [e 0 .. e bins]:
    the data points strictly below the edge, and for the last edge the
    data points below or equal to it. *)
Definition cum_count (a : list R) (e : nat -> R) (bins i : nat) : Z :=
  if Nat.ltb i bins then count_lt a (e i) else count_le a (e i).

(** The density of bin [i] for edges [e 0 .. e bins]. *)
Definition bin_density (a : list R) (e : nat -> R) (bins i : nat) : f64 :=
  fdiv (fdiv (Fin (IZR (cum_count a e bins (S i) - cum_count a e bins i)))
             (Fin (e (S i) - e i)))
       (Fin (IZR (cum_count a e bins bins - cum_count a e bins 0))).

(** A density that is not a number: [nan] or [inf]. *)
Definition special (x : f64) : Prop := x = NaN \/ x = PInf.

(** The collection holds two different values. *)
Definition has_spread (X : list R) : Prop :=
  exists a b, In a X /\ In b X /\ a <> b.

(** Sum of a list of reals. *)
Definition Rsum (rs : list R) : R := fold_right Rplus 0 rs.

(** The integral of a step function with values [rs] over bins with
    edges [edges]. *)
Definition integral (rs edges : list R) : R :=
  Rsum (map (fun p => fst p * snd p) (combine rs (diffR edges))).

(** The term [rel_entr] computes for finite arguments [p >= 0] and
    [m > 0] (or [p = 0]). *)
Definition kl_term (p m : R) : R := if Rltb 0 p then p * ln (p / m) else 0.

(* ================================================================== *)
(** * interface.py: the changes given on the command line *)

(** A Python [dict] from strings to strings, in insertion order. *)
Definition dict : Type := list (String.string * String.string).

Fixpoint dict_get (d : dict) (k : String.string) : option String.string :=
  match d with
  | [] => None
  | (k', v) :: d' => if String.eqb k k' then Some v else dict_get d' k
  end.

(** [d[k] = v]: an existing key keeps its place, a new key goes last. *)
Fixpoint dict_set (d : dict) (k v : String.string) : dict :=
  match d with
  | [] => [(k, v)]
  | (k', v') :: d' =>
      if String.eqb k k' then (k', v) :: d' else (k', v') :: dict_set d' k v
  end.

(** The arguments [argparse] hands to [main].  With [nargs='+'] the
    list of [--change] is absent or non-empty. *)
Record Namespace : Type := {
  text : String.string;
  change : option (list String.string);
  change_file : option String.string;
  method : String.string;
  distance : String.string;
  permutations : Z;
  output_format : String.string;
  verbose : bool
}.

(** What [open] and [json.load] give for a path: the two errors [main]
    catches, or the object of the file, taken to be an object with
    string values.  Other failures of [open] (a directory, missing
    permissions) are not caught by [main] and are not modelled. *)
Inductive change_file_outcome : Type :=
| FileNotFoundError
| JSONDecodeError (e : String.string)
| Loaded (d : dict).

(** How lines 87-112 of [main] end: [sys.exit(status)] after printing a
    line, or the changes the computation is started with. *)
Inductive parsed : Type :=
| SysExit (status : Z) (printed : String.string)
| Changes (changes : dict).

(** [range(0, n, 2)]. *)
Definition range_step2 (n : nat) : list nat :=
  map (fun j => (2 * j)%nat) (seq 0 (Nat.div2 (n + 1))).

(** Line 108: [changes[args.change[i]] = args.change[i + 1]]. *)
Definition set_pair (tokens : list String.string) (changes : dict) (i : nat)
  : result dict :=
  match nth_error tokens (i + 1) with
  | None => Raise IndexError
  | Some v =>
      match nth_error tokens i with
      | None => Raise IndexError
      | Some k => Ok (dict_set changes k v)
      end
  end.

Fixpoint foldM {A B : Type} (f : A -> B -> result A) (l : list B) (a : A) : result A :=
  match l with
  | [] => Ok a
  | x :: xs => a' <- f a x ;; foldM f xs a'
  end.

Definition py_truthy_string (s : option String.string) : option String.string :=
  match s with
  | Some s' => if String.eqb s' ""%string then None else Some s'
  | None => None
  end.

(** Lines 87-112 of [main]; [read] is the file system. *)
Definition main_changes (args : Namespace)
  (read : String.string -> change_file_outcome) : result parsed :=
  let after_file :=
    match py_truthy_string (change_file args) with
    | Some path =>
        match read path with
        | FileNotFoundError =>
            inl (SysExit 1 (String.append "Error: Change file '"%string
                              (String.append path "' not found"%string)))
        | JSONDecodeError e =>
            inl (SysExit 1 (String.append
                              "Error: Invalid JSON in change file: "%string e))
        | Loaded d => inr d
        end
    | None => inr []
    end in
  match after_file with
  | inl exit => Ok exit
  | inr changes =>
      match change args with
      | Some (t :: ts) =>
          if Nat.odd (length (t :: ts)) then
            Ok (SysExit 1
                  "Error: Changes must be provided in pairs (original, replacement)"%string)
          else
            changes' <- foldM (set_pair (t :: ts))
                          (range_step2 (length (t :: ts))) changes ;;
            Ok (match changes' with
                | [] => SysExit 1
                          "Error: No changes specified. Use --change or --change-file"%string
                | _ => Changes changes'
                end)
      | _ =>
          Ok (match changes with
              | [] => SysExit 1
                        "Error: No changes specified. Use --change or --change-file"%string
              | _ => Changes changes
              end)
      end
  end.

(** The replacement the command line gives for [k]: that of the last
    pair whose original phrase is [k]. *)
Fixpoint last_replacement (k : String.string) (tokens : list String.string)
  : option String.string :=
  match tokens with
  | a :: b :: rest =>
      match last_replacement k rest with
      | Some v => Some v
      | None => if String.eqb k a then Some b else None
      end
  | _ => None
  end.

(** The changes after all pairs of [tokens] were entered, in order. *)
Fixpoint set_pairs (changes : dict) (tokens : list String.string) : dict :=
  match tokens with
  | a :: b :: rest => set_pairs (dict_set changes a b) rest
  | _ => changes
  end.

(** The changes of the file, when one is read. *)
Definition file_changes (args : Namespace)
  (read : String.string -> change_file_outcome) : dict :=
  match py_truthy_string (change_file args) with
  | Some path => match read path with Loaded d => d | _ => [] end
  | None => []
  end.

Definition tokens_of (args : Namespace) : list String.string :=
  match change args with Some l => l | None => [] end.

(* ================================================================== *)
(** * Basic facts *)

Lemma Rltb_true (x y : R) : Rltb x y = true <-> x < y.
Proof. unfold Rltb; destruct (Rlt_dec x y); split; intros; try easy. Qed.

Lemma Rltb_false (x y : R) : Rltb x y = false <-> y <= x.
Proof.
  unfold Rltb; destruct (Rlt_dec x y); split; intros; try easy; lra.
Qed.

Lemma Rleb_true (x y : R) : Rleb x y = true <-> x <= y.
Proof. unfold Rleb; destruct (Rle_dec x y); split; intros; try easy. Qed.

Lemma Rleb_false (x y : R) : Rleb x y = false <-> y < x.
Proof.
  unfold Rleb; destruct (Rle_dec x y); split; intros; try easy; lra.
Qed.

Lemma Reqb_true (x y : R) : Reqb x y = true <-> x = y.
Proof. unfold Reqb; destruct (Req_dec_T x y); split; intros; try easy. Qed.

Lemma Reqb_false (x y : R) : Reqb x y = false <-> x <> y.
Proof. unfold Reqb; destruct (Req_dec_T x y); split; intros; try easy. Qed.

Lemma Reqb_refl (x : R) : Reqb x x = true.
Proof. now apply Reqb_true. Qed.

(** Decide a real comparison that occurs in the goal. *)
Ltac rcases :=
  repeat match goal with
  | |- context [Rltb ?a ?b] =>
      let E := fresh "E" in
      destruct (Rltb a b) eqn:E;
      [apply Rltb_true in E | apply Rltb_false in E]
  | |- context [Rleb ?a ?b] =>
      let E := fresh "E" in
      destruct (Rleb a b) eqn:E;
      [apply Rleb_true in E | apply Rleb_false in E]
  | |- context [Reqb ?a ?b] =>
      let E := fresh "E" in
      destruct (Reqb a b) eqn:E;
      [apply Reqb_true in E | apply Reqb_false in E]
  end.

Lemma mapM_ok {A B : Type} (f : A -> result B) (g : A -> B) (l : list A) :
  (forall x, In x l -> f x = Ok (g x)) -> mapM f l = Ok (map g l).
Proof.
  induction l as [|x xs IH]; intros Hf; simpl; [reflexivity|].
  rewrite (Hf x (or_introl eq_refl)); simpl.
  rewrite IH by (intros y Hy; apply Hf; now right).
  reflexivity.
Qed.

Lemma rbind_ok {A B : Type} (m : result A) (k : A -> result B) (b : B) :
  rbind m k = Ok b -> exists a, m = Ok a /\ k a = Ok b.
Proof. destruct m as [a|e]; simpl; intros Hk; [eauto | discriminate]. Qed.

Lemma group_of_dim_rectangular (d : nat) (X : matrix) :
  group_of_dim d X -> rectangularb X = true.
Proof.
  intros HX. unfold rectangularb, ncols. apply forallb_forall.
  intros row Hrow. apply Nat.eqb_eq.
  unfold group_of_dim in HX. rewrite Forall_forall in HX.
  destruct X as [|r rs]; [easy|]. simpl.
  rewrite (HX row Hrow). symmetry. apply HX. now left.
Qed.

Lemma group_of_dim_ncols (d : nat) (X : matrix) :
  group_of_dim d X -> X <> [] -> ncols X = d.
Proof.
  intros HX Hne. destruct X as [|r rs]; [easy|].
  unfold ncols; simpl. now inversion HX.
Qed.

Lemma vstack_ok (d : nat) (A B : matrix) :
  group_of_dim d A -> group_of_dim d B -> A <> [] -> B <> [] ->
  vstack A B = Ok (A ++ B).
Proof.
  intros HA HB NA NB. unfold vstack.
  rewrite (group_of_dim_rectangular HA), (group_of_dim_rectangular HB).
  rewrite (group_of_dim_ncols HA NA), (group_of_dim_ncols HB NB).
  now rewrite Nat.eqb_refl.
Qed.

Lemma vstack_inv (A B pool : matrix) : vstack A B = Ok pool -> pool = A ++ B.
Proof.
  unfold vstack.
  destruct (rectangularb A && rectangularb B && Nat.eqb (ncols A) (ncols B));
    intros E; now inversion E.
Qed.

(* ------------------------------------------------------------------ *)
(** ** Selecting rows by a permutation *)

Lemma take_rows_select (pool : matrix) (idx : list nat) :
  (forall i, In i idx -> (i < length pool)%nat) ->
  take_rows pool idx = Ok (select pool idx).
Proof.
  intros Hidx. unfold take_rows, select. apply mapM_ok.
  intros i Hi. specialize (Hidx i Hi).
  destruct (nth_error pool i) as [row|] eqn:E.
  - now rewrite (nth_error_nth _ _ [] E).
  - apply nth_error_None in E. lia.
Qed.

Lemma perm_in_range (n : nat) (perm : list nat) :
  Permutation perm (seq 0 n) -> forall i, In i perm -> (i < n)%nat.
Proof.
  intros HP i Hi. apply (Permutation_in _ HP) in Hi.
  apply in_seq in Hi. lia.
Qed.

Lemma map_nth_seq {A : Type} (l : list A) (d : A) :
  map (fun i => nth i l d) (seq 0 (length l)) = l.
Proof.
  induction l as [|x xs IH]; simpl; [reflexivity|].
  f_equal. rewrite <- seq_shift, map_map. exact IH.
Qed.

Lemma select_permutation (pool : matrix) (perm : list nat) :
  Permutation perm (seq 0 (length pool)) -> Permutation (select pool perm) pool.
Proof.
  intros HP. unfold select.
  eapply Permutation_trans.
  - apply Permutation_map. exact HP.
  - rewrite map_nth_seq. apply Permutation_refl.
Qed.

Lemma select_app (pool : matrix) (l1 l2 : list nat) :
  select pool (l1 ++ l2) = select pool l1 ++ select pool l2.
Proof. unfold select. apply map_app. Qed.

Lemma select_length (pool : matrix) (idx : list nat) :
  length (select pool idx) = length idx.
Proof. unfold select. apply length_map. Qed.

Lemma select_rows_in (pool : matrix) (idx : list nat) (row : list R) :
  (forall i, In i idx -> (i < length pool)%nat) ->
  In row (select pool idx) -> In row pool.
Proof.
  intros Hidx Hrow. unfold select in Hrow. apply in_map_iff in Hrow.
  destruct Hrow as (i & <- & Hi). apply nth_In. now apply Hidx.
Qed.

(** The split made from one drawn permutation. *)
Lemma split_partitions (A B : matrix) (perm : list nat) :
  Permutation perm (seq 0 (length (A ++ B))) ->
  let pool := A ++ B in
  let k := length A in
  take_rows pool (firstn k perm) = Ok (synthetic_group1 pool k perm) /\
  take_rows pool (skipn k perm) = Ok (synthetic_group2 pool k perm) /\
  length (synthetic_group1 pool k perm) = length A /\
  length (synthetic_group2 pool k perm) = length B /\
  Permutation (synthetic_group1 pool k perm ++ synthetic_group2 pool k perm)
              (A ++ B).
Proof.
  intros HP pool k.
  assert (Hin : forall i, In i perm -> (i < length pool)%nat)
    by (apply perm_in_range; exact HP).
  assert (Hlen : length perm = (length A + length B)%nat).
  { rewrite (Permutation_length HP), length_seq. apply length_app. }
  unfold synthetic_group1, synthetic_group2.
  repeat split.
  - apply take_rows_select. intros i Hi. apply Hin.
    rewrite <- (firstn_skipn k perm). apply in_or_app. now left.
  - apply take_rows_select. intros i Hi. apply Hin.
    rewrite <- (firstn_skipn k perm). apply in_or_app. now right.
  - rewrite select_length, length_firstn. subst k. lia.
  - rewrite select_length, length_skipn. subst k. lia.
  - rewrite <- select_app, firstn_skipn. now apply select_permutation.
Qed.

Lemma draws_are_permutations {G : Type} `{RandomSourceOk G} (n len : nat) (g : G) :
  Forall (fun perm => Permutation perm (seq 0 len)) (draws n len g).
Proof.
  revert g. induction n as [|n IH]; intros g; simpl; constructor.
  - apply random_permutation_perm.
  - apply IH.
Qed.

(* ------------------------------------------------------------------ *)
(** ** The example source draws permutations *)

Lemma rotation_permutation (n g : nat) : Permutation (rotation n g) (seq 0 n).
Proof.
  unfold rotation.
  eapply Permutation_trans; [apply Permutation_app_comm|].
  now rewrite firstn_skipn.
Qed.

#[export] Instance CounterSourceOk : RandomSourceOk nat.
Proof. intros n g. simpl. apply rotation_permutation. Qed.

(* ================================================================== *)
(** * The permuted split is a partition of the pool *)

(** The test is its observed statistic followed by the loop over the
    pooled rows with [k = |A|] and the final division. *)
Lemma test_unfolds {G : Type} `{RandomSource G}
  (A B pool : matrix) (num_permutations : Z) (bins : nat) (g : G) :
  vstack A B = Ok pool ->
  jensen_shannon_divergence_and_pvalue A B num_permutations bins g
  = match statistic bins A B with
    | Raise e => (Raise e, g)
    | Ok observed_jsd =>
        match for_range (Z.to_nat num_permutations)
                (permutation_iteration pool (length A) bins observed_jsd) 0%Z g with
        | (Ok count, g') =>
            (p_value <- py_truediv (count + 1) (num_permutations + 1) ;;
             Ok (observed_jsd, p_value), g')
        | (Raise e, g') => (Raise e, g')
        end
    end.
Proof.
  intros Hpool.
  unfold jensen_shannon_divergence_and_pvalue, statistic, bind, lift, ret.
  destruct (calculate_cosine_similarities A None) as [p0|e]; [|reflexivity].
  cbn [rbind].
  destruct (calculate_cosine_similarities A (Some B)) as [p1|e]; [|reflexivity].
  cbn [rbind].
  destruct (_calculate_jsd bins p0 p1) as [observed|e]; [|reflexivity].
  rewrite Hpool.
  destruct (for_range _ _ _ _) as [[count|e] g']; [|reflexivity].
  destruct (py_truediv (count + 1) (num_permutations + 1)); reflexivity.
Qed.

(** One pass of the loop on the pooled rows: the two row selections
    succeed and partition the pool, and the pass is the comparison of
    the statistic of that split with the observed one. *)
Lemma permutation_iteration_split {G : Type} `{RandomSourceOk G}
  (A B : matrix) (bins : nat) (observed : f64) (count : Z) (g : G) :
  exists group1 group2,
    take_rows (A ++ B)
      (firstn (length A) (fst (random_permutation (length (A ++ B)) g)))
    = Ok group1 /\
    take_rows (A ++ B)
      (skipn (length A) (fst (random_permutation (length (A ++ B)) g)))
    = Ok group2 /\
    length group1 = length A /\
    length group2 = length B /\
    Permutation (group1 ++ group2) (A ++ B) /\
    permutation_iteration (A ++ B) (length A) bins observed count g
    = (match statistic bins group1 group2 with
       | Ok perm_jsd => Ok (if fgeb perm_jsd observed then (count + 1)%Z else count)
       | Raise e => Raise e
       end,
       snd (random_permutation (length (A ++ B)) g)).
Proof.
  pose proof (random_permutation_perm (length (A ++ B)) g) as HP.
  destruct (split_partitions A B HP) as (T1 & T2 & L1 & L2 & HPm).
  exists (synthetic_group1 (A ++ B) (length A)
            (fst (random_permutation (length (A ++ B)) g))),
         (synthetic_group2 (A ++ B) (length A)
            (fst (random_permutation (length (A ++ B)) g))).
  split; [exact T1|]. split; [exact T2|]. split; [exact L1|].
  split; [exact L2|]. split; [exact HPm|].
  unfold permutation_iteration, bind, np_random_permutation, lift, ret.
  rewrite T1, T2. unfold statistic.
  destruct (calculate_cosine_similarities _ None) as [q0|e]; [|reflexivity].
  cbn [rbind].
  destruct (calculate_cosine_similarities _ (Some _)) as [q1|e]; [|reflexivity].
  cbn [rbind].
  destruct (_calculate_jsd bins q0 q1); reflexivity.
Qed.

(** C9.  The loop of the test runs [permutation_iteration] on the pooled
    rows with [k = |A|]; and in every pass, from whatever generator
    state and counter, the two row selections succeed, the first
    synthetic group has [|A|] vectors, the second has [|B|] vectors, the
    two together are a rearrangement of the pooled vectors, and the
    pass compares the statistic of exactly these two groups with the
    observed one. *)
Theorem permuted_split_partitions_pool
  {G : Type} `{RandomSourceOk G} (A B pool : matrix) (bins : nat) :
  vstack A B = Ok pool ->
  (forall (num_permutations : Z) (g : G),
     jensen_shannon_divergence_and_pvalue A B num_permutations bins g
     = match statistic bins A B with
       | Raise e => (Raise e, g)
       | Ok observed_jsd =>
           match for_range (Z.to_nat num_permutations)
                   (permutation_iteration pool (length A) bins observed_jsd)
                   0%Z g with
           | (Ok count, g') =>
               (p_value <- py_truediv (count + 1) (num_permutations + 1) ;;
                Ok (observed_jsd, p_value), g')
           | (Raise e, g') => (Raise e, g')
           end
       end) /\
  (forall (observed : f64) (count : Z) (g : G),
     exists group1 group2,
       take_rows pool
         (firstn (length A) (fst (random_permutation (length pool) g)))
       = Ok group1 /\
       take_rows pool
         (skipn (length A) (fst (random_permutation (length pool) g)))
       = Ok group2 /\
       length group1 = length A /\
       length group2 = length B /\
       Permutation (group1 ++ group2) (A ++ B) /\
       permutation_iteration pool (length A) bins observed count g
       = (match statistic bins group1 group2 with
          | Ok perm_jsd =>
              Ok (if fgeb perm_jsd observed then (count + 1)%Z else count)
          | Raise e => Raise e
          end,
          snd (random_permutation (length pool) g))).
Proof.
  intros Hpool. split.
  - intros num_permutations g. now apply test_unfolds.
  - apply vstack_inv in Hpool. subst pool.
    intros observed count g. apply permutation_iteration_split.
Qed.

Lemma permuted_split_partitions_pool_witness :
  (forall (num_permutations : Z) (g : nat),
     jensen_shannon_divergence_and_pvalue
       [[1; 0]; [0; 1]] [[1; 1]] num_permutations 30 g
     = match statistic 30 [[1; 0]; [0; 1]] [[1; 1]] with
       | Raise e => (Raise e, g)
       | Ok observed_jsd =>
           match for_range (Z.to_nat num_permutations)
                   (permutation_iteration [[1; 0]; [0; 1]; [1; 1]]
                      (length [[1; 0]; [0; 1]]) 30 observed_jsd)
                   0%Z g with
           | (Ok count, g') =>
               (p_value <- py_truediv (count + 1) (num_permutations + 1) ;;
                Ok (observed_jsd, p_value), g')
           | (Raise e, g') => (Raise e, g')
           end
       end) /\
  (forall (observed : f64) (count : Z) (g : nat),
     exists group1 group2,
       take_rows [[1; 0]; [0; 1]; [1; 1]]
         (firstn (length [[1; 0]; [0; 1]])
            (fst (random_permutation (length [[1; 0]; [0; 1]; [1; 1]]) g)))
       = Ok group1 /\
       take_rows [[1; 0]; [0; 1]; [1; 1]]
         (skipn (length [[1; 0]; [0; 1]])
            (fst (random_permutation (length [[1; 0]; [0; 1]; [1; 1]]) g)))
       = Ok group2 /\
       length group1 = length [[1; 0]; [0; 1]] /\
       length group2 = length [[1; 1]] /\
       Permutation (group1 ++ group2) ([[1; 0]; [0; 1]] ++ [[1; 1]]) /\
       permutation_iteration [[1; 0]; [0; 1]; [1; 1]]
         (length [[1; 0]; [0; 1]]) 30 observed count g
       = (match statistic 30 group1 group2 with
          | Ok perm_jsd =>
              Ok (if fgeb perm_jsd observed then (count + 1)%Z else count)
          | Raise e => Raise e
          end,
          snd (random_permutation (length [[1; 0]; [0; 1]; [1; 1]]) g))).
Proof.
  apply (@permuted_split_partitions_pool nat CounterSource CounterSourceOk
           [[1; 0]; [0; 1]] [[1; 1]] [[1; 0]; [0; 1]; [1; 1]] 30).
  reflexivity.
Defined.

(* ================================================================== *)
(** * Cosine similarities *)

(* ------------------------------------------------------------------ *)
(** ** Every cosine lies between -1 and 1 *)

Lemma dot_self_nonneg (x : vector) : 0 <= dot x x.
Proof.
  unfold dot. induction x as [|a x IH]; simpl; [lra|].
  pose proof (Rle_0_sqr a) as Hs. unfold Rsqr in Hs. lra.
Qed.

Lemma dot_upper (u v : vector) : 2 * dot u v <= dot u u + dot v v.
Proof.
  revert v. induction u as [|a u IH]; intros [|b v].
  - unfold dot; simpl; lra.
  - pose proof (dot_self_nonneg (b :: v)). unfold dot in *; simpl in *; lra.
  - pose proof (dot_self_nonneg (a :: u)). unfold dot in *; simpl in *; lra.
  - specialize (IH v). unfold dot in *; simpl in *.
    pose proof (Rle_0_sqr (a - b)) as Hs. unfold Rsqr in Hs. lra.
Qed.

Lemma dot_lower (u v : vector) : - (dot u u + dot v v) <= 2 * dot u v.
Proof.
  revert v. induction u as [|a u IH]; intros [|b v].
  - unfold dot; simpl; lra.
  - pose proof (dot_self_nonneg (b :: v)). unfold dot in *; simpl in *; lra.
  - pose proof (dot_self_nonneg (a :: u)). unfold dot in *; simpl in *; lra.
  - specialize (IH v). unfold dot in *; simpl in *.
    pose proof (Rle_0_sqr (a + b)) as Hs. unfold Rsqr in Hs. lra.
Qed.

Lemma dot_scaled (c : R) (x : vector) :
  dot (map (fun t => t / c) x) (map (fun t => t / c) x) = dot x x * (/ c * / c).
Proof.
  unfold dot. induction x as [|a x IH]; simpl; [lra|].
  rewrite IH. unfold Rdiv. ring.
Qed.

Lemma normalize_row_norm (x : vector) :
  dot (normalize_row x) (normalize_row x) <= 1.
Proof.
  unfold normalize_row, handle_zeros_in_scale, row_norm, float_eps.
  rewrite dot_scaled.
  pose proof (dot_self_nonneg x) as Hnn.
  pose proof (sqrt_pos (dot x x)) as Hs.
  pose proof (sqrt_sqrt (dot x x) Hnn) as Hsq.
  destruct (Rltb (sqrt (dot x x)) (10 * / 4503599627370496)) eqn:E.
  - apply Rltb_true in E.
    assert (sqrt (dot x x) * sqrt (dot x x) <= 1 * 1)
      by (apply Rmult_le_compat; lra).
    rewrite Hsq in H. rewrite Rinv_1. lra.
  - apply Rltb_false in E.
    assert (Hne : sqrt (dot x x) <> 0) by lra.
    rewrite <- Hsq at 1. right. now field.
Qed.

Lemma cosine_range (x y : vector) : -1 <= cosine x y <= 1.
Proof.
  unfold cosine.
  pose proof (normalize_row_norm x). pose proof (normalize_row_norm y).
  pose proof (dot_upper (normalize_row x) (normalize_row y)).
  pose proof (dot_lower (normalize_row x) (normalize_row y)).
  lra.
Qed.

(* ------------------------------------------------------------------ *)
(** ** The library call succeeds on well-formed groups *)

Lemma check_array_ok (d : nat) (X : matrix) :
  (1 <= d)%nat -> group_of_dim d X -> X <> [] -> check_array X = Ok X.
Proof.
  intros Hd HX Hne. unfold check_array.
  destruct X as [|row rows]; [easy|].
  rewrite (group_of_dim_rectangular HX). simpl.
  inversion HX as [|? ? Hrow _]; subst.
  destruct (length row); [lia|reflexivity].
Qed.

Lemma cosine_similarity_intra (d : nat) (A : matrix) :
  (1 <= d)%nat -> group_of_dim d A -> A <> [] ->
  cosine_similarity A None = Ok (map (fun x => map (fun y => cosine x y) A) A).
Proof.
  intros Hd HA Hne. unfold cosine_similarity, check_pairwise_arrays.
  now rewrite (check_array_ok Hd HA Hne).
Qed.

Lemma cosine_similarity_inter (d : nat) (A B : matrix) :
  (1 <= d)%nat -> group_of_dim d A -> group_of_dim d B -> A <> [] -> B <> [] ->
  cosine_similarity A (Some B)
  = Ok (map (fun x => map (fun y => cosine x y) B) A).
Proof.
  intros Hd HA HB NA NB. unfold cosine_similarity, check_pairwise_arrays.
  rewrite (check_array_ok Hd HA NA), (check_array_ok Hd HB NB). simpl.
  rewrite (group_of_dim_ncols HA NA), (group_of_dim_ncols HB NB).
  now rewrite Nat.eqb_refl.
Qed.

(* ------------------------------------------------------------------ *)
(** ** The upper triangle *)

Lemma filter_leb_seq (a s n : nat) :
  filter (fun j => Nat.leb a j) (seq s n)
  = seq (Nat.max a s) (s + n - Nat.max a s).
Proof.
  revert s. induction n as [|n IH]; intros s; simpl.
  - replace (s + 0 - Nat.max a s)%nat with 0%nat by lia. reflexivity.
  - rewrite IH. destruct (Nat.leb a s) eqn:E.
    + apply Nat.leb_le in E.
      replace (Nat.max a s) with s by lia.
      replace (Nat.max a (S s)) with (S s) by lia.
      replace (s + S n - s)%nat with (S n) by lia.
      replace (S s + n - S s)%nat with n by lia.
      reflexivity.
    + apply Nat.leb_gt in E.
      replace (Nat.max a (S s)) with (Nat.max a s) by lia.
      replace (S s + n - Nat.max a s)%nat with (s + S n - Nat.max a s)%nat by lia.
      reflexivity.
Qed.

Lemma triu_indices_rows (k : nat) :
  triu_indices k 1 k
  = flat_map (fun i => map (fun j => (i, j)) (seq (S i) (k - S i))) (seq 0 k).
Proof.
  unfold triu_indices. apply flat_map_ext. intros i.
  rewrite filter_leb_seq. f_equal.
  replace (Nat.max (i + 1) 0) with (S i) by lia.
  f_equal.
Qed.

Lemma map_flat_map {A B C : Type} (g : B -> C) (f : A -> list B) (l : list A) :
  map g (flat_map f l) = flat_map (fun a => map g (f a)) l.
Proof.
  induction l as [|a l IH]; simpl; [reflexivity|].
  now rewrite map_app, IH.
Qed.

Lemma getitem2_table (A : matrix) (i j : nat) :
  (i < length A)%nat -> (j < length A)%nat ->
  getitem2 (map (fun x => map (fun y => cosine x y) A) A) (i, j)
  = Ok (cosine (nth i A []) (nth j A [])).
Proof.
  intros Hi Hj. unfold getitem2; cbn [fst snd].
  rewrite (@map_nth_error _ _ _ _ _ _ (nth_error_nth' A [] Hi)).
  rewrite (@map_nth_error _ _ _ _ _ _ (nth_error_nth' A [] Hj)).
  reflexivity.
Qed.

Lemma triangle_sum (k m : nat) :
  (m <= k)%nat ->
  (2 * list_sum (map (fun i => k - S i) (seq (k - m) m)) = m * (m - 1))%nat.
Proof.
  induction m as [|m IH]; intros Hm; simpl; [reflexivity|].
  replace (S (k - S m)) with (k - m)%nat by lia.
  specialize (IH ltac:(lia)).
  replace (k - S (k - S m))%nat with m by lia.
  nia.
Qed.

Lemma upper_triangle_length (A : matrix) :
  length (upper_triangle A) = (length A * (length A - 1) / 2)%nat.
Proof.
  unfold upper_triangle. rewrite length_flat_map.
  set (k := length A).
  assert (E : map (fun i => length (map (fun j => cosine (nth i A []) (nth j A []))
                                        (seq (S i) (k - S i)))) (seq 0 k)
              = map (fun i => (k - S i)%nat) (seq (k - k) k)).
  { rewrite Nat.sub_diag. apply map_ext. intros i.
    now rewrite length_map, length_seq. }
  rewrite E.
  pose proof (@triangle_sum k k (le_n k)) as HT.
  rewrite <- HT, Nat.mul_comm, Nat.div_mul by lia. reflexivity.
Qed.

Lemma intra_similarities (d : nat) (A : matrix) :
  (1 <= d)%nat -> group_of_dim d A -> A <> [] ->
  calculate_cosine_similarities A None = Ok (upper_triangle A).
Proof.
  intros Hd HA Hne. unfold calculate_cosine_similarities.
  rewrite (cosine_similarity_intra Hd HA Hne). simpl.
  unfold take_positions, triu_indices_from, ncols.
  rewrite length_map.
  replace (length (hd [] (map (fun x => map (fun y => cosine x y) A) A)))
    with (length A)
    by (destruct A; [easy | simpl; now rewrite length_map]).
  rewrite triu_indices_rows.
  rewrite (@mapM_ok _ _ _
             (fun p => cosine (nth (fst p) A []) (nth (snd p) A []))).
  - unfold upper_triangle. rewrite map_flat_map. f_equal.
    apply flat_map_ext. intros i. now rewrite map_map.
  - intros [i j] Hin. apply in_flat_map in Hin.
    destruct Hin as (i' & Hi' & Hj). apply in_map_iff in Hj.
    destruct Hj as (j' & Heq & Hj'). inversion Heq; subst.
    apply in_seq in Hi'. apply in_seq in Hj'.
    cbn [fst snd]. apply getitem2_table; lia.
Qed.

Lemma inter_similarities (d : nat) (A B : matrix) :
  (1 <= d)%nat -> group_of_dim d A -> group_of_dim d B -> A <> [] -> B <> [] ->
  calculate_cosine_similarities A (Some B) = Ok (all_pairs A B).
Proof.
  intros Hd HA HB NA NB. unfold calculate_cosine_similarities.
  rewrite (cosine_similarity_inter Hd HA HB NA NB). simpl.
  unfold flatten, all_pairs. now rewrite flat_map_concat_map.
Qed.

Lemma all_pairs_length (A B : matrix) :
  length (all_pairs A B) = (length A * length B)%nat.
Proof.
  unfold all_pairs. apply flat_map_constant_length.
  intros a _. apply length_map.
Qed.

Lemma upper_triangle_range (A : matrix) :
  Forall (fun v => -1 <= v <= 1) (upper_triangle A).
Proof.
  apply Forall_forall. intros v Hv. unfold upper_triangle in Hv.
  apply in_flat_map in Hv. destruct Hv as (i & _ & Hv).
  apply in_map_iff in Hv. destruct Hv as (j & <- & _). apply cosine_range.
Qed.

Lemma all_pairs_range (A B : matrix) :
  Forall (fun v => -1 <= v <= 1) (all_pairs A B).
Proof.
  apply Forall_forall. intros v Hv. unfold all_pairs in Hv.
  apply in_flat_map in Hv. destruct Hv as (a & _ & Hv).
  apply in_map_iff in Hv. destruct Hv as (b & <- & _). apply cosine_range.
Qed.

Lemma length_ge_nonempty {A : Type} (l : list A) (n : nat) :
  (1 <= n)%nat -> (n <= length l)%nat -> l <> [].
Proof. intros Hn Hl ->. simpl in Hl. lia. Qed.

Lemma dot_scaled_pair (a b : R) (x y : vector) :
  dot (map (fun t => t / a) x) (map (fun t => t / b) y) = dot x y * (/ a * / b).
Proof.
  unfold dot. revert y.
  induction x as [|u x IH]; intros [|v y]; simpl; try lra.
  rewrite IH. unfold Rdiv. ring.
Qed.

(** For rows whose norms are not replaced by one, the value computed is
    the dot product of the two rows over the product of their norms. *)
Lemma cosine_times_norms (x y : vector) :
  10 * float_eps <= row_norm x -> 10 * float_eps <= row_norm y ->
  cosine x y * (row_norm x * row_norm y) = dot x y.
Proof.
  intros Hx Hy.
  assert (He : 0 < 10 * float_eps) by (unfold float_eps; lra).
  unfold cosine, normalize_row, handle_zeros_in_scale.
  replace (Rltb (row_norm x) (10 * float_eps)) with false
    by (symmetry; apply Rltb_false; lra).
  replace (Rltb (row_norm y) (10 * float_eps)) with false
    by (symmetry; apply Rltb_false; lra).
  rewrite dot_scaled_pair. field. split; lra.
Qed.

(** C6, as the code has it.  For a group [A] of [k >= 2] vectors the
    intra-group operation returns the strictly upper triangular entries
    of the pairwise cosine table, row by row: [k(k-1)/2] values.  For
    groups of [k1] and [k2] vectors the inter-group operation returns
    all entries of the [k1 x k2] table, row by row: [k1 * k2] values.
    The entry of two rows is the dot product of the rows after each is
    divided by its norm; in exact arithmetic it is the dot product over
    the product of the norms and lies between -1 and 1. *)
Theorem similarities_shape_and_range (d : nat) (A B : matrix) :
  (1 <= d)%nat -> group_of_dim d A -> group_of_dim d B ->
  (2 <= length A)%nat -> (1 <= length B)%nat ->
  (calculate_cosine_similarities A None = Ok (upper_triangle A) /\
   length (upper_triangle A) = (length A * (length A - 1) / 2)%nat) /\
  (calculate_cosine_similarities A (Some B) = Ok (all_pairs A B) /\
   length (all_pairs A B) = (length A * length B)%nat) /\
  (forall x y : vector,
     -1 <= cosine x y <= 1 /\
     (10 * float_eps <= row_norm x -> 10 * float_eps <= row_norm y ->
      cosine x y * (row_norm x * row_norm y) = dot x y)).
Proof.
  intros Hd HA HB LA LB.
  assert (NA : A <> []) by (apply (@length_ge_nonempty _ A 2); lia).
  assert (NB : B <> []) by (apply (@length_ge_nonempty _ B 1); lia).
  split; [split | split; [split|]].
  - exact (intra_similarities Hd HA NA).
  - apply upper_triangle_length.
  - exact (inter_similarities Hd HA HB NA NB).
  - apply all_pairs_length.
  - intros x y. split; [apply cosine_range | apply cosine_times_norms].
Qed.

Lemma similarities_shape_and_range_witness :
  (calculate_cosine_similarities [[1; 0]; [0; 1]; [1; 1]] None
   = Ok (upper_triangle [[1; 0]; [0; 1]; [1; 1]]) /\
   length (upper_triangle [[1; 0]; [0; 1]; [1; 1]]) = (3 * (3 - 1) / 2)%nat) /\
  (calculate_cosine_similarities [[1; 0]; [0; 1]; [1; 1]] (Some [[2; 0]; [0; 3]])
   = Ok (all_pairs [[1; 0]; [0; 1]; [1; 1]] [[2; 0]; [0; 3]]) /\
   length (all_pairs [[1; 0]; [0; 1]; [1; 1]] [[2; 0]; [0; 3]]) = (3 * 2)%nat) /\
  (forall x y : vector,
     -1 <= cosine x y <= 1 /\
     (10 * float_eps <= row_norm x -> 10 * float_eps <= row_norm y ->
      cosine x y * (row_norm x * row_norm y) = dot x y)).
Proof.
  apply (@similarities_shape_and_range 2
           [[1; 0]; [0; 1]; [1; 1]] [[2; 0]; [0; 3]]).
  - lia.
  - repeat constructor.
  - repeat constructor.
  - simpl; lia.
  - simpl; lia.
Defined.

Section DoublePrecision.
Import PrimFloat.
Local Open Scope float_scope.

(** C6 as stated fails: computed in doubles, the similarity of two
    copies of the vector [(1, 5)] is [1 + 2^-52], printed
    [1.0000000000000002], which is greater than 1.  The norm is
    [sqrt 26], rounded; the two quotients by it are rounded; so are
    their squares and the sum of the squares. *)
Lemma rounded_cosine_exceeds_one :
  Double.calculate_cosine_similarities [[1; 5]; [1; 5]] None
  = Ok [0x1.0000000000001p+0] /\
  Double.calculate_cosine_similarities [[1; 5]] (Some [[1; 5]])
  = Ok [0x1.0000000000001p+0] /\
  PrimFloat.ltb 1 0x1.0000000000001p+0 = true.
Proof. vm_compute. repeat split. Qed.

End DoublePrecision.

(* ================================================================== *)
(** * Errors of the similarity operation *)

Lemma check_array_cases (X : matrix) :
  check_array X = Ok X \/ check_array X = Raise ValueError.
Proof.
  unfold check_array. destruct X as [|row rows]; [now right|].
  destruct (negb (rectangularb (row :: rows))); [now right|].
  destruct (Nat.eqb (length row) 0); [now right | now left].
Qed.

Lemma check_array_ragged (X : matrix) :
  rectangularb X = false -> check_array X = Raise ValueError.
Proof.
  intros HX. unfold check_array. destruct X as [|row rows].
  - discriminate HX.
  - now rewrite HX.
Qed.

Lemma similarities_raise (A : matrix) (B : option matrix) :
  A = [] \/ dimension_mismatch A B ->
  calculate_cosine_similarities A B = Raise ValueError.
Proof.
  intros Hbad.
  assert (HC : cosine_similarity A B = Raise ValueError).
  { unfold cosine_similarity, check_pairwise_arrays.
    destruct Hbad as [-> | [HA | HB]].
    - destruct B; reflexivity.
    - rewrite (check_array_ragged _ HA). destruct B; reflexivity.
    - destruct B as [B'|]; [|easy].
      destruct (check_array_cases A) as [-> | ->]; [|reflexivity]. simpl.
      destruct HB as [HB | HB].
      + now rewrite (check_array_ragged _ HB).
      + destruct (check_array_cases B') as [-> | ->]; [|reflexivity]. simpl.
        apply Nat.eqb_neq in HB. now rewrite HB. }
  unfold calculate_cosine_similarities. destruct B; now rewrite HC.
Qed.

Lemma single_vector_similarities (x : vector) :
  x <> [] -> calculate_cosine_similarities [x] None = Ok [].
Proof.
  intros Hx. unfold calculate_cosine_similarities.
  rewrite (@cosine_similarity_intra (length x) [x]).
  - reflexivity.
  - destruct x; [easy | simpl; lia].
  - repeat constructor.
  - easy.
Qed.

(** C4, as the code has it.  The similarity operation raises
    [ValueError] whenever the first group is empty and whenever the
    dimensions disagree (within a group or between the two groups); on a
    group of exactly one vector the intra-group case does not fail: it
    returns the empty collection. *)
Theorem similarities_error_conditions (A : matrix) (B : option matrix) (x : vector) :
  A = [] \/ dimension_mismatch A B ->
  x <> [] ->
  calculate_cosine_similarities A B = Raise ValueError /\
  calculate_cosine_similarities [x] None = Ok [].
Proof.
  intros Hbad Hx. split.
  - now apply similarities_raise.
  - now apply single_vector_similarities.
Qed.

Lemma similarities_error_conditions_witness :
  calculate_cosine_similarities [[1; 2]; [3]] (Some [[1; 2; 3]])
  = Raise ValueError /\
  calculate_cosine_similarities [[0; 5]] None = Ok [].
Proof.
  apply (@similarities_error_conditions [[1; 2]; [3]] (Some [[1; 2; 3]]) [0; 5]).
  - right. left. reflexivity.
  - discriminate.
Defined.

(** C4 as stated fails: a group with fewer than two vectors on which
    the intra-group case returns normally. *)
Lemma single_vector_group_does_not_fail :
  (length [[1; 2]] < 2)%nat /\
  calculate_cosine_similarities [[1; 2]] None = Ok [].
Proof.
  split; [simpl; lia | reflexivity].
Qed.

(* ================================================================== *)
(** * Bin edges *)

Lemma fold_Rmin_le (xs : list R) (x : R) : fold_left Rmin xs x <= x.
Proof.
  revert x. induction xs as [|y xs IH]; intros x; simpl; [lra|].
  eapply Rle_trans; [apply IH | apply Rmin_l].
Qed.

Lemma fold_Rmax_ge (xs : list R) (x : R) : x <= fold_left Rmax xs x.
Proof.
  revert x. induction xs as [|y xs IH]; intros x; simpl; [lra|].
  eapply Rle_trans; [apply Rmax_l | apply IH].
Qed.

Lemma py_min_le_l (a b : R) : py_min a b <= a.
Proof. unfold py_min. rcases; lra. Qed.

Lemma py_max_ge_l (a b : R) : a <= py_max a b.
Proof. unfold py_max. rcases; lra. Qed.



Lemma set_last_snoc (l : list R) (x v : R) : set_last (l ++ [x]) v = l ++ [v].
Proof.
  induction l as [|a l IH]; simpl; [reflexivity|].
  rewrite IH. destruct (l ++ [x]) eqn:E; [|reflexivity].
  now destruct l.
Qed.

Lemma linspace_edges (start stop : R) (bins : nat) :
  linspace start stop (bins + 1) = map (edge start stop bins) (seq 0 (S bins)).
Proof.
  unfold linspace. rewrite Nat.add_1_r.
  replace (S bins - 1)%nat with bins by lia.
  destruct bins as [|b].
  - simpl. unfold edge. simpl. f_equal. lra.
  - assert (Hb : INR (S b) <> 0) by (apply not_0_INR; lia).
    replace (Nat.ltb 0 (S b)) with true by reflexivity.
    replace (Nat.ltb 1 (S (S b))) with true by reflexivity.
    assert (E : map (fun t => t + start)
                  (if Reqb ((stop - start) / INR (S b)) 0
                   then map (fun t => t / INR (S b) * (stop - start))
                            (map INR (seq 0 (S (S b))))
                   else map (fun t => t * ((stop - start) / INR (S b)))
                            (map INR (seq 0 (S (S b)))))
                = map (fun i => start + INR i * ((stop - start) / INR (S b)))
                      (seq 0 (S (S b)))).
    { destruct (Reqb ((stop - start) / INR (S b)) 0);
        rewrite !map_map; apply map_ext; intros i; field; exact Hb. }
    rewrite E. clear E.
    rewrite (seq_S (S b) 0), !map_app. simpl map at 2. rewrite set_last_snoc.
    f_equal.
    + apply map_ext_in. intros i Hi. apply in_seq in Hi.
      unfold edge. replace (Nat.eqb i (S b)) with false; [reflexivity|].
      symmetry. apply Nat.eqb_neq. lia.
    + simpl. unfold edge. now rewrite Nat.eqb_refl.
Qed.

Lemma edge_step (start stop : R) (bins i : nat) :
  start <= stop -> (i < bins)%nat ->
  edge start stop bins i <= edge start stop bins (S i).
Proof.
  intros Hle Hi. unfold edge.
  assert (Hb : 0 < INR bins) by (apply lt_0_INR; lia).
  replace (Nat.eqb i bins) with false by (symmetry; apply Nat.eqb_neq; lia).
  cbn [andb].
  assert (Hq : 0 <= (stop - start) / INR bins).
  { apply Rmult_le_pos; [lra|]. left. now apply Rinv_0_lt_compat. }
  replace (Nat.ltb 0 bins) with true by (symmetry; apply Nat.ltb_lt; lia).
  rewrite andb_true_r.
  destruct (Nat.eqb (S i) bins) eqn:E; cbv iota.
  - apply Nat.eqb_eq in E.
    assert (Hi' : INR i = INR bins - 1) by (rewrite <- E, S_INR; lra).
    rewrite Hi'.
    replace (start + (INR bins - 1) * ((stop - start) / INR bins))
      with (stop - (stop - start) / INR bins) by (field; lra).
    lra.
  - rewrite S_INR. lra.
Qed.

Lemma monotoneb_map_seq (f : nat -> R) (n s : nat) :
  (forall i, (s <= i)%nat -> (S i < s + n)%nat -> f i <= f (S i)) ->
  monotoneb (map f (seq s n)) = true.
Proof.
  revert s. induction n as [|n IH]; intros s Hf; [reflexivity|].
  destruct n as [|n]; [reflexivity|].
  specialize (IH (S s)).
  unfold monotoneb in *. simpl in *.
  rewrite IH by (intros i H1 H2; apply Hf; lia).
  rewrite andb_true_r. apply negb_true_iff. apply Rltb_false.
  apply Hf; lia.
Qed.

Lemma linspace_monotone (start stop : R) (bins : nat) :
  start <= stop -> monotoneb (linspace start stop (bins + 1)) = true.
Proof.
  intros Hle. rewrite linspace_edges. apply monotoneb_map_seq.
  intros i _ Hi. apply edge_step; [exact Hle | lia].
Qed.

Lemma bin_edges_range (scores1 scores2 : list R) :
  scores1 <> [] -> scores2 <> [] ->
  exists lo hi,
    lo <= hi /\
    forall bins, bin_edges_of bins scores1 scores2 = Ok (linspace lo hi (bins + 1)).
Proof.
  intros N1 N2.
  destruct scores1 as [|x xs]; [easy|]. destruct scores2 as [|y ys]; [easy|].
  exists (py_min (fold_left Rmin xs x) (fold_left Rmin ys y)),
         (py_max (fold_left Rmax xs x) (fold_left Rmax ys y)).
  split; [|reflexivity].
  pose proof (py_min_le_l (fold_left Rmin xs x) (fold_left Rmin ys y)).
  pose proof (py_max_ge_l (fold_left Rmax xs x) (fold_left Rmax ys y)).
  pose proof (fold_Rmin_le xs x). pose proof (fold_Rmax_ge xs x). lra.
Qed.

(** The helper returns a value whenever both collections are non-empty. *)
Lemma calculate_jsd_total (bins : nat) (scores1 scores2 : list R) :
  scores1 <> [] -> scores2 <> [] ->
  exists t, _calculate_jsd bins scores1 scores2 = Ok t.
Proof.
  intros N1 N2.
  destruct (bin_edges_range N1 N2) as (lo & hi & Hle & He).
  unfold _calculate_jsd. rewrite He. simpl.
  unfold histogram_density. rewrite (linspace_monotone bins Hle). simpl.
  eauto.
Qed.

(* ================================================================== *)
(** * The permutation test *)

Lemma statistic_total (d bins : nat) (X Y : matrix) :
  (1 <= d)%nat -> group_of_dim d X -> group_of_dim d Y ->
  (2 <= length X)%nat -> (1 <= length Y)%nat ->
  exists t,
    _calculate_jsd bins (upper_triangle X) (all_pairs X Y) = Ok t /\
    statistic bins X Y = Ok t.
Proof.
  intros Hd HX HY LX LY.
  assert (NX : X <> []) by (apply (@length_ge_nonempty _ X 2); lia).
  assert (NY : Y <> []) by (apply (@length_ge_nonempty _ Y 1); lia).
  assert (N0 : upper_triangle X <> []).
  { apply (@length_ge_nonempty _ _ 1); [lia|].
    rewrite upper_triangle_length.
    apply Nat.div_le_lower_bound; [lia | nia]. }
  assert (N1 : all_pairs X Y <> []).
  { apply (@length_ge_nonempty _ _ 1); [lia|].
    rewrite all_pairs_length. nia. }
  destruct (calculate_jsd_total bins N0 N1) as (t & Ht).
  exists t. split; [exact Ht|].
  unfold statistic.
  rewrite (intra_similarities Hd HX NX), (inter_similarities Hd HX HY NX NY).
  exact Ht.
Qed.

Lemma select_group_of_dim (d : nat) (pool : matrix) (idx : list nat) :
  group_of_dim d pool ->
  (forall i, In i idx -> (i < length pool)%nat) ->
  group_of_dim d (select pool idx).
Proof.
  intros Hp Hidx. unfold group_of_dim in *. rewrite Forall_forall in *.
  intros row Hrow. apply Hp. now apply (select_rows_in pool idx).
Qed.

Lemma group_of_dim_app (d : nat) (A B : matrix) :
  group_of_dim d A -> group_of_dim d B -> group_of_dim d (A ++ B).
Proof. intros HA HB. apply Forall_app. now split. Qed.

(** The statistic of every permuted split is defined. *)
Lemma synthetic_statistic_total (d bins : nat) (A B : matrix) (perm : list nat) :
  (1 <= d)%nat -> group_of_dim d A -> group_of_dim d B ->
  (2 <= length A)%nat -> (1 <= length B)%nat ->
  Permutation perm (seq 0 (length (A ++ B))) ->
  exists t,
    statistic bins (synthetic_group1 (A ++ B) (length A) perm)
                   (synthetic_group2 (A ++ B) (length A) perm) = Ok t.
Proof.
  intros Hd HA HB LA LB HP.
  destruct (split_partitions A B HP) as (_ & _ & L1 & L2 & _).
  assert (Hin : forall i, In i perm -> (i < length (A ++ B))%nat)
    by (apply perm_in_range; exact HP).
  destruct (@statistic_total d bins
              (synthetic_group1 (A ++ B) (length A) perm)
              (synthetic_group2 (A ++ B) (length A) perm)) as (t & _ & Ht).
  - exact Hd.
  - apply select_group_of_dim; [now apply group_of_dim_app|].
    intros i Hi. apply Hin. rewrite <- (firstn_skipn (length A) perm).
    apply in_or_app. now left.
  - apply select_group_of_dim; [now apply group_of_dim_app|].
    intros i Hi. apply Hin. rewrite <- (firstn_skipn (length A) perm).
    apply in_or_app. now right.
  - lia.
  - lia.
  - now exists t.
Qed.

(** One pass of the loop draws one permutation and updates [count] by
    [count_step]. *)
Lemma permutation_iteration_run {G : Type} `{RandomSourceOk G}
  (d bins : nat) (A B : matrix) (observed : f64) (count : Z) (g : G) :
  (1 <= d)%nat -> group_of_dim d A -> group_of_dim d B ->
  (2 <= length A)%nat -> (1 <= length B)%nat ->
  permutation_iteration (A ++ B) (length A) bins observed count g
  = (Ok (count_step bins (A ++ B) (length A) observed count
           (fst (random_permutation (length (A ++ B)) g))),
     snd (random_permutation (length (A ++ B)) g)).
Proof.
  intros Hd HA HB LA LB.
  pose proof (random_permutation_perm (length (A ++ B)) g) as HP.
  set (perm := fst (random_permutation (length (A ++ B)) g)) in *.
  destruct (split_partitions A B HP) as (T1 & T2 & _).
  destruct (synthetic_statistic_total bins Hd HA HB LA LB HP) as (t & Ht).
  unfold permutation_iteration, bind, np_random_permutation, lift, ret.
  fold perm. rewrite T1, T2.
  unfold count_step. rewrite Ht.
  unfold statistic in Ht.
  apply rbind_ok in Ht. destruct Ht as (p0 & E0 & Ht).
  apply rbind_ok in Ht. destruct Ht as (p1 & E1 & Ht).
  rewrite E0, E1, Ht. reflexivity.
Qed.

Lemma permutation_loop_run {G : Type} `{RandomSourceOk G}
  (d bins : nat) (A B : matrix) (observed : f64) (n : nat) (count : Z) (g : G) :
  (1 <= d)%nat -> group_of_dim d A -> group_of_dim d B ->
  (2 <= length A)%nat -> (1 <= length B)%nat ->
  for_range n (permutation_iteration (A ++ B) (length A) bins observed) count g
  = (Ok (fold_left (count_step bins (A ++ B) (length A) observed)
                   (draws n (length (A ++ B)) g) count),
     after_draws n (length (A ++ B)) g).
Proof.
  intros Hd HA HB LA LB. revert count g.
  induction n as [|n IH]; intros count g; simpl; [reflexivity|].
  unfold bind. rewrite (permutation_iteration_run bins observed count g Hd HA HB LA LB).
  apply IH.
Qed.

Lemma draws_length {G : Type} `{RandomSource G} (n len : nat) (g : G) :
  length (draws n len g) = n.
Proof.
  revert g. induction n as [|n IH]; intros g; simpl; [reflexivity|].
  now rewrite IH.
Qed.

Lemma count_step_bounds (bins : nat) (pool : matrix) (k : nat) (observed : f64)
  (perms : list (list nat)) (count : Z) :
  (count <= fold_left (count_step bins pool k observed) perms count
         <= count + Z.of_nat (length perms))%Z.
Proof.
  revert count. induction perms as [|perm perms IH]; intros count.
  - simpl. lia.
  - cbn [fold_left length]. specialize (IH (count_step bins pool k observed count perm)).
    assert (count <= count_step bins pool k observed count perm <= count + 1)%Z.
    { unfold count_step.
      destruct (statistic bins _ _) as [t|e]; [destruct (fgeb t observed)|]; lia. }
    lia.
Qed.

Lemma exceed_count_bounds {G : Type} `{RandomSource G}
  (bins : nat) (pool : matrix) (k : nat) (observed : f64) (n len : nat) (g : G) :
  (0 <= exceed_count bins pool k observed (draws n len g) <= Z.of_nat n)%Z.
Proof.
  unfold exceed_count.
  pose proof (count_step_bounds bins pool k observed (draws n len g) 0) as Hb.
  rewrite draws_length in Hb. lia.
Qed.

(** The whole test on well-formed groups. *)
Lemma test_run {G : Type} `{RandomSourceOk G}
  (d bins : nat) (A B : matrix) (num_permutations : Z) (g : G) :
  (1 <= d)%nat -> group_of_dim d A -> group_of_dim d B ->
  (2 <= length A)%nat -> (1 <= length B)%nat ->
  (0 <= num_permutations)%Z ->
  exists observed,
    statistic bins A B = Ok observed /\
    jensen_shannon_divergence_and_pvalue A B num_permutations bins g
    = (Ok (observed,
           IZR (exceed_count bins (A ++ B) (length A) observed
                  (draws (Z.to_nat num_permutations) (length (A ++ B)) g) + 1)
           / IZR (num_permutations + 1)),
       after_draws (Z.to_nat num_permutations) (length (A ++ B)) g).
Proof.
  intros Hd HA HB LA LB Hn.
  assert (NA : A <> []) by (apply (@length_ge_nonempty _ A 2); lia).
  assert (NB : B <> []) by (apply (@length_ge_nonempty _ B 1); lia).
  destruct (statistic_total bins Hd HA HB LA LB) as (observed & Hj & Hs).
  exists observed. split; [exact Hs|].
  unfold jensen_shannon_divergence_and_pvalue, bind, lift, ret.
  rewrite (intra_similarities Hd HA NA), (inter_similarities Hd HA HB NA NB).
  rewrite Hj, (vstack_ok HA HB NA NB).
  rewrite (permutation_loop_run bins observed _ 0%Z g Hd HA HB LA LB).
  unfold py_truediv.
  replace (num_permutations + 1 =? 0)%Z with false
    by (symmetry; apply Z.eqb_neq; lia).
  reflexivity.
Qed.

(** The counter after the loop is the number of draws that count. *)
Lemma count_step_counted (bins : nat) (pool : matrix) (k : nat) (observed : f64)
  (perms : list (list nat)) (count : Z) :
  fold_left (count_step bins pool k observed) perms count
  = (count + Z.of_nat (length (filter (counted bins pool k observed) perms)))%Z.
Proof.
  revert count. induction perms as [|perm perms IH]; intros count.
  - simpl. lia.
  - cbn [fold_left filter]. rewrite IH. unfold count_step, counted.
    destruct (statistic bins _ _) as [t|e]; [destruct (fgeb t observed)|];
      cbn [length]; lia.
Qed.

Lemma exceed_count_counted (bins : nat) (pool : matrix) (k : nat) (observed : f64)
  (perms : list (list nat)) :
  exceed_count bins pool k observed perms
  = Z.of_nat (length (filter (counted bins pool k observed) perms)).
Proof. unfold exceed_count. now rewrite count_step_counted. Qed.

(** What one pass does with a drawn permutation of the pooled indices. *)
Lemma pass_of_permutation (d bins : nat) (A B : matrix) (observed : f64)
  (perm : list nat) :
  (1 <= d)%nat -> group_of_dim d A -> group_of_dim d B ->
  (2 <= length A)%nat -> (1 <= length B)%nat ->
  Permutation perm (seq 0 (length (A ++ B))) ->
  exists group1 group2 q0 q1 perm_jsd,
    take_rows (A ++ B) (firstn (length A) perm) = Ok group1 /\
    take_rows (A ++ B) (skipn (length A) perm) = Ok group2 /\
    calculate_cosine_similarities group1 None = Ok q0 /\
    calculate_cosine_similarities group1 (Some group2) = Ok q1 /\
    _calculate_jsd bins q0 q1 = Ok perm_jsd /\
    forall count,
      count_step bins (A ++ B) (length A) observed count perm
      = if fgeb perm_jsd observed then (count + 1)%Z else count.
Proof.
  intros Hd HA HB LA LB HP.
  destruct (split_partitions A B HP) as (T1 & T2 & _).
  destruct (synthetic_statistic_total bins Hd HA HB LA LB HP) as (t & Ht).
  pose proof Ht as Hs. unfold statistic in Hs.
  apply rbind_ok in Hs. destruct Hs as (q0 & E0 & Hs).
  apply rbind_ok in Hs. destruct Hs as (q1 & E1 & Hs).
  exists (synthetic_group1 (A ++ B) (length A) perm),
         (synthetic_group2 (A ++ B) (length A) perm), q0, q1, t.
  split; [exact T1|]. split; [exact T2|]. split; [exact E0|].
  split; [exact E1|]. split; [exact Hs|].
  intros count. unfold count_step. now rewrite Ht.
Qed.

(** C1.  For groups [A] and [B] of at least two vectors each and equal
    dimension, the observed statistic is the histogram divergence
    between the intra-[A] similarities and the [A]-to-[B] similarities;
    the test returns it together with [(count + 1) / (num_permutations
    + 1)] and leaves the generator after [num_permutations] draws of a
    permutation of the pooled indices; each draw is one pass, which
    takes the rows at the first [|A|] permuted indices as one group and
    the rest as the other, computes the statistic of that pair the same
    way, and adds one to [count] exactly when it is at least the
    observed statistic. *)
Theorem permutation_test_structure {G : Type} `{RandomSourceOk G}
  (d bins : nat) (A B : matrix) (num_permutations : Z) (g : G) :
  (1 <= d)%nat -> group_of_dim d A -> group_of_dim d B ->
  (2 <= length A)%nat -> (2 <= length B)%nat ->
  (0 <= num_permutations)%Z ->
  exists p0 p1 observed,
    calculate_cosine_similarities A None = Ok p0 /\
    calculate_cosine_similarities A (Some B) = Ok p1 /\
    _calculate_jsd bins p0 p1 = Ok observed /\
    jensen_shannon_divergence_and_pvalue A B num_permutations bins g
    = (Ok (observed,
           IZR (exceed_count bins (A ++ B) (length A) observed
                  (draws (Z.to_nat num_permutations) (length (A ++ B)) g) + 1)
           / IZR (num_permutations + 1)),
       after_draws (Z.to_nat num_permutations) (length (A ++ B)) g) /\
    length (draws (Z.to_nat num_permutations) (length (A ++ B)) g)
    = Z.to_nat num_permutations /\
    Forall
      (fun perm =>
         Permutation perm (seq 0 (length (A ++ B))) /\
         exists group1 group2 q0 q1 perm_jsd,
           take_rows (A ++ B) (firstn (length A) perm) = Ok group1 /\
           take_rows (A ++ B) (skipn (length A) perm) = Ok group2 /\
           calculate_cosine_similarities group1 None = Ok q0 /\
           calculate_cosine_similarities group1 (Some group2) = Ok q1 /\
           _calculate_jsd bins q0 q1 = Ok perm_jsd /\
           forall count,
             count_step bins (A ++ B) (length A) observed count perm
             = if fgeb perm_jsd observed then (count + 1)%Z else count)
      (draws (Z.to_nat num_permutations) (length (A ++ B)) g).
Proof.
  intros Hd HA HB LA LB Hn.
  assert (LB1 : (1 <= length B)%nat) by lia.
  assert (NA : A <> []) by (apply (@length_ge_nonempty _ A 2); lia).
  assert (NB : B <> []) by (apply (@length_ge_nonempty _ B 1); lia).
  destruct (test_run bins g Hd HA HB LA LB1 Hn) as (observed & Hs & Hrun).
  destruct (statistic_total bins Hd HA HB LA LB1) as (t & Ht & Hs').
  assert (t = observed) by congruence. subst t.
  exists (upper_triangle A), (all_pairs A B), observed.
  split; [|split; [|split; [|split; [|split]]]].
  - exact (intra_similarities Hd HA NA).
  - exact (inter_similarities Hd HA HB NA NB).
  - exact Ht.
  - exact Hrun.
  - apply draws_length.
  - eapply Forall_impl; [|apply draws_are_permutations].
    intros perm HP. split; [exact HP|].
    now apply (@pass_of_permutation d).
Qed.

Lemma permutation_test_structure_witness :
  exists p0 p1 observed,
    calculate_cosine_similarities [[1; 0]; [0; 1]] None = Ok p0 /\
    calculate_cosine_similarities [[1; 0]; [0; 1]] (Some [[1; 1]; [2; 1]])
    = Ok p1 /\
    _calculate_jsd 30 p0 p1 = Ok observed /\
    jensen_shannon_divergence_and_pvalue
      [[1; 0]; [0; 1]] [[1; 1]; [2; 1]] 3 30 5%nat
    = (Ok (observed,
           IZR (exceed_count 30 ([[1; 0]; [0; 1]] ++ [[1; 1]; [2; 1]])
                  (length [[1; 0]; [0; 1]]) observed
                  (draws (Z.to_nat 3)
                     (length ([[1; 0]; [0; 1]] ++ [[1; 1]; [2; 1]])) 5%nat) + 1)
           / IZR (3 + 1)),
       after_draws (Z.to_nat 3)
         (length ([[1; 0]; [0; 1]] ++ [[1; 1]; [2; 1]])) 5%nat) /\
    length (draws (Z.to_nat 3)
              (length ([[1; 0]; [0; 1]] ++ [[1; 1]; [2; 1]])) 5%nat)
    = Z.to_nat 3 /\
    Forall
      (fun perm =>
         Permutation perm
           (seq 0 (length ([[1; 0]; [0; 1]] ++ [[1; 1]; [2; 1]]))) /\
         exists group1 group2 q0 q1 perm_jsd,
           take_rows ([[1; 0]; [0; 1]] ++ [[1; 1]; [2; 1]])
             (firstn (length [[1; 0]; [0; 1]]) perm) = Ok group1 /\
           take_rows ([[1; 0]; [0; 1]] ++ [[1; 1]; [2; 1]])
             (skipn (length [[1; 0]; [0; 1]]) perm) = Ok group2 /\
           calculate_cosine_similarities group1 None = Ok q0 /\
           calculate_cosine_similarities group1 (Some group2) = Ok q1 /\
           _calculate_jsd 30 q0 q1 = Ok perm_jsd /\
           forall count,
             count_step 30 ([[1; 0]; [0; 1]] ++ [[1; 1]; [2; 1]])
               (length [[1; 0]; [0; 1]]) observed count perm
             = if fgeb perm_jsd observed then (count + 1)%Z else count)
      (draws (Z.to_nat 3)
         (length ([[1; 0]; [0; 1]] ++ [[1; 1]; [2; 1]])) 5%nat).
Proof.
  apply (@permutation_test_structure nat CounterSource CounterSourceOk 2 30
           [[1; 0]; [0; 1]] [[1; 1]; [2; 1]] 3%Z 5%nat).
  - lia.
  - repeat constructor.
  - repeat constructor.
  - simpl; lia.
  - simpl; lia.
  - lia.
Defined.

(** C2.  For well-formed groups and [num_permutations >= 0] the test
    returns its observed statistic together with the p-value
    [(count + 1) / (num_permutations + 1)], where [count] is the number
    of drawn permutations whose split has a statistic that is at least
    the observed one; [count] lies between 0 and [num_permutations], so
    the p-value is greater than 0 and at most 1. *)
Theorem pvalue_formula_and_range {G : Type} `{RandomSourceOk G}
  (d bins : nat) (A B : matrix) (num_permutations : Z) (g : G) :
  (1 <= d)%nat -> group_of_dim d A -> group_of_dim d B ->
  (2 <= length A)%nat -> (1 <= length B)%nat ->
  (0 <= num_permutations)%Z ->
  exists observed count,
    statistic bins A B = Ok observed /\
    count = Z.of_nat
              (length (filter (counted bins (A ++ B) (length A) observed)
                         (draws (Z.to_nat num_permutations)
                            (length (A ++ B)) g))) /\
    jensen_shannon_divergence_and_pvalue A B num_permutations bins g
    = (Ok (observed, IZR (count + 1) / IZR (num_permutations + 1)),
       after_draws (Z.to_nat num_permutations) (length (A ++ B)) g) /\
    (0 <= count <= num_permutations)%Z /\
    0 < IZR (count + 1) / IZR (num_permutations + 1) <= 1 /\
    IZR (count + 1) / IZR (num_permutations + 1) <> 0.
Proof.
  intros Hd HA HB LA LB Hn.
  destruct (test_run bins g Hd HA HB LA LB Hn) as (observed & Hs & Hrun).
  pose proof (exceed_count_bounds bins (A ++ B) (length A) observed
                (Z.to_nat num_permutations) (length (A ++ B)) g) as Hc.
  rewrite exceed_count_counted in Hrun, Hc.
  set (count := Z.of_nat
                  (length (filter (counted bins (A ++ B) (length A) observed)
                             (draws (Z.to_nat num_permutations)
                                (length (A ++ B)) g)))) in *.
  rewrite Z2Nat.id in Hc by exact Hn.
  exists observed, count.
  split; [exact Hs|]. split; [reflexivity|]. split; [exact Hrun|].
  split; [exact Hc|].
  assert (H1 : 0 < IZR (count + 1)) by (apply IZR_lt; lia).
  assert (H2 : 0 < IZR (num_permutations + 1)) by (apply IZR_lt; lia).
  assert (H3 : IZR (count + 1) <= IZR (num_permutations + 1))
    by (apply IZR_le; lia).
  assert (H4 : 0 < IZR (count + 1) / IZR (num_permutations + 1))
    by (now apply Rdiv_lt_0_compat).
  split; [split|]; [exact H4 | | lra].
  apply (Rmult_le_reg_r (IZR (num_permutations + 1))); [exact H2|].
  unfold Rdiv. rewrite Rmult_assoc, Rinv_l, Rmult_1_r, Rmult_1_l; lra.
Qed.

Lemma pvalue_formula_and_range_witness :
  exists observed count,
    statistic 30 [[1; 0]; [0; 1]; [1; 1]] [[2; 1]] = Ok observed /\
    count = Z.of_nat
              (length (filter (counted 30 ([[1; 0]; [0; 1]; [1; 1]] ++ [[2; 1]])
                                 (length [[1; 0]; [0; 1]; [1; 1]]) observed)
                         (draws (Z.to_nat 4)
                            (length ([[1; 0]; [0; 1]; [1; 1]] ++ [[2; 1]]))
                            0%nat))) /\
    jensen_shannon_divergence_and_pvalue
      [[1; 0]; [0; 1]; [1; 1]] [[2; 1]] 4 30 0%nat
    = (Ok (observed, IZR (count + 1) / IZR (4 + 1)),
       after_draws (Z.to_nat 4)
         (length ([[1; 0]; [0; 1]; [1; 1]] ++ [[2; 1]])) 0%nat) /\
    (0 <= count <= 4)%Z /\
    0 < IZR (count + 1) / IZR (4 + 1) <= 1 /\
    IZR (count + 1) / IZR (4 + 1) <> 0.
Proof.
  apply (@pvalue_formula_and_range nat CounterSource CounterSourceOk 2 30
           [[1; 0]; [0; 1]; [1; 1]] [[2; 1]] 4%Z 0%nat).
  - lia.
  - repeat constructor.
  - repeat constructor.
  - simpl; lia.
  - simpl; lia.
  - lia.
Defined.

(* ================================================================== *)
(** * The histogram divergence *)

(* ------------------------------------------------------------------ *)
(** ** Symmetry *)







(* ------------------------------------------------------------------ *)
(** ** The histogram over edges [e 0 .. e bins] *)

Lemma diffR_map_seq (f : nat -> R) (s n : nat) :
  diffR (map f (seq s (S n))) = map (fun i => f (S i) - f i) (seq s n).
Proof.
  unfold diffR. revert s. induction n as [|n IH]; intros s; [reflexivity|].
  specialize (IH (S s)). simpl in *. now rewrite IH.
Qed.

Lemma diffZ_map_seq (f : nat -> Z) (s n : nat) :
  diffZ (map f (seq s (S n))) = map (fun i => (f (S i) - f i)%Z) (seq s n).
Proof.
  unfold diffZ. revert s. induction n as [|n IH]; intros s; [reflexivity|].
  specialize (IH (S s)). simpl in *. now rewrite IH.
Qed.

Lemma combine_map_seq {A B : Type} (f : nat -> A) (g : nat -> B) (s n : nat) :
  combine (map f (seq s n)) (map g (seq s n)) = map (fun i => (f i, g i)) (seq s n).
Proof.
  revert s. induction n as [|n IH]; intros s; simpl; [reflexivity|].
  now rewrite IH.
Qed.

Lemma telescope (f : nat -> Z) (s n : nat) :
  fold_right Z.add 0%Z (map (fun i => (f (S i) - f i)%Z) (seq s n))
  = (f (s + n)%nat - f s)%Z.
Proof.
  revert s. induction n as [|n IH]; intros s; simpl.
  - rewrite Nat.add_0_r. lia.
  - rewrite IH. replace (S s + n)%nat with (s + S n)%nat by lia. lia.
Qed.

Lemma search_sorted_map_seq (a : list R) (e : nat -> R) (bins : nat) :
  search_sorted_inclusive a (map e (seq 0 (S bins)))
  = map (cum_count a e bins) (seq 0 (S bins)).
Proof.
  unfold search_sorted_inclusive.
  destruct (map e (seq 0 (S bins))) eqn:E; [discriminate E|]. rewrite <- E.
  rewrite (seq_S bins 0), !map_app. cbn [map Nat.add].
  rewrite removelast_last, last_last, map_map. f_equal.
  - apply map_ext_in. intros i Hi. apply in_seq in Hi.
    unfold cum_count.
    replace (Nat.ltb i bins) with true by (symmetry; apply Nat.ltb_lt; lia).
    reflexivity.
  - unfold cum_count. now rewrite Nat.ltb_irrefl.
Qed.

Lemma histogram_density_map_seq (a : list R) (e : nat -> R) (bins : nat) :
  monotoneb (map e (seq 0 (S bins))) = true ->
  histogram_density a (map e (seq 0 (S bins)))
  = Ok (map (bin_density a e bins) (seq 0 bins)).
Proof.
  intros Hm. unfold histogram_density. rewrite Hm. simpl negb. cbv iota.
  rewrite search_sorted_map_seq, diffZ_map_seq, diffR_map_seq, combine_map_seq.
  rewrite telescope, map_map. reflexivity.
Qed.

(* ------------------------------------------------------------------ *)
(** ** Sums of doubles *)

Lemma fold_fadd_special (l : list f64) (acc : f64) :
  special acc -> Forall special l -> special (fold_left fadd l acc).
Proof.
  revert acc. induction l as [|x l IH]; intros acc Hacc Hl; simpl; [exact Hacc|].
  inversion Hl as [|? ? Hx Hl']; subst. apply IH; [|exact Hl'].
  destruct Hacc as [-> | ->], Hx as [-> | ->]; simpl; unfold special; auto.
Qed.

Lemma fsum_special (l : list f64) :
  l <> [] -> Forall special l -> special (fsum l).
Proof.
  intros Hne Hl. destruct l as [|x l]; [easy|].
  inversion Hl as [|? ? Hx Hl']; subst.
  unfold fsum. simpl. apply fold_fadd_special; [|exact Hl'].
  destruct Hx as [-> | ->]; simpl; unfold special; auto.
Qed.

Lemma fold_fadd_nan (l : list f64) : fold_left fadd l NaN = NaN.
Proof. induction l as [|x l IH]; simpl; [reflexivity | exact IH]. Qed.

Lemma fsum_all_nan (l : list f64) :
  l <> [] -> Forall (fun x => x = NaN) l -> fsum l = NaN.
Proof.
  intros Hne Hl. destruct l as [|x l]; [easy|].
  inversion Hl as [|? ? Hx _]; subst.
  unfold fsum. simpl. apply fold_fadd_nan.
Qed.

Lemma fdiv_special (x y : f64) : special x -> special y -> fdiv x y = NaN.
Proof. intros [-> | ->] [-> | ->]; reflexivity. Qed.

(** When every density is [nan] or [inf], the divergence is [nan]. *)
Lemma jensenshannon_special (p q : list f64) :
  p <> [] -> q <> [] -> Forall special p -> jensenshannon p q = NaN.
Proof.
  intros Np Nq Hp. unfold jensenshannon.
  set (P := map (fun x => fdiv x (fsum p)) p).
  set (Q := map (fun x => fdiv x (fsum q)) q).
  set (m := map (fun xy => fdiv (fadd (fst xy) (snd xy)) (Fin 2)) (combine P Q)).
  assert (HP : Forall (fun x => x = NaN) P).
  { apply Forall_forall. intros x Hx. apply in_map_iff in Hx.
    destruct Hx as (y & <- & Hy). apply fdiv_special.
    - rewrite Forall_forall in Hp. now apply Hp.
    - now apply fsum_special. }
  assert (LP : length P = length p) by apply length_map.
  assert (LQ : length Q = length q) by apply length_map.
  assert (Lm : length m = Nat.min (length p) (length q)).
  { unfold m. now rewrite length_map, length_combine, LP, LQ. }
  assert (Hleft : fsum (map (fun xm => rel_entr (fst xm) (snd xm)) (combine P m))
                  = NaN).
  { apply fsum_all_nan.
    - intros E. apply (f_equal (@length _)) in E.
      rewrite length_map, length_combine, LP, Lm in E. simpl in E.
      destruct p; [easy|]. destruct q; [easy|]. simpl in E. lia.
    - apply Forall_forall. intros x Hx. apply in_map_iff in Hx.
      destruct Hx as ([a b] & <- & Hab). apply in_combine_l in Hab.
      rewrite Forall_forall in HP. rewrite (HP a Hab). reflexivity. }
  rewrite Hleft. reflexivity.
Qed.

(* ------------------------------------------------------------------ *)
(** ** Collections without spread *)

Lemma constant_min (v x : R) (xs : list R) :
  constant v (x :: xs) -> fold_left Rmin xs x = v.
Proof.
  revert x. induction xs as [|y xs IH]; intros x Hc.
  - now inversion Hc.
  - simpl. apply IH. inversion Hc as [|? ? Hx Hc']; subst.
    inversion Hc' as [|? ? Hy Hc'']; subst.
    constructor; [|exact Hc'']. unfold Rmin. destruct (Rle_dec v v); reflexivity.
Qed.

Lemma constant_max (v x : R) (xs : list R) :
  constant v (x :: xs) -> fold_left Rmax xs x = v.
Proof.
  revert x. induction xs as [|y xs IH]; intros x Hc.
  - now inversion Hc.
  - simpl. apply IH. inversion Hc as [|? ? Hx Hc']; subst.
    inversion Hc' as [|? ? Hy Hc'']; subst.
    constructor; [|exact Hc'']. unfold Rmax. destruct (Rle_dec v v); reflexivity.
Qed.

Lemma edge_flat (v : R) (bins i : nat) : edge v v bins i = v.
Proof.
  unfold edge. destruct (Nat.eqb i bins && Nat.ltb 0 bins); [reflexivity|].
  unfold Rdiv. ring.
Qed.

Lemma constant_bin_edges (bins : nat) (v : R) (X Y : list R) :
  X <> [] -> Y <> [] -> constant v X -> constant v Y ->
  bin_edges_of bins X Y = Ok (map (edge v v bins) (seq 0 (S bins))).
Proof.
  intros NX NY CX CY.
  destruct X as [|x xs]; [easy|]. destruct Y as [|y ys]; [easy|].
  unfold bin_edges_of, ndarray_min, ndarray_max. simpl.
  rewrite (constant_min CX), (constant_min CY).
  rewrite (constant_max CX), (constant_max CY).
  replace (py_min v v) with v by (unfold py_min; now rcases).
  replace (py_max v v) with v by (unfold py_max; now rcases).
  now rewrite linspace_edges.
Qed.

Lemma constant_count_lt (v : R) (X : list R) : constant v X -> count_lt X v = 0%Z.
Proof.
  intros CX. unfold count_lt. induction CX as [|x X Hx _ IH]; [reflexivity|].
  simpl. subst x. replace (Rltb v v) with false; [exact IH|].
  symmetry. apply Rltb_false. lra.
Qed.

Lemma constant_count_le (v : R) (X : list R) :
  constant v X -> count_le X v = Z.of_nat (length X).
Proof.
  intros CX. unfold count_le. f_equal. induction CX as [|x X Hx _ IH]; [reflexivity|].
  simpl. subst x. replace (Rleb v v) with true; [simpl; now rewrite IH|].
  symmetry. apply Rleb_true. lra.
Qed.

Lemma constant_bin_density (bins i : nat) (v : R) (X : list R) :
  X <> [] -> constant v X -> (i < bins)%nat ->
  special (bin_density X (edge v v bins) bins i).
Proof.
  intros NX CX Hi. unfold bin_density, cum_count.
  rewrite !edge_flat.
  rewrite (constant_count_lt CX), (constant_count_le CX).
  replace (Nat.ltb i bins) with true by (symmetry; apply Nat.ltb_lt; lia).
  replace (Nat.ltb bins bins) with false by (symmetry; apply Nat.ltb_irrefl).
  replace (Nat.ltb 0 bins) with true by (symmetry; apply Nat.ltb_lt; lia).
  assert (HN : 0 < IZR (Z.of_nat (length X) - 0)).
  { apply IZR_lt. destruct X; [easy | simpl length; lia]. }
  assert (Hw : Reqb (v - v) 0 = true) by (apply Reqb_true; lra).
  destruct (Nat.ltb (S i) bins).
  - left. simpl. rewrite Hw.
    replace (Reqb 0 0) with true by (symmetry; apply Reqb_refl). reflexivity.
  - right. unfold fdiv at 2. rewrite Hw.
    replace (Reqb (IZR (Z.of_nat (length X) - 0)) 0) with false
      by (symmetry; apply Reqb_false; lra).
    replace (Rltb 0 (IZR (Z.of_nat (length X) - 0))) with true
      by (symmetry; now apply Rltb_true).
    simpl.
    replace (Rltb (IZR (Z.of_nat (length X) - 0)) 0) with false
      by (symmetry; apply Rltb_false; lra).
    reflexivity.
Qed.

Lemma constant_histogram (bins : nat) (v : R) (X : list R) :
  X <> [] -> constant v X ->
  histogram_density X (map (edge v v bins) (seq 0 (S bins)))
  = Ok (map (bin_density X (edge v v bins) bins) (seq 0 bins)) /\
  Forall special (map (bin_density X (edge v v bins) bins) (seq 0 bins)).
Proof.
  intros NX CX. split.
  - apply histogram_density_map_seq.
    rewrite <- linspace_edges. apply linspace_monotone. lra.
  - apply Forall_forall. intros x Hx. apply in_map_iff in Hx.
    destruct Hx as (i & <- & Hi). apply in_seq in Hi.
    apply constant_bin_density; [exact NX | exact CX | lia].
Qed.

(** Two non-empty collections that hold one and the same value: every
    bin has width zero. *)
Lemma constant_bin_widths (bins : nat) (v : R) (X Y : list R) :
  X <> [] -> Y <> [] -> constant v X -> constant v Y ->
  exists edges,
    bin_edges_of bins X Y = Ok edges /\
    length edges = (bins + 1)%nat /\
    Forall (fun e => e = v) edges /\
    Forall (fun w => w = 0) (diffR edges).
Proof.
  intros NX NY CX CY.
  exists (map (edge v v bins) (seq 0 (S bins))).
  split; [now apply constant_bin_edges|].
  split; [rewrite length_map, length_seq; lia|].
  split.
  - apply Forall_forall. intros e He. apply in_map_iff in He.
    destruct He as (i & <- & _). apply edge_flat.
  - rewrite diffR_map_seq. apply Forall_forall. intros w Hw.
    apply in_map_iff in Hw. destruct Hw as (i & <- & _).
    rewrite !edge_flat. lra.
Qed.

(** ... and the helper returns [nan]. *)
Lemma calculate_jsd_degenerate (bins : nat) (v : R) (X Y : list R) :
  (1 <= bins)%nat -> X <> [] -> Y <> [] -> constant v X -> constant v Y ->
  _calculate_jsd bins X Y = Ok NaN.
Proof.
  intros Hb NX NY CX CY.
  unfold _calculate_jsd. rewrite (constant_bin_edges bins NX NY CX CY).
  cbn [rbind].
  destruct (constant_histogram bins NX CX) as (-> & SX).
  destruct (constant_histogram bins NY CY) as (-> & SY).
  cbn [rbind]. f_equal. apply jensenshannon_special; [| | exact SX].
  - destruct bins; [lia | discriminate].
  - destruct bins; [lia | discriminate].
Qed.

(** C5, as the code has it.  When both collections are non-empty and
    hold one and the same value, the helper raises no error, but the
    range is not widened: every bin edge equals that value, every bin
    has width zero, every density of both histograms is [nan] or [inf],
    and the value returned is [nan]. *)
Theorem zero_variance_range_is_not_widened (bins : nat) (v : R) (X Y : list R) :
  (1 <= bins)%nat -> X <> [] -> Y <> [] -> constant v X -> constant v Y ->
  exists edges hist1 hist2,
    bin_edges_of bins X Y = Ok edges /\
    length edges = (bins + 1)%nat /\
    Forall (fun e => e = v) edges /\
    Forall (fun w => w = 0) (diffR edges) /\
    histogram_density X edges = Ok hist1 /\ Forall special hist1 /\
    histogram_density Y edges = Ok hist2 /\ Forall special hist2 /\
    _calculate_jsd bins X Y = Ok NaN.
Proof.
  intros Hb NX NY CX CY.
  destruct (constant_bin_widths bins NX NY CX CY) as (edges & He & Hl & Hv & Hw).
  assert (Ee : edges = map (edge v v bins) (seq 0 (S bins))).
  { rewrite (constant_bin_edges bins NX NY CX CY) in He. now inversion He. }
  destruct (constant_histogram bins NX CX) as (H1 & S1).
  destruct (constant_histogram bins NY CY) as (H2 & S2).
  exists edges. rewrite Ee in *.
  do 2 eexists.
  split; [exact He|]. split; [exact Hl|]. split; [exact Hv|]. split; [exact Hw|].
  split; [exact H1|]. split; [exact S1|]. split; [exact H2|]. split; [exact S2|].
  now apply (@calculate_jsd_degenerate bins v).
Qed.

Lemma zero_variance_range_is_not_widened_witness :
  exists edges hist1 hist2,
    bin_edges_of 30 [1; 1; 1] [1; 1] = Ok edges /\
    length edges = (30 + 1)%nat /\
    Forall (fun e => e = 1) edges /\
    Forall (fun w => w = 0) (diffR edges) /\
    histogram_density [1; 1; 1] edges = Ok hist1 /\ Forall special hist1 /\
    histogram_density [1; 1] edges = Ok hist2 /\ Forall special hist2 /\
    _calculate_jsd 30 [1; 1; 1] [1; 1] = Ok NaN.
Proof.
  apply (@zero_variance_range_is_not_widened 30 1 [1; 1; 1] [1; 1]).
  - lia.
  - discriminate.
  - discriminate.
  - repeat constructor.
  - repeat constructor.
Defined.

Lemma cosine_of_unit_vector : cosine [1; 0] [1; 0] = 1.
Proof.
  assert (Hn : row_norm [1; 0] = 1).
  { unfold row_norm, dot. simpl.
    replace (1 * 1 + (0 * 0 + 0)) with 1 by lra. apply sqrt_1. }
  assert (Hz : handle_zeros_in_scale 1 = 1).
  { unfold handle_zeros_in_scale, float_eps.
    replace (Rltb 1 (10 * / 4503599627370496)) with false; [reflexivity|].
    symmetry. apply Rltb_false. lra. }
  unfold cosine, normalize_row. rewrite Hn, Hz. unfold dot. simpl. lra.
Qed.

(** C5 as stated fails: three coinciding vectors compared with two
    more copies have similarities without spread; the bins then have
    width zero and the divergence is [nan]. *)
Lemma zero_variance_divides_by_zero :
  exists p0 p1 edges,
    calculate_cosine_similarities [[1; 0]; [1; 0]; [1; 0]] None = Ok p0 /\
    calculate_cosine_similarities [[1; 0]; [1; 0]; [1; 0]]
      (Some [[1; 0]; [1; 0]]) = Ok p1 /\
    constant 1 p0 /\ constant 1 p1 /\
    bin_edges_of 30 p0 p1 = Ok edges /\
    Forall (fun w => w = 0) (diffR edges) /\
    _calculate_jsd 30 p0 p1 = Ok NaN.
Proof.
  set (A := [[1; 0]; [1; 0]; [1; 0]]). set (B := [[1; 0]; [1; 0]]).
  assert (HA : group_of_dim 2 A) by (repeat constructor).
  assert (HB : group_of_dim 2 B) by (repeat constructor).
  assert (C0 : constant 1 (upper_triangle A)).
  { unfold upper_triangle, A. simpl. rewrite cosine_of_unit_vector.
    repeat constructor. }
  assert (C1 : constant 1 (all_pairs A B)).
  { unfold all_pairs, A, B. simpl. rewrite cosine_of_unit_vector.
    repeat constructor. }
  assert (N0 : upper_triangle A <> []) by discriminate.
  assert (N1 : all_pairs A B <> []) by discriminate.
  destruct (constant_bin_widths 30 N0 N1 C0 C1) as (edges & He & _ & _ & Hw).
  exists (upper_triangle A), (all_pairs A B), edges.
  split; [apply (@intra_similarities 2); [lia | exact HA | discriminate]|].
  split; [apply (@inter_similarities 2); [lia | exact HA | exact HB | discriminate | discriminate]|].
  split; [exact C0|]. split; [exact C1|]. split; [exact He|]. split; [exact Hw|].
  apply (@calculate_jsd_degenerate 30 1); auto. lia.
Qed.

(* ------------------------------------------------------------------ *)
(** ** Divergence of a histogram from itself *)

Lemma fold_fadd_fin (rs : list R) (a : R) :
  fold_left fadd (map Fin rs) (Fin a) = Fin (a + Rsum rs).
Proof.
  revert a. induction rs as [|r rs IH]; intros a; simpl.
  - f_equal. lra.
  - rewrite IH. f_equal. lra.
Qed.

Lemma fsum_fin (rs : list R) : fsum (map Fin rs) = Fin (Rsum rs).
Proof. unfold fsum. rewrite fold_fadd_fin. f_equal. lra. Qed.


Lemma Rsum_nonneg (rs : list R) : Forall (fun r => 0 <= r) rs -> 0 <= Rsum rs.
Proof.
  induction 1 as [|r rs Hr _ IH]; simpl; lra.
Qed.

Lemma Rsum_pos (rs : list R) :
  Forall (fun r => 0 <= r) rs -> (exists r, In r rs /\ 0 < r) -> 0 < Rsum rs.
Proof.
  induction 1 as [|r rs Hr Hrs IH]; intros (r0 & Hin & Hpos); simpl.
  - destruct Hin.
  - pose proof (Rsum_nonneg Hrs). destruct Hin as [-> | Hin]; [lra|].
    assert (0 < Rsum rs) by (apply IH; eauto). lra.
Qed.





(* ------------------------------------------------------------------ *)
(** ** Collections with spread *)

Lemma fold_Rmin_lower (xs : list R) (x y : R) :
  In y (x :: xs) -> fold_left Rmin xs x <= y.
Proof.
  revert x. induction xs as [|z xs IH]; intros x Hy.
  - destruct Hy as [-> | []]. simpl. lra.
  - simpl. destruct Hy as [-> | [-> | Hy]].
    + eapply Rle_trans; [apply fold_Rmin_le | apply Rmin_l].
    + eapply Rle_trans; [apply fold_Rmin_le | apply Rmin_r].
    + apply IH. now right.
Qed.

Lemma fold_Rmax_upper (xs : list R) (x y : R) :
  In y (x :: xs) -> y <= fold_left Rmax xs x.
Proof.
  revert x. induction xs as [|z xs IH]; intros x Hy.
  - destruct Hy as [-> | []]. simpl. lra.
  - simpl. destruct Hy as [-> | [-> | Hy]].
    + eapply Rle_trans; [apply Rmax_l | apply fold_Rmax_ge].
    + eapply Rle_trans; [apply Rmax_r | apply fold_Rmax_ge].
    + apply IH. now right.
Qed.

Lemma edge_first (lo hi : R) (bins : nat) : (1 <= bins)%nat -> edge lo hi bins 0 = lo.
Proof.
  intros Hb. unfold edge.
  replace (Nat.eqb 0 bins) with false by (symmetry; apply Nat.eqb_neq; lia).
  simpl. lra.
Qed.

Lemma edge_last (lo hi : R) (bins : nat) : (1 <= bins)%nat -> edge lo hi bins bins = hi.
Proof.
  intros Hb. unfold edge. rewrite Nat.eqb_refl.
  replace (Nat.ltb 0 bins) with true by (symmetry; apply Nat.ltb_lt; lia).
  reflexivity.
Qed.

Lemma edge_step_strict (lo hi : R) (bins i : nat) :
  lo < hi -> (i < bins)%nat -> edge lo hi bins i < edge lo hi bins (S i).
Proof.
  intros Hlt Hi. unfold edge.
  assert (Hb : 0 < INR bins) by (apply lt_0_INR; lia).
  replace (Nat.eqb i bins) with false by (symmetry; apply Nat.eqb_neq; lia).
  cbn [andb].
  assert (Hq : 0 < (hi - lo) / INR bins).
  { apply Rmult_lt_0_compat; [lra|]. now apply Rinv_0_lt_compat. }
  replace (Nat.ltb 0 bins) with true by (symmetry; apply Nat.ltb_lt; lia).
  rewrite andb_true_r.
  destruct (Nat.eqb (S i) bins) eqn:E; cbv iota.
  - apply Nat.eqb_eq in E.
    assert (Hi' : INR i = INR bins - 1) by (rewrite <- E, S_INR; lra).
    rewrite Hi'.
    replace (lo + (INR bins - 1) * ((hi - lo) / INR bins))
      with (hi - (hi - lo) / INR bins) by (field; lra).
    lra.
  - rewrite S_INR. lra.
Qed.

Lemma filter_length_mono {A : Type} (p q : A -> bool) (l : list A) :
  (forall x, In x l -> p x = true -> q x = true) ->
  (length (filter p l) <= length (filter q l))%nat.
Proof.
  induction l as [|x l IH]; intros Hpq; simpl; [lia|].
  assert (IH' : (length (filter p l) <= length (filter q l))%nat)
    by (apply IH; intros y Hy; apply Hpq; now right).
  destruct (p x) eqn:Ep.
  - rewrite (Hpq x (or_introl eq_refl) Ep). simpl. lia.
  - destruct (q x); simpl; lia.
Qed.

Lemma count_lt_below (X : list R) (lo : R) :
  (forall x, In x X -> lo <= x) -> count_lt X lo = 0%Z.
Proof.
  intros Hlo. unfold count_lt.
  induction X as [|x X IH]; [reflexivity|]. simpl.
  replace (Rltb x lo) with false
    by (symmetry; apply Rltb_false; apply Hlo; now left).
  apply IH. intros y Hy. apply Hlo. now right.
Qed.

Lemma count_le_above (X : list R) (hi : R) :
  (forall x, In x X -> x <= hi) -> count_le X hi = Z.of_nat (length X).
Proof.
  intros Hhi. unfold count_le. f_equal.
  induction X as [|x X IH]; [reflexivity|]. simpl.
  replace (Rleb x hi) with true
    by (symmetry; apply Rleb_true; apply Hhi; now left).
  simpl. f_equal. apply IH. intros y Hy. apply Hhi. now right.
Qed.

Lemma cum_count_step (X : list R) (e : nat -> R) (bins i : nat) :
  (i < bins)%nat -> e i <= e (S i) ->
  (cum_count X e bins i <= cum_count X e bins (S i))%Z.
Proof.
  intros Hi He. unfold cum_count.
  replace (Nat.ltb i bins) with true by (symmetry; apply Nat.ltb_lt; lia).
  unfold count_lt, count_le.
  destruct (Nat.ltb (S i) bins); apply inj_le; apply filter_length_mono;
    intros x _ Hx; apply Rltb_true in Hx.
  - apply Rltb_true. lra.
  - apply Rleb_true. lra.
Qed.

Lemma positive_term (f : nat -> Z) (s n : nat) :
  (0 < fold_right Z.add 0 (map f (seq s n)))%Z ->
  exists i, In i (seq s n) /\ (0 < f i)%Z.
Proof.
  revert s. induction n as [|n IH]; intros s Hsum; simpl in Hsum; [lia|].
  destruct (Z_lt_le_dec 0 (f s)) as [Hpos | Hle].
  - exists s. split; [now left | exact Hpos].
  - destruct (IH (S s)) as (i & Hi & Hfi); [lia|].
    exists i. split; [now right | exact Hfi].
Qed.

(** The histogram of a collection over a range with [lo < hi] that
    covers it: finite, non-negative densities with a positive sum. *)
Lemma spread_histogram (bins : nat) (lo hi : R) (X : list R) :
  (1 <= bins)%nat -> lo < hi -> X <> [] ->
  (forall x, In x X -> lo <= x <= hi) ->
  exists rs,
    histogram_density X (map (edge lo hi bins) (seq 0 (S bins))) = Ok (map Fin rs) /\
    Forall (fun r => 0 <= r) rs /\
    0 < Rsum rs.
Proof.
  intros Hb Hlt NX Hrange.
  set (e := edge lo hi bins).
  set (c := cum_count X e bins).
  assert (Hc0 : c 0%nat = 0%Z).
  { unfold c, cum_count.
    replace (Nat.ltb 0 bins) with true by (symmetry; apply Nat.ltb_lt; lia).
    unfold e. rewrite edge_first by exact Hb.
    apply count_lt_below. intros x Hx. now apply Hrange. }
  assert (Hcn : c bins = Z.of_nat (length X)).
  { unfold c, cum_count. rewrite Nat.ltb_irrefl.
    unfold e. rewrite edge_last by exact Hb.
    apply count_le_above. intros x Hx. now apply Hrange. }
  assert (HN : 0 < IZR (c bins - c 0%nat)).
  { apply IZR_lt. rewrite Hc0, Hcn. destruct X; [easy | simpl length; lia]. }
  assert (Hw : forall i, (i < bins)%nat -> 0 < e (S i) - e i).
  { intros i Hi. pose proof (@edge_step_strict lo hi bins i Hlt Hi). fold e in H. lra. }
  assert (Hn : forall i, (i < bins)%nat -> 0 <= IZR (c (S i) - c i)).
  { intros i Hi. apply IZR_le.
    pose proof (@cum_count_step X e bins i Hi) as Hs. fold c in Hs.
    specialize (Hw i Hi). assert (e i <= e (S i)) by lra. specialize (Hs H). lia. }
  set (r := fun i => IZR (c (S i) - c i) / (e (S i) - e i) / IZR (c bins - c 0%nat)).
  exists (map r (seq 0 bins)).
  split; [|split].
  - rewrite histogram_density_map_seq.
    + f_equal. rewrite map_map. apply map_ext_in. intros i Hi. apply in_seq in Hi.
      unfold bin_density. fold c. fold e. unfold r.
      assert (Hwi : 0 < e (S i) - e i) by (apply Hw; lia).
      unfold fdiv.
      replace (Reqb (e (S i) - e i) 0) with false
        by (symmetry; apply Reqb_false; lra).
      replace (Reqb (IZR (c bins - c 0%nat)) 0) with false
        by (symmetry; apply Reqb_false; lra).
      reflexivity.
    + fold e. apply monotoneb_map_seq. intros i _ Hi.
      assert (Hwi : 0 < e (S i) - e i) by (apply Hw; lia). lra.
  - apply Forall_forall. intros x Hx. apply in_map_iff in Hx.
    destruct Hx as (i & <- & Hi). apply in_seq in Hi. unfold r.
    assert (Hwi : 0 < e (S i) - e i) by (apply Hw; lia).
    assert (Hni : 0 <= IZR (c (S i) - c i)) by (apply Hn; lia).
    apply Rmult_le_pos; [apply Rmult_le_pos|]; try exact Hni;
      left; now apply Rinv_0_lt_compat.
  - apply Rsum_pos.
    + apply Forall_forall. intros x Hx. apply in_map_iff in Hx.
      destruct Hx as (i & <- & Hi). apply in_seq in Hi. unfold r.
      assert (Hwi : 0 < e (S i) - e i) by (apply Hw; lia).
      assert (Hni : 0 <= IZR (c (S i) - c i)) by (apply Hn; lia).
      apply Rmult_le_pos; [apply Rmult_le_pos|]; try exact Hni;
        left; now apply Rinv_0_lt_compat.
    + destruct (@positive_term (fun i => (c (S i) - c i)%Z) 0 bins)
        as (i & Hi & Hpos).
      { rewrite telescope. simpl. apply lt_IZR. exact HN. }
      exists (r i). split; [apply in_map; exact Hi|].
      apply in_seq in Hi. unfold r.
      assert (Hwi : 0 < e (S i) - e i) by (apply Hw; lia).
      apply Rmult_lt_0_compat; [apply Rmult_lt_0_compat|];
        try (now apply Rinv_0_lt_compat).
      now apply IZR_lt.
Qed.






(* ================================================================== *)
(** * The operation the interface imports *)

(** C3.  [interface.py] imports [quantify_perturbations] from the core
    module, and the core module binds no such name: the import raises
    [ImportError], so no pair is ever returned for either method. *)
Theorem quantify_is_not_defined :
  interface_import = Raise ImportError /\
  ~ In "quantify_perturbations"%string core_namespace.
Proof.
  split; [reflexivity|].
  intros Hin. simpl in Hin.
  repeat (destruct Hin as [Hin | Hin]; [discriminate Hin|]).
  exact Hin.
Qed.

(* ================================================================== *)
(** * The test does not modify its arguments *)

(* ------------------------------------------------------------------ *)
(** ** Stores that only grow *)

Lemma extends_refl {G : Type} (st : state G) : extends st st.
Proof. exists []. now rewrite app_nil_r. Qed.

Lemma extends_trans {G : Type} (st1 st2 st3 : state G) :
  extends st1 st2 -> extends st2 st3 -> extends st1 st3.
Proof.
  intros (e1 & H1) (e2 & H2). exists (e1 ++ e2).
  now rewrite H2, H1, app_assoc.
Qed.

Lemma extends_lookup {G : Type} (st st' : state G) (l : loc) (a : ndarray) :
  extends st st' -> nth_error (store st) l = Some a ->
  nth_error (store st') l = Some a.
Proof.
  intros (ext & ->) Hl. rewrite nth_error_app1; [exact Hl|].
  apply nth_error_Some. now rewrite Hl.
Qed.

Lemma extends_old {G : Type} (st st' : state G) (l : loc) :
  extends st st' -> (l < length (store st))%nat ->
  nth_error (store st') l = nth_error (store st) l.
Proof. intros (ext & ->) Hl. now apply nth_error_app1. Qed.

Lemma nth_error_snoc {A : Type} (l : list A) (a : A) :
  nth_error (l ++ [a]) (length l) = Some a.
Proof. rewrite nth_error_app2 by lia. now rewrite Nat.sub_diag. Qed.

Lemma extends_alloc {G : Type} (st : state G) (a : ndarray) :
  extends st {| rng := rng st; store := store st ++ [a] |}.
Proof. now exists [a]. Qed.

(* ------------------------------------------------------------------ *)
(** ** Rules for [sim] *)

Lemma sim_intro {G A B : Type} (rel : state G -> A -> B -> Prop)
  (m : HM G A) (st st' : state G) (out : result A) (r : result B) (g' : G) :
  m st = (out, st') ->
  extends st st' ->
  rng st' = g' ->
  match r with
  | Ok b => exists a, out = Ok a /\ rel st' a b
  | Raise e => out = Raise e
  end ->
  sim rel m st r g'.
Proof. intros Hm Hext Hrng Hres. unfold sim. rewrite Hm. simpl. auto. Qed.

Lemma sim_bind {G A B A' B' : Type}
  (rel1 : state G -> A -> A' -> Prop) (rel2 : state G -> B -> B' -> Prop)
  (m : HM G A) (k : A -> HM G B) (st : state G)
  (r1 : result A') (g1 : G) (r2 : result B') (g2 : G) :
  sim rel1 m st r1 g1 ->
  (forall e, r1 = Raise e -> r2 = Raise e /\ g2 = g1) ->
  (forall a' st1 a, r1 = Ok a' -> extends st st1 -> rng st1 = g1 ->
                    rel1 st1 a a' -> sim rel2 (k a) st1 r2 g2) ->
  sim rel2 (hbind m k) st r2 g2.
Proof.
  unfold sim, hbind. intros (Hext & Hrng & Hres) Herr Hok.
  destruct (m st) as [ra st1] eqn:Em. simpl in *.
  destruct r1 as [a'|e].
  - destruct Hres as (a & -> & Hrel).
    destruct (Hok a' st1 a eq_refl Hext Hrng Hrel) as (Hext2 & Hrng2 & Hres2).
    split; [eapply extends_trans; eauto|]. split; assumption.
  - subst ra. destruct (Herr e eq_refl) as [-> ->]. simpl. auto.
Qed.

Lemma load2_run {G : Type} (st : state G) (l : loc) (v : matrix) :
  at2 st l v -> load2 l st = (Ok v, st).
Proof. unfold at2, load2. now intros ->. Qed.

Lemma load1_run {G : Type} (st : state G) (l : loc) (v : list R) :
  at1 st l v -> load1 l st = (Ok v, st).
Proof. unfold at1, load1. now intros ->. Qed.

Lemma loadF_run {G : Type} (st : state G) (l : loc) (v : list f64) :
  atF st l v -> loadF l st = (Ok v, st).
Proof. unfold atF, loadF. now intros ->. Qed.

Lemma loadI_run {G : Type} (st : state G) (l : loc) (v : list nat) :
  atI st l v -> loadI l st = (Ok v, st).
Proof. unfold atI, loadI. now intros ->. Qed.

Lemma at2_extends {G : Type} (st st' : state G) (l : loc) (v : matrix) :
  extends st st' -> at2 st l v -> at2 st' l v.
Proof. unfold at2. apply extends_lookup. Qed.

Lemma at1_extends {G : Type} (st st' : state G) (l : loc) (v : list R) :
  extends st st' -> at1 st l v -> at1 st' l v.
Proof. unfold at1. apply extends_lookup. Qed.

(** A call that reads its arguments, computes a value or raises, and
    allocates the result. *)
Lemma sim_compute_alloc {G B : Type} (rel : state G -> loc -> B -> Prop)
  (wrap : B -> ndarray) (m : HM G loc) (st : state G) (r : result B) :
  (forall st' l b, nth_error (store st') l = Some (wrap b) -> rel st' l b) ->
  m st = (match r with
          | Ok b => (Ok (length (store st)),
                     {| rng := rng st; store := store st ++ [wrap b] |})
          | Raise e => (Raise e, st)
          end) ->
  sim rel m st r (rng st).
Proof.
  intros Hrel Hm. destruct r as [b|e].
  - eapply sim_intro; [exact Hm | apply extends_alloc | reflexivity |].
    eexists. split; [reflexivity|]. apply Hrel. simpl. apply nth_error_snoc.
  - eapply sim_intro; [exact Hm | apply extends_refl | reflexivity | reflexivity].
Qed.

Lemma sim_compute {G B : Type} (m : HM G B) (st : state G) (r : result B) :
  m st = (r, st) -> sim (@same G B) m st r (rng st).
Proof.
  intros Hm. eapply sim_intro; [exact Hm | apply extends_refl | reflexivity |].
  destruct r; [eexists; split; reflexivity | reflexivity].
Qed.

(* ------------------------------------------------------------------ *)
(** ** The library calls *)

Lemma sim_cosine_similarity_intra {G : Type} (st : state G) (X : loc) (x : matrix) :
  at2 st X x ->
  sim (@at2 G) (Heap.cosine_similarity X None) st (cosine_similarity x None) (rng st).
Proof.
  intros HX. apply sim_compute_alloc with (wrap := Arr2); [auto|].
  unfold Heap.cosine_similarity, hbind, load2_opt, hret, hlift.
  rewrite (load2_run HX).
  destruct (cosine_similarity x None); reflexivity.
Qed.

Lemma sim_cosine_similarity_inter {G : Type} (st : state G)
  (X Y : loc) (x y : matrix) :
  at2 st X x -> at2 st Y y ->
  sim (@at2 G) (Heap.cosine_similarity X (Some Y)) st
      (cosine_similarity x (Some y)) (rng st).
Proof.
  intros HX HY. apply sim_compute_alloc with (wrap := Arr2); [auto|].
  unfold Heap.cosine_similarity, hbind, load2_opt, hret, hlift.
  rewrite (load2_run HX). unfold hbind. rewrite (load2_run HY).
  destruct (cosine_similarity x (Some y)); reflexivity.
Qed.

Lemma sim_triu_indices_from {G : Type} (st : state G) (arr : loc) (a : matrix) (k : nat) :
  at2 st arr a ->
  sim (@atII G) (Heap.triu_indices_from arr k) st (Ok (triu_indices_from a k)) (rng st).
Proof.
  intros Ha. eapply sim_intro.
  - unfold Heap.triu_indices_from, hbind. rewrite (load2_run Ha).
    unfold alloc, hret. simpl. reflexivity.
  - exists [ArrI (map fst (triu_indices_from a k));
            ArrI (map snd (triu_indices_from a k))].
    simpl. now rewrite <- app_assoc.
  - reflexivity.
  - eexists. split; [reflexivity|]. unfold atII, atI. simpl. split.
    + rewrite nth_error_app1 by (rewrite length_app; simpl; lia).
      apply nth_error_snoc.
    + rewrite length_app. simpl. replace (length (store st) + 1)%nat
        with (length (store st ++ [ArrI (map fst (triu_indices_from a k))]))
        by (rewrite length_app; reflexivity).
      apply nth_error_snoc.
Qed.

Lemma combine_fst_snd {A B : Type} (l : list (A * B)) :
  combine (map fst l) (map snd l) = l.
Proof.
  induction l as [|[a b] l IH]; simpl; [reflexivity | now rewrite IH].
Qed.

Lemma sim_take_positions {G : Type} (st : state G)
  (arr : loc) (idx : loc * loc) (a : matrix) (pos : list (nat * nat)) :
  at2 st arr a -> atII st idx pos ->
  sim (@at1 G) (Heap.take_positions arr idx) st (take_positions a pos) (rng st).
Proof.
  intros Ha (Hr & Hc). apply sim_compute_alloc with (wrap := Arr1); [auto|].
  unfold Heap.take_positions, hbind, hlift.
  rewrite (load2_run Ha), (loadI_run Hr), (loadI_run Hc), combine_fst_snd.
  destruct (take_positions a pos); reflexivity.
Qed.

Lemma sim_flatten {G : Type} (st : state G) (arr : loc) (a : matrix) :
  at2 st arr a ->
  sim (@at1 G) (Heap.flatten arr) st (Ok (flatten a)) (rng st).
Proof.
  intros Ha. apply sim_compute_alloc with (wrap := Arr1); [auto|].
  unfold Heap.flatten, hbind. now rewrite (load2_run Ha).
Qed.

Lemma sim_ndarray_min {G : Type} (st : state G) (arr : loc) (a : list R) :
  at1 st arr a ->
  sim (@same G R) (Heap.ndarray_min arr) st (ndarray_min a) (rng st).
Proof.
  intros Ha. apply sim_compute.
  unfold Heap.ndarray_min, hbind, hlift. now rewrite (load1_run Ha).
Qed.

Lemma sim_ndarray_max {G : Type} (st : state G) (arr : loc) (a : list R) :
  at1 st arr a ->
  sim (@same G R) (Heap.ndarray_max arr) st (ndarray_max a) (rng st).
Proof.
  intros Ha. apply sim_compute.
  unfold Heap.ndarray_max, hbind, hlift. now rewrite (load1_run Ha).
Qed.

Lemma sim_linspace {G : Type} (st : state G) (start stop : R) (num : nat) :
  sim (@at1 G) (Heap.linspace start stop num) st
      (Ok (linspace start stop num)) (rng st).
Proof. apply sim_compute_alloc with (wrap := Arr1); [auto | reflexivity]. Qed.

Lemma sim_histogram_density {G : Type} (st : state G)
  (a edges : loc) (x e : list R) :
  at1 st a x -> at1 st edges e ->
  sim (@atF G) (Heap.histogram_density a edges) st (histogram_density x e) (rng st).
Proof.
  intros Ha He. apply sim_compute_alloc with (wrap := ArrF); [auto|].
  unfold Heap.histogram_density, hbind, hlift.
  rewrite (load1_run Ha), (load1_run He).
  destruct (histogram_density x e); reflexivity.
Qed.

Lemma sim_jensenshannon {G : Type} (st : state G) (p q : loc) (x y : list f64) :
  atF st p x -> atF st q y ->
  sim (@same G f64) (Heap.jensenshannon p q) st (Ok (jensenshannon x y)) (rng st).
Proof.
  intros Hp Hq. apply sim_compute.
  unfold Heap.jensenshannon, hbind, hret.
  now rewrite (loadF_run Hp), (loadF_run Hq).
Qed.

Lemma sim_vstack {G : Type} (st : state G) (X Y : loc) (x y : matrix) :
  at2 st X x -> at2 st Y y ->
  sim (@at2 G) (Heap.vstack X Y) st (vstack x y) (rng st).
Proof.
  intros HX HY. apply sim_compute_alloc with (wrap := Arr2); [auto|].
  unfold Heap.vstack, hbind, hlift.
  rewrite (load2_run HX), (load2_run HY).
  destruct (vstack x y); reflexivity.
Qed.

Lemma sim_len {G : Type} (st : state G) (X : loc) (x : matrix) :
  at2 st X x -> sim (@same G nat) (Heap.len X) st (Ok (length x)) (rng st).
Proof.
  intros HX. apply sim_compute.
  unfold Heap.len, hbind, hret. now rewrite (load2_run HX).
Qed.

Lemma sim_np_random_permutation {G : Type} `{RandomSource G} (st : state G) (n : nat) :
  sim (@atI G) (Heap.np_random_permutation n) st
      (Ok (fst (random_permutation n (rng st))))
      (snd (random_permutation n (rng st))).
Proof.
  eapply sim_intro.
  - reflexivity.
  - simpl. now exists [ArrI (fst (random_permutation n (rng st)))].
  - reflexivity.
  - eexists. split; [reflexivity|]. unfold atI. simpl. apply nth_error_snoc.
Qed.

Lemma sim_slice_to {G : Type} (st : state G) (idx : loc) (i : list nat) (k : nat) :
  atI st idx i ->
  sim (@atI G) (Heap.slice_to idx k) st (Ok (firstn k i)) (rng st).
Proof.
  intros Hi. apply sim_compute_alloc with (wrap := ArrI); [auto|].
  unfold Heap.slice_to, hbind. now rewrite (loadI_run Hi).
Qed.

Lemma sim_slice_from {G : Type} (st : state G) (idx : loc) (i : list nat) (k : nat) :
  atI st idx i ->
  sim (@atI G) (Heap.slice_from idx k) st (Ok (skipn k i)) (rng st).
Proof.
  intros Hi. apply sim_compute_alloc with (wrap := ArrI); [auto|].
  unfold Heap.slice_from, hbind. now rewrite (loadI_run Hi).
Qed.

Lemma sim_take_rows {G : Type} (st : state G) (X idx : loc) (x : matrix) (i : list nat) :
  at2 st X x -> atI st idx i ->
  sim (@at2 G) (Heap.take_rows X idx) st (take_rows x i) (rng st).
Proof.
  intros HX Hi. apply sim_compute_alloc with (wrap := Arr2); [auto|].
  unfold Heap.take_rows, hbind, hlift.
  rewrite (load2_run HX), (loadI_run Hi).
  destruct (take_rows x i); reflexivity.
Qed.

(* ------------------------------------------------------------------ *)
(** ** The functions of the core *)

Lemma atF_extends {G : Type} (st st' : state G) (l : loc) (v : list f64) :
  extends st st' -> atF st l v -> atF st' l v.
Proof. unfold atF. apply extends_lookup. Qed.

Lemma atI_extends {G : Type} (st st' : state G) (l : loc) (v : list nat) :
  extends st st' -> atI st l v -> atI st' l v.
Proof. unfold atI. apply extends_lookup. Qed.

(** Move what is known about the store to the current state. *)
Ltac advance :=
  repeat match goal with
  | H : at2 ?s _ _, E : extends ?s _ |- _ => apply (at2_extends E) in H
  | H : at1 ?s _ _, E : extends ?s _ |- _ => apply (at1_extends E) in H
  | H : atF ?s _ _, E : extends ?s _ |- _ => apply (atF_extends E) in H
  | H : atI ?s _ _, E : extends ?s _ |- _ => apply (atI_extends E) in H
  | H : same _ _ _ |- _ => unfold same in H; subst
  | H : rng ?s = _, H' : context [rng ?s] |- _ =>
      lazymatch H' with
      | H => fail
      | _ => rewrite H in H'
      end
  end.

(** One call whose outcome on values is [Ok]. *)
Ltac sim_ok L :=
  eapply sim_bind;
  [ eapply L; eauto
  | intros ? Habs; discriminate Habs
  | let Heq := fresh "Heq" in
    let Hext := fresh "Hext" in
    let Hrng := fresh "Hrng" in
    let Hrel := fresh "Hrel" in
    intros ? ? ? Heq Hext Hrng Hrel; inversion Heq; subst; clear Heq; advance ].

(** One call that may raise. *)
Ltac sim_call L :=
  eapply sim_bind;
  [ eapply L; eauto
  | let Herr := fresh "Herr" in
    intros ? Herr; rewrite Herr; cbn [rbind fst snd]; split; [reflexivity | congruence]
  | let Heq := fresh "Heq" in
    let Hext := fresh "Hext" in
    let Hrng := fresh "Hrng" in
    let Hrel := fresh "Hrel" in
    intros ? ? ? Heq Hext Hrng Hrel; rewrite Heq; cbn [rbind fst snd]; advance ].

(** The last call of a sequence. *)
Ltac sim_last L :=
  match goal with
  | |- sim _ _ ?s _ ?g => replace g with (rng s) by congruence
  end;
  eapply L; eauto.

Lemma sim_calculate_cosine_similarities_intra {G : Type} (st : state G)
  (embeddings1 : loc) (x : matrix) :
  at2 st embeddings1 x ->
  sim (@at1 G) (Heap.calculate_cosine_similarities embeddings1 None) st
      (calculate_cosine_similarities x None) (rng st).
Proof.
  intros HX. unfold Heap.calculate_cosine_similarities, calculate_cosine_similarities.
  sim_call (@sim_cosine_similarity_intra G).
  sim_ok (@sim_triu_indices_from G).
  sim_last (@sim_take_positions G).
Qed.

Lemma sim_calculate_cosine_similarities_inter {G : Type} (st : state G)
  (embeddings1 embeddings2 : loc) (x y : matrix) :
  at2 st embeddings1 x -> at2 st embeddings2 y ->
  sim (@at1 G)
      (Heap.calculate_cosine_similarities embeddings1 (Some embeddings2)) st
      (calculate_cosine_similarities x (Some y)) (rng st).
Proof.
  intros HX HY.
  unfold Heap.calculate_cosine_similarities, calculate_cosine_similarities.
  sim_call (@sim_cosine_similarity_inter G).
  sim_last (@sim_flatten G).
Qed.

Lemma sim_calculate_jsd {G : Type} (st : state G) (bins : nat)
  (scores1 scores2 : loc) (x y : list R) :
  at1 st scores1 x -> at1 st scores2 y ->
  sim (@same G f64) (Heap._calculate_jsd bins scores1 scores2) st
      (_calculate_jsd bins x y) (rng st).
Proof.
  intros HX HY. unfold Heap._calculate_jsd, _calculate_jsd, bin_edges_of.
  sim_call (@sim_ndarray_min G).
  sim_call (@sim_ndarray_min G).
  sim_call (@sim_ndarray_max G).
  sim_call (@sim_ndarray_max G).
  sim_ok (@sim_linspace G).
  sim_call (@sim_histogram_density G).
  sim_call (@sim_histogram_density G).
  sim_last (@sim_jensenshannon G).
Qed.

Lemma sim_hret {G A : Type} (st : state G) (a : A) :
  sim (@same G A) (hret a) st (Ok a) (rng st).
Proof. now apply sim_compute. Qed.

Lemma sim_hlift {G A : Type} (st : state G) (r : result A) :
  sim (@same G A) (hlift r) st r (rng st).
Proof. now apply sim_compute. Qed.

Lemma sim_permutation_iteration {G : Type} `{RandomSource G} (st : state G)
  (combined : loc) (pool : matrix) (k bins : nat) (observed : f64) (count : Z) :
  at2 st combined pool ->
  sim (@same G Z)
      (Heap.permutation_iteration combined k bins observed count) st
      (fst (permutation_iteration pool k bins observed count (rng st)))
      (snd (permutation_iteration pool k bins observed count (rng st))).
Proof.
  intros HC.
  unfold Heap.permutation_iteration.
  unfold permutation_iteration, bind, lift, ret, np_random_permutation.
  cbn [fst snd].
  sim_ok (@sim_len G).
  sim_ok (@sim_np_random_permutation G).
  sim_ok (@sim_slice_to G).
  sim_call (@sim_take_rows G).
  sim_ok (@sim_slice_from G).
  sim_call (@sim_take_rows G).
  sim_call (@sim_calculate_cosine_similarities_intra G).
  sim_call (@sim_calculate_cosine_similarities_inter G).
  sim_call (@sim_calculate_jsd G).
  sim_last (@sim_hret G).
Qed.

Lemma sim_for_range {G : Type} `{RandomSource G} (n : nat) :
  forall (st : state G) (combined : loc) (pool : matrix) (k bins : nat)
         (observed : f64) (count : Z),
    at2 st combined pool ->
    sim (@same G Z)
        (Heap.for_range n (Heap.permutation_iteration combined k bins observed) count)
        st
        (fst (for_range n (permutation_iteration pool k bins observed) count (rng st)))
        (snd (for_range n (permutation_iteration pool k bins observed) count (rng st))).
Proof.
  induction n as [|n IH]; intros st combined pool k bins observed count HC.
  - simpl. apply sim_hret.
  - cbn [Heap.for_range for_range]. unfold bind.
    pose proof (sim_permutation_iteration k bins observed count HC) as Hstep.
    destruct (permutation_iteration pool k bins observed count (rng st))
      as [[c|e] g1] eqn:E; cbn [fst snd] in *.
    + eapply sim_bind; [exact Hstep | intros ? Habs; discriminate Habs |].
      intros a' st1 a Heq Hext Hrng Hrel. inversion Heq; subst a'. clear Heq.
      unfold same in Hrel. subst a. rewrite <- Hrng.
      apply IH. exact (at2_extends Hext HC).
    + eapply sim_bind; [exact Hstep | |].
      * intros e' He'. inversion He'; subst. auto.
      * intros a' st1 a Heq. discriminate Heq.
Qed.

(** The test over the store computes what the test on values computes,
    and only adds objects to the store. *)
Lemma sim_test {G : Type} `{RandomSource G} (st : state G)
  (embeddings1 embeddings2 : loc) (A B : matrix) (num_permutations : Z) (bins : nat) :
  at2 st embeddings1 A -> at2 st embeddings2 B ->
  sim (@same G (f64 * R))
      (Heap.jensen_shannon_divergence_and_pvalue
         embeddings1 embeddings2 num_permutations bins) st
      (fst (jensen_shannon_divergence_and_pvalue A B num_permutations bins (rng st)))
      (snd (jensen_shannon_divergence_and_pvalue A B num_permutations bins (rng st))).
Proof.
  intros HA HB.
  unfold Heap.jensen_shannon_divergence_and_pvalue.
  unfold jensen_shannon_divergence_and_pvalue, bind, lift, ret.
  cbn [fst snd].
  sim_call (@sim_calculate_cosine_similarities_intra G).
  sim_call (@sim_calculate_cosine_similarities_inter G).
  sim_call (@sim_calculate_jsd G).
  sim_call (@sim_vstack G).
  sim_ok (@sim_len G).
  match goal with
  | HC : at2 ?s ?c ?pool |- sim _ (hbind (Heap.for_range ?n (Heap.permutation_iteration ?c ?k ?b ?o) ?z) _) ?s _ _ =>
      pose proof (@sim_for_range G _ n s c pool k b o z HC) as Hloop
  end.
  match goal with
  | Hr : rng ?s = rng st |- sim _ _ ?s _ _ => rewrite Hr in Hloop
  end.
  destruct (for_range (Z.to_nat num_permutations) _ 0%Z (rng st))
    as [[count|e] g1] eqn:E; cbn [fst snd] in *.
  - eapply sim_bind; [exact Hloop | intros ? Habs; discriminate Habs |].
    intros cnt stL cntL HeqL HextL HrngL HrelL. inversion HeqL; subst cnt. clear HeqL.
    unfold same in HrelL. subst cntL.
    eapply sim_bind; [apply sim_hlift | |].
    + intros err Herr. rewrite Herr. cbn [fst snd]. split; [reflexivity | congruence].
    + intros p stP pP Hp HextP HrngP HrelP. rewrite Hp. cbn [fst snd].
      unfold same in HrelP. subst pP.
      replace g1 with (rng stP) by congruence. apply sim_hret.
  - eapply sim_bind; [exact Hloop | |].
    + intros err Herr. inversion Herr; subst. auto.
    + intros cnt stL cntL HeqL. discriminate HeqL.
Qed.

(** C10.  The permutation test leaves both argument arrays unchanged:
    when it finishes (with a result or with an error), the objects that
    [embeddings1] and [embeddings2] refer to hold the vectors they held
    before the call, as does every other object that existed before the
    call; and the call computes exactly what the test computes on the
    values of its arguments. *)
Theorem test_leaves_arguments_unchanged {G : Type} `{RandomSource G}
  (st : state G) (embeddings1 embeddings2 : loc) (A B : matrix)
  (num_permutations : Z) (bins : nat) :
  nth_error (store st) embeddings1 = Some (Arr2 A) ->
  nth_error (store st) embeddings2 = Some (Arr2 B) ->
  let out := Heap.jensen_shannon_divergence_and_pvalue
               embeddings1 embeddings2 num_permutations bins st in
  nth_error (store (snd out)) embeddings1 = Some (Arr2 A) /\
  nth_error (store (snd out)) embeddings2 = Some (Arr2 B) /\
  (forall l, (l < length (store st))%nat ->
             nth_error (store (snd out)) l = nth_error (store st) l) /\
  fst out
  = fst (jensen_shannon_divergence_and_pvalue A B num_permutations bins (rng st)) /\
  rng (snd out)
  = snd (jensen_shannon_divergence_and_pvalue A B num_permutations bins (rng st)).
Proof.
  intros HA HB out.
  destruct (@sim_test G _ st embeddings1 embeddings2 A B num_permutations bins HA HB)
    as (Hext & Hrng & Hres).
  fold out in Hext, Hrng, Hres.
  split; [exact (@extends_lookup _ _ _ _ _ Hext HA)|].
  split; [exact (@extends_lookup _ _ _ _ _ Hext HB)|].
  split; [intros l Hl; now apply extends_old|].
  split; [|exact Hrng].
  destruct (fst (jensen_shannon_divergence_and_pvalue A B num_permutations bins (rng st)))
    as [b|e].
  - destruct Hres as (a & Ha & Hab). unfold same in Hab. now subst.
  - exact Hres.
Qed.

Lemma test_leaves_arguments_unchanged_witness :
  let st := {| rng := 0%nat;
               store := [Arr2 [[1; 0]; [0; 1]]; Arr2 [[1; 1]; [2; 1]]] |} in
  let out := Heap.jensen_shannon_divergence_and_pvalue 0%nat 1%nat 3 30 st in
  nth_error (store (snd out)) 0 = Some (Arr2 [[1; 0]; [0; 1]]) /\
  nth_error (store (snd out)) 1 = Some (Arr2 [[1; 1]; [2; 1]]) /\
  (forall l, (l < length (store st))%nat ->
             nth_error (store (snd out)) l = nth_error (store st) l) /\
  fst out
  = fst (jensen_shannon_divergence_and_pvalue
           [[1; 0]; [0; 1]] [[1; 1]; [2; 1]] 3 30 (rng st)) /\
  rng (snd out)
  = snd (jensen_shannon_divergence_and_pvalue
           [[1; 0]; [0; 1]] [[1; 1]; [2; 1]] 3 30 (rng st)).
Proof.
  intros st.
  apply (@test_leaves_arguments_unchanged nat CounterSource st 0%nat 1%nat
           [[1; 0]; [0; 1]] [[1; 1]; [2; 1]] 3%Z 30%nat); reflexivity.
Defined.

(* ================================================================== *)
(** * Further properties of the permutation test *)

(* ------------------------------------------------------------------ *)
(** ** Which errors the functions raise *)

Lemma check_array_inv (X X' : matrix) :
  check_array X = Ok X' ->
  X' = X /\ X <> [] /\ group_of_dim (ncols X) X /\ (1 <= ncols X)%nat.
Proof.
  unfold check_array. destruct X as [|row rows]; [discriminate|].
  destruct (rectangularb (row :: rows)) eqn:ER; [|discriminate]. simpl.
  destruct (Nat.eqb (length row) 0) eqn:E0; [discriminate|].
  intros E. inversion E; subst. split; [reflexivity|]. split; [discriminate|].
  apply Nat.eqb_neq in E0. split; [|unfold ncols; simpl; lia].
  unfold group_of_dim. apply Forall_forall. intros r Hr.
  unfold rectangularb in ER. rewrite forallb_forall in ER.
  apply Nat.eqb_eq. now apply ER.
Qed.

Lemma similarities_only_value_error (A : matrix) (B : option matrix) (e : exn) :
  calculate_cosine_similarities A B = Raise e -> e = ValueError.
Proof.
  destruct B as [B|].
  - unfold calculate_cosine_similarities, cosine_similarity, check_pairwise_arrays.
    destruct (check_array_cases A) as [-> | ->]; [|simpl; congruence]. simpl.
    destruct (check_array_cases B) as [-> | ->]; [|simpl; congruence]. simpl.
    destruct (Nat.eqb (ncols A) (ncols B)); simpl; congruence.
  - destruct (check_array A) as [A'|e'] eqn:EA.
    + apply check_array_inv in EA. destruct EA as (_ & NA & HA & Hd).
      rewrite (intra_similarities Hd HA NA). discriminate.
    + unfold calculate_cosine_similarities, cosine_similarity, check_pairwise_arrays.
      rewrite EA. simpl.
      destruct (check_array_cases A) as [E | E]; rewrite E in EA; congruence.
Qed.

Lemma calculate_jsd_only_value_error (bins : nat) (X Y : list R) (e : exn) :
  _calculate_jsd bins X Y = Raise e -> e = ValueError.
Proof.
  unfold _calculate_jsd, bin_edges_of.
  destruct X as [|x xs]; [simpl; congruence|].
  destruct Y as [|y ys]; [simpl; congruence|]. cbn [ndarray_min ndarray_max rbind].
  unfold histogram_density.
  destruct (monotoneb _); simpl; congruence.
Qed.

Lemma take_rows_of_permutation (pool : matrix) (perm : list nat) (k : nat) :
  Permutation perm (seq 0 (length pool)) ->
  take_rows pool (firstn k perm) = Ok (select pool (firstn k perm)) /\
  take_rows pool (skipn k perm) = Ok (select pool (skipn k perm)).
Proof.
  intros HP.
  assert (Hin : forall i, In i perm -> (i < length pool)%nat)
    by (apply perm_in_range; exact HP).
  split; apply take_rows_select; intros i Hi; apply Hin;
    rewrite <- (firstn_skipn k perm); apply in_or_app; auto.
Qed.

Lemma permutation_iteration_only_value_error {G : Type} `{RandomSourceOk G}
  (pool : matrix) (k bins : nat) (observed : f64) (count : Z) (g : G) (e : exn) :
  fst (permutation_iteration pool k bins observed count g) = Raise e ->
  e = ValueError.
Proof.
  pose proof (random_permutation_perm (length pool) g) as HP.
  destruct (take_rows_of_permutation pool k HP) as (T1 & T2).
  unfold permutation_iteration, bind, lift, ret, np_random_permutation.
  cbn [fst snd]. rewrite T1, T2.
  destruct (calculate_cosine_similarities _ None) as [p0|e0] eqn:E0.
  - destruct (calculate_cosine_similarities _ (Some _)) as [p1|e1] eqn:E1.
    + destruct (_calculate_jsd bins p0 p1) as [t|e2] eqn:E2; cbn [fst].
      * discriminate.
      * intros E. inversion E; subst. exact (calculate_jsd_only_value_error _ _ _ E2).
    + cbn [fst]. intros E. inversion E; subst.
      exact (similarities_only_value_error _ _ E1).
  - cbn [fst]. intros E. inversion E; subst.
    exact (similarities_only_value_error _ _ E0).
Qed.

Lemma for_range_only_value_error {G : Type} `{RandomSourceOk G}
  (pool : matrix) (k bins : nat) (observed : f64) (n : nat) :
  forall (count : Z) (g : G) (e : exn),
    fst (for_range n (permutation_iteration pool k bins observed) count g) = Raise e ->
    e = ValueError.
Proof.
  induction n as [|n IH]; intros count g e; simpl; [discriminate|].
  unfold bind.
  destruct (permutation_iteration pool k bins observed count g) as [[c|e'] g'] eqn:E.
  - apply IH.
  - cbn [fst]. intros E'. inversion E'; subst.
    apply (permutation_iteration_only_value_error pool k bins observed count g).
    now rewrite E.
Qed.

Lemma vstack_only_value_error (A B : matrix) (e : exn) :
  vstack A B = Raise e -> e = ValueError.
Proof.
  unfold vstack.
  destruct (rectangularb A && rectangularb B && Nat.eqb (ncols A) (ncols B));
    congruence.
Qed.

(** X1.  Whatever the arguments, when the permutation test raises, the
    error is a [ValueError], or it is the [ZeroDivisionError] of the
    final division and [num_permutations] is [-1]; indexing the pool by
    the drawn permutation never raises. *)
Theorem test_raises_only_value_or_zero_division {G : Type} `{RandomSourceOk G}
  (A B : matrix) (num_permutations : Z) (bins : nat) (g : G) (e : exn) :
  fst (jensen_shannon_divergence_and_pvalue A B num_permutations bins g) = Raise e ->
  e = ValueError \/ (e = ZeroDivisionError /\ num_permutations = (-1)%Z).
Proof.
  unfold jensen_shannon_divergence_and_pvalue, bind, lift, ret.
  destruct (calculate_cosine_similarities A None) as [p0|e0] eqn:E0; cbn [fst];
    [|intros E; inversion E; subst; left;
      exact (similarities_only_value_error _ _ E0)].
  destruct (calculate_cosine_similarities A (Some B)) as [p1|e1] eqn:E1; cbn [fst];
    [|intros E; inversion E; subst; left;
      exact (similarities_only_value_error _ _ E1)].
  destruct (_calculate_jsd bins p0 p1) as [t|e2] eqn:E2; cbn [fst];
    [|intros E; inversion E; subst; left;
      exact (calculate_jsd_only_value_error _ _ _ E2)].
  destruct (vstack A B) as [pool|e3] eqn:E3; cbn [fst];
    [|intros E; inversion E; subst; left; exact (vstack_only_value_error _ _ E3)].
  destruct (for_range (Z.to_nat num_permutations)
              (permutation_iteration pool (length A) bins t) 0%Z g)
    as [[count|e4] g'] eqn:E4; cbn [fst].
  - unfold py_truediv.
    destruct (Z.eqb_spec (num_permutations + 1) 0) as [Hz|Hz]; cbn [fst].
    + intros E. inversion E; subst. right. split; [reflexivity | lia].
    + discriminate.
  - intros E. inversion E; subst. left.
    apply (for_range_only_value_error pool (length A) bins t
             (Z.to_nat num_permutations) 0%Z g).
    now rewrite E4.
Qed.

Lemma test_raises_only_value_or_zero_division_witness :
  fst (jensen_shannon_divergence_and_pvalue
         [[1; 2]; [3]] [[1; 2; 3]] 5 30 0%nat) = Raise ValueError /\
  (ValueError = ValueError \/ (ValueError = ZeroDivisionError /\ 5%Z = (-1)%Z)).
Proof.
  assert (E : fst (jensen_shannon_divergence_and_pvalue
                     [[1; 2]; [3]] [[1; 2; 3]] 5 30 0%nat) = Raise ValueError)
    by reflexivity.
  split; [exact E|].
  exact (@test_raises_only_value_or_zero_division nat CounterSource CounterSourceOk
           [[1; 2]; [3]] [[1; 2; 3]] 5%Z 30%nat 0%nat ValueError E).
Defined.

(* ------------------------------------------------------------------ *)
(** ** Arguments the test does not accept *)

(** X2.  An empty first group or disagreeing dimensions make the whole
    test raise [ValueError]; nothing is drawn from the generator and no
    partial result is returned. *)
Theorem test_rejects_malformed_groups {G : Type} `{RandomSource G}
  (A B : matrix) (num_permutations : Z) (bins : nat) (g : G) :
  A = [] \/ dimension_mismatch A (Some B) ->
  jensen_shannon_divergence_and_pvalue A B num_permutations bins g
  = (Raise ValueError, g).
Proof.
  intros Hbad.
  pose proof (similarities_raise (B := Some B) Hbad) as E1.
  unfold jensen_shannon_divergence_and_pvalue, bind, lift, ret.
  destruct (calculate_cosine_similarities A None) as [p0|e0] eqn:E0.
  - now rewrite E1.
  - now rewrite (similarities_only_value_error _ _ E0).
Qed.

Lemma test_rejects_malformed_groups_witness :
  jensen_shannon_divergence_and_pvalue
    [[1; 0]; [0; 1]] [[1; 0; 0]; [0; 1; 0]] 1000 30 7%nat
  = (Raise ValueError, 7%nat).
Proof.
  apply (@test_rejects_malformed_groups nat CounterSource
           [[1; 0]; [0; 1]] [[1; 0; 0]; [0; 1; 0]] 1000%Z 30%nat 7%nat).
  right. right. right. unfold ncols. simpl. lia.
Defined.

(** X3.  A first group of exactly one vector makes the test raise
    [ValueError], whatever the second group is: the intra-group
    similarities are empty and their minimum is undefined.  Nothing is
    drawn from the generator. *)
Theorem test_rejects_single_vector_group {G : Type} `{RandomSource G}
  (x : vector) (B : matrix) (num_permutations : Z) (bins : nat) (g : G) :
  jensen_shannon_divergence_and_pvalue [x] B num_permutations bins g
  = (Raise ValueError, g).
Proof.
  unfold jensen_shannon_divergence_and_pvalue, bind, lift, ret.
  destruct (calculate_cosine_similarities [x] None) as [p0|e0] eqn:E0.
  - assert (Hp0 : p0 = []).
    { destruct x as [|a x'].
      - discriminate E0.
      - rewrite single_vector_similarities in E0 by discriminate. congruence. }
    subst p0.
    destruct (calculate_cosine_similarities [x] (Some B)) as [p1|e1] eqn:E1.
    + reflexivity.
    + now rewrite (similarities_only_value_error _ _ E1).
  - now rewrite (similarities_only_value_error _ _ E0).
Qed.

(* ------------------------------------------------------------------ *)
(** ** Negative numbers of permutations *)

(** X4.  The number of permutations is not validated.  For well-formed
    groups and a negative [num_permutations] the loop body never runs
    and the generator is untouched; the observed statistic is computed,
    and then [-1] makes the final division raise [ZeroDivisionError],
    while any smaller number yields the negative "p-value"
    [1 / (num_permutations + 1)]. *)
Theorem negative_num_permutations {G : Type} `{RandomSource G}
  (d bins : nat) (A B : matrix) (num_permutations : Z) (g : G) :
  (1 <= d)%nat -> group_of_dim d A -> group_of_dim d B ->
  (2 <= length A)%nat -> (1 <= length B)%nat ->
  (num_permutations < 0)%Z ->
  exists observed,
    statistic bins A B = Ok observed /\
    jensen_shannon_divergence_and_pvalue A B num_permutations bins g
    = (if (num_permutations =? -1)%Z then Raise ZeroDivisionError
       else Ok (observed, 1 / IZR (num_permutations + 1)), g) /\
    ((num_permutations < -1)%Z -> 1 / IZR (num_permutations + 1) < 0).
Proof.
  intros Hd HA HB LA LB Hn.
  assert (NA : A <> []) by (apply (@length_ge_nonempty _ A 2); lia).
  assert (NB : B <> []) by (apply (@length_ge_nonempty _ B 1); lia).
  destruct (statistic_total bins Hd HA HB LA LB) as (observed & Hj & Hs).
  exists observed. split; [exact Hs|]. split.
  - unfold jensen_shannon_divergence_and_pvalue, bind, lift, ret.
    rewrite (intra_similarities Hd HA NA), (inter_similarities Hd HA HB NA NB).
    rewrite Hj, (vstack_ok HA HB NA NB).
    replace (Z.to_nat num_permutations) with 0%nat by lia.
    cbn [for_range ret]. unfold py_truediv.
    destruct (Z.eqb_spec num_permutations (-1)) as [E|E].
    + subst. reflexivity.
    + replace (num_permutations + 1 =? 0)%Z with false
        by (symmetry; apply Z.eqb_neq; lia).
      reflexivity.
  - intros Hlt.
    assert (Hneg : IZR (num_permutations + 1) < 0) by (apply IZR_lt; lia).
    unfold Rdiv. rewrite Rmult_1_l. now apply Rinv_lt_0_compat.
Qed.

Lemma negative_num_permutations_witness :
  exists observed,
    statistic 30 [[1; 0]; [0; 1]] [[1; 1]] = Ok observed /\
    jensen_shannon_divergence_and_pvalue [[1; 0]; [0; 1]] [[1; 1]] (-3) 30 4%nat
    = (if (-3 =? -1)%Z then Raise ZeroDivisionError
       else Ok (observed, 1 / IZR (-3 + 1)), 4%nat) /\
    ((-3 < -1)%Z -> 1 / IZR (-3 + 1) < 0).
Proof.
  apply (@negative_num_permutations nat CounterSource 2 30
           [[1; 0]; [0; 1]] [[1; 1]] (-3)%Z 4%nat).
  - lia.
  - repeat constructor.
  - repeat constructor.
  - simpl; lia.
  - simpl; lia.
  - lia.
Defined.

(* ------------------------------------------------------------------ *)
(** ** The values the p-value can take *)

Lemma fgeb_nan (t : f64) : fgeb t NaN = false.
Proof. destruct t; reflexivity. Qed.

Lemma exceed_count_nan (bins : nat) (pool : matrix) (k : nat) (perms : list (list nat)) :
  exceed_count bins pool k NaN perms = 0%Z.
Proof.
  unfold exceed_count. generalize 0%Z as c.
  induction perms as [|perm perms IH]; intros c; simpl; [reflexivity|].
  replace (count_step bins pool k NaN c perm) with c; [apply IH|].
  unfold count_step. destruct (statistic bins _ _) as [t|e]; [|reflexivity].
  now rewrite fgeb_nan.
Qed.

(** X5.  When the observed statistic is [nan] (the similarities have no
    spread), no permuted statistic is counted as at least as large, so
    the test returns the smallest p-value there is,
    [1 / (num_permutations + 1)]. *)
Theorem nan_statistic_gives_smallest_pvalue {G : Type} `{RandomSourceOk G}
  (d bins : nat) (A B : matrix) (num_permutations : Z) (g : G) :
  (1 <= d)%nat -> group_of_dim d A -> group_of_dim d B ->
  (2 <= length A)%nat -> (1 <= length B)%nat ->
  (0 <= num_permutations)%Z ->
  statistic bins A B = Ok NaN ->
  fst (jensen_shannon_divergence_and_pvalue A B num_permutations bins g)
  = Ok (NaN, 1 / IZR (num_permutations + 1)).
Proof.
  intros Hd HA HB LA LB Hn Hnan.
  destruct (test_run bins g Hd HA HB LA LB Hn) as (observed & Hs & Hrun).
  assert (observed = NaN) by congruence. subst observed.
  rewrite Hrun. cbn [fst]. now rewrite exceed_count_nan.
Qed.

Lemma coinciding_vectors_statistic :
  statistic 30 [[1; 0]; [1; 0]] [[1; 0]] = Ok NaN.
Proof.
  set (A := [[1; 0]; [1; 0]]). set (B := [[1; 0]]).
  assert (HA : group_of_dim 2 A) by (repeat constructor).
  assert (HB : group_of_dim 2 B) by (repeat constructor).
  unfold statistic.
  rewrite (@intra_similarities 2 A) by (try lia; try exact HA; discriminate).
  rewrite (@inter_similarities 2 A B)
    by (try lia; try exact HA; try exact HB; discriminate).
  cbn [rbind]. apply (@calculate_jsd_degenerate 30 1).
  - lia.
  - discriminate.
  - discriminate.
  - unfold upper_triangle, A. simpl. rewrite cosine_of_unit_vector.
    repeat constructor.
  - unfold all_pairs, A, B. simpl. rewrite cosine_of_unit_vector.
    repeat constructor.
Qed.

Lemma nan_statistic_gives_smallest_pvalue_witness :
  fst (jensen_shannon_divergence_and_pvalue [[1; 0]; [1; 0]] [[1; 0]] 999 30 0%nat)
  = Ok (NaN, 1 / IZR (999 + 1)).
Proof.
  apply (@nan_statistic_gives_smallest_pvalue nat CounterSource CounterSourceOk 2 30
           [[1; 0]; [1; 0]] [[1; 0]] 999%Z 0%nat).
  - lia.
  - repeat constructor.
  - repeat constructor.
  - simpl; lia.
  - simpl; lia.
  - lia.
  - exact coinciding_vectors_statistic.
Defined.

(** X6.  For well-formed groups and [num_permutations >= 0] the test
    returns the statistic of the two groups and the p-value
    [(count + 1) / (num_permutations + 1)], where [count] is the number
    of drawn permutations whose split reached the observed statistic:
    the p-value is never below [1 / (num_permutations + 1)], it equals
    that bound exactly when no split reached the observed statistic, and
    it equals 1 exactly when every one did. *)
Theorem pvalue_resolution {G : Type} `{RandomSourceOk G}
  (d bins : nat) (A B : matrix) (num_permutations : Z) (g : G) :
  (1 <= d)%nat -> group_of_dim d A -> group_of_dim d B ->
  (2 <= length A)%nat -> (1 <= length B)%nat ->
  (0 <= num_permutations)%Z ->
  exists observed count,
    statistic bins A B = Ok observed /\
    count = Z.of_nat
              (length (filter (counted bins (A ++ B) (length A) observed)
                         (draws (Z.to_nat num_permutations)
                            (length (A ++ B)) g))) /\
    jensen_shannon_divergence_and_pvalue A B num_permutations bins g
    = (Ok (observed, IZR (count + 1) / IZR (num_permutations + 1)),
       after_draws (Z.to_nat num_permutations) (length (A ++ B)) g) /\
    1 / IZR (num_permutations + 1)
    <= IZR (count + 1) / IZR (num_permutations + 1) /\
    (IZR (count + 1) / IZR (num_permutations + 1)
     = 1 / IZR (num_permutations + 1) <-> count = 0%Z) /\
    (IZR (count + 1) / IZR (num_permutations + 1) = 1
     <-> count = num_permutations).
Proof.
  intros Hd HA HB LA LB Hn.
  destruct (test_run bins g Hd HA HB LA LB Hn) as (observed & Hs & Hrun).
  pose proof (exceed_count_bounds bins (A ++ B) (length A) observed
                (Z.to_nat num_permutations) (length (A ++ B)) g) as Hc.
  rewrite exceed_count_counted in Hrun, Hc.
  set (count := Z.of_nat
                  (length (filter (counted bins (A ++ B) (length A) observed)
                             (draws (Z.to_nat num_permutations)
                                (length (A ++ B)) g)))) in *.
  rewrite Z2Nat.id in Hc by exact Hn.
  exists observed, count.
  split; [exact Hs|]. split; [reflexivity|]. split; [exact Hrun|].
  assert (Hpos : 0 < IZR (num_permutations + 1)) by (apply IZR_lt; lia).
  assert (Hne : IZR (num_permutations + 1) <> 0) by lra.
  assert (Hcancel : forall a b : R,
             a / IZR (num_permutations + 1) = b / IZR (num_permutations + 1) -> a = b).
  { intros a b E.
    apply (Rmult_eq_reg_r (/ IZR (num_permutations + 1))); [exact E|].
    now apply Rinv_neq_0_compat. }
  split; [|split].
  - unfold Rdiv. apply Rmult_le_compat_r.
    + left. now apply Rinv_0_lt_compat.
    + apply IZR_le. lia.
  - split.
    + intros E. apply Hcancel in E. apply eq_IZR in E. lia.
    + intros ->. reflexivity.
  - split.
    + intros E.
      assert (E' : IZR (count + 1) / IZR (num_permutations + 1)
                   = IZR (num_permutations + 1) / IZR (num_permutations + 1))
        by (rewrite E; field; exact Hne).
      apply Hcancel in E'. apply eq_IZR in E'. lia.
    + intros ->. field. exact Hne.
Qed.

Lemma pvalue_resolution_witness :
  exists observed count,
    statistic 30 [[1; 0]; [0; 1]; [1; 1]] [[2; 1]] = Ok observed /\
    count = Z.of_nat
              (length (filter (counted 30 ([[1; 0]; [0; 1]; [1; 1]] ++ [[2; 1]])
                                 (length [[1; 0]; [0; 1]; [1; 1]]) observed)
                         (draws (Z.to_nat 4)
                            (length ([[1; 0]; [0; 1]; [1; 1]] ++ [[2; 1]]))
                            0%nat))) /\
    jensen_shannon_divergence_and_pvalue
      [[1; 0]; [0; 1]; [1; 1]] [[2; 1]] 4 30 0%nat
    = (Ok (observed, IZR (count + 1) / IZR (4 + 1)),
       after_draws (Z.to_nat 4)
         (length ([[1; 0]; [0; 1]; [1; 1]] ++ [[2; 1]])) 0%nat) /\
    1 / IZR (4 + 1) <= IZR (count + 1) / IZR (4 + 1) /\
    (IZR (count + 1) / IZR (4 + 1) = 1 / IZR (4 + 1) <-> count = 0%Z) /\
    (IZR (count + 1) / IZR (4 + 1) = 1 <-> count = 4%Z).
Proof.
  apply (@pvalue_resolution nat CounterSource CounterSourceOk 2 30
           [[1; 0]; [0; 1]; [1; 1]] [[2; 1]] 4%Z 0%nat).
  - lia.
  - repeat constructor.
  - repeat constructor.
  - simpl; lia.
  - simpl; lia.
  - lia.
Defined.

(* ================================================================== *)
(** * The histogram divergence in exact arithmetic *)

(** The facts of this part are about the exact model of the helper: on
    collections that hold two different values its histograms are
    densities and its result is a finite number.  They are used to
    evaluate the test at concrete groups whose similarities are 0 and
    1, where the doubles of the program are exact. *)

(* ------------------------------------------------------------------ *)
(** ** The shared range *)

Lemma fold_Rmin_in (xs : list R) (x : R) : In (fold_left Rmin xs x) (x :: xs).
Proof.
  revert x. induction xs as [|y xs IH]; intros x; [now left|].
  simpl fold_left. destruct (IH (Rmin x y)) as [E | Hin].
  - rewrite <- E. unfold Rmin. destruct (Rle_dec x y); [now left | right; now left].
  - right. now right.
Qed.

Lemma fold_Rmax_in (xs : list R) (x : R) : In (fold_left Rmax xs x) (x :: xs).
Proof.
  revert x. induction xs as [|y xs IH]; intros x; [now left|].
  simpl fold_left. destruct (IH (Rmax x y)) as [E | Hin].
  - rewrite <- E. unfold Rmax. destruct (Rle_dec x y); [right; now left | now left].
  - right. now right.
Qed.

Lemma py_min_le_r (a b : R) : py_min a b <= b.
Proof. unfold py_min. rcases; lra. Qed.

Lemma py_max_ge_r (a b : R) : b <= py_max a b.
Proof. unfold py_max. rcases; lra. Qed.

Lemma py_min_cases (a b : R) : py_min a b = a \/ py_min a b = b.
Proof. unfold py_min. destruct (Rltb b a); auto. Qed.

Lemma py_max_cases (a b : R) : py_max a b = a \/ py_max a b = b.
Proof. unfold py_max. destruct (Rltb a b); auto. Qed.

(** The range handed to [np.linspace] runs from the least to the
    greatest of all scores. *)
Lemma joint_range (X Y : list R) :
  X <> [] -> Y <> [] ->
  exists lo hi,
    In lo (X ++ Y) /\ In hi (X ++ Y) /\
    (forall x, In x (X ++ Y) -> lo <= x <= hi) /\
    forall bins,
      bin_edges_of bins X Y = Ok (map (edge lo hi bins) (seq 0 (S bins))).
Proof.
  intros NX NY.
  destruct X as [|x xs]; [easy|]. destruct Y as [|y ys]; [easy|].
  set (m1 := fold_left Rmin xs x). set (m2 := fold_left Rmin ys y).
  set (M1 := fold_left Rmax xs x). set (M2 := fold_left Rmax ys y).
  exists (py_min m1 m2), (py_max M1 M2).
  assert (I1 : In m1 (x :: xs)) by apply fold_Rmin_in.
  assert (I2 : In m2 (y :: ys)) by apply fold_Rmin_in.
  assert (J1 : In M1 (x :: xs)) by apply fold_Rmax_in.
  assert (J2 : In M2 (y :: ys)) by apply fold_Rmax_in.
  split; [|split; [|split]].
  - apply in_or_app. destruct (py_min_cases m1 m2) as [-> | ->]; auto.
  - apply in_or_app. destruct (py_max_cases M1 M2) as [-> | ->]; auto.
  - intros z Hz. apply in_app_or in Hz.
    pose proof (py_min_le_l m1 m2). pose proof (py_min_le_r m1 m2).
    pose proof (py_max_ge_l M1 M2). pose proof (py_max_ge_r M1 M2).
    destruct Hz as [Hz | Hz].
    + pose proof (@fold_Rmin_lower xs x z Hz). pose proof (@fold_Rmax_upper xs x z Hz).
      fold m1 in H3. fold M1 in H4. lra.
    + pose proof (@fold_Rmin_lower ys y z Hz). pose proof (@fold_Rmax_upper ys y z Hz).
      fold m2 in H3. fold M2 in H4. lra.
  - intros bins. unfold bin_edges_of, ndarray_min, ndarray_max. cbn [rbind].
    fold m1 m2 M1 M2. now rewrite linspace_edges.
Qed.

(* ------------------------------------------------------------------ *)
(** ** Histograms over a range with [lo < hi] *)

Lemma Rsum_scaled_counts (f : nat -> Z) (c : R) (l : list nat) :
  Rsum (map (fun i => IZR (f i) / c) l)
  = IZR (fold_right Z.add 0%Z (map f l)) / c.
Proof.
  induction l as [|i l IH]; simpl.
  - unfold Rdiv. ring.
  - rewrite IH, plus_IZR. unfold Rdiv. ring.
Qed.

Lemma spread_histogram_density (bins : nat) (lo hi : R) (X : list R) :
  (1 <= bins)%nat -> lo < hi -> X <> [] ->
  (forall x, In x X -> lo <= x <= hi) ->
  exists rs,
    histogram_density X (map (edge lo hi bins) (seq 0 (S bins))) = Ok (map Fin rs) /\
    length rs = bins /\
    Forall (fun r => 0 <= r) rs /\
    0 < Rsum rs /\
    integral rs (map (edge lo hi bins) (seq 0 (S bins))) = 1.
Proof.
  intros Hb Hlt NX Hrange.
  set (e := edge lo hi bins).
  set (c := cum_count X e bins).
  assert (Hc0 : c 0%nat = 0%Z).
  { unfold c, cum_count.
    replace (Nat.ltb 0 bins) with true by (symmetry; apply Nat.ltb_lt; lia).
    unfold e. rewrite edge_first by exact Hb.
    apply count_lt_below. intros x Hx. now apply Hrange. }
  assert (Hcn : c bins = Z.of_nat (length X)).
  { unfold c, cum_count. rewrite Nat.ltb_irrefl.
    unfold e. rewrite edge_last by exact Hb.
    apply count_le_above. intros x Hx. now apply Hrange. }
  assert (HN : 0 < IZR (c bins - c 0%nat)).
  { apply IZR_lt. rewrite Hc0, Hcn. destruct X; [easy | simpl length; lia]. }
  assert (Hw : forall i, (i < bins)%nat -> 0 < e (S i) - e i).
  { intros i Hi. pose proof (@edge_step_strict lo hi bins i Hlt Hi) as Hs.
    fold e in Hs. lra. }
  set (r := fun i => IZR (c (S i) - c i) / (e (S i) - e i) / IZR (c bins - c 0%nat)).
  destruct (@spread_histogram bins lo hi X Hb Hlt NX Hrange) as (rs & Hh & Hnn & Hpos).
  assert (Hh' : histogram_density X (map e (seq 0 (S bins)))
                = Ok (map Fin (map r (seq 0 bins)))).
  { rewrite histogram_density_map_seq.
    - f_equal. rewrite map_map. apply map_ext_in. intros i Hi. apply in_seq in Hi.
      unfold bin_density. fold c. fold e. unfold r.
      assert (Hwi : 0 < e (S i) - e i) by (apply Hw; lia).
      unfold fdiv.
      replace (Reqb (e (S i) - e i) 0) with false
        by (symmetry; apply Reqb_false; lra).
      replace (Reqb (IZR (c bins - c 0%nat)) 0) with false
        by (symmetry; apply Reqb_false; lra).
      reflexivity.
    - apply monotoneb_map_seq. intros i _ Hi.
      assert (Hwi : 0 < e (S i) - e i) by (apply Hw; lia). lra. }
  assert (Ers : rs = map r (seq 0 bins)).
  { fold e in Hh. rewrite Hh' in Hh. inversion Hh as [E].
    clear - E. revert E. generalize (map r (seq 0 bins)) as l.
    induction rs as [|a rs IH]; intros [|b l] E; simpl in E;
      try discriminate; [reflexivity|].
    inversion E; subst. f_equal. now apply IH. }
  exists rs. fold e.
  split; [now rewrite Ers|]. split; [now rewrite Ers, length_map, length_seq|].
  split; [exact Hnn|]. split; [exact Hpos|].
  unfold integral. rewrite Ers, diffR_map_seq, combine_map_seq, map_map.
  cbn [fst snd].
  assert (Eterm : map (fun i => r i * (e (S i) - e i)) (seq 0 bins)
                  = map (fun i => IZR (c (S i) - c i) / IZR (c bins - c 0%nat))
                        (seq 0 bins)).
  { apply map_ext_in. intros i Hi. apply in_seq in Hi. unfold r.
    assert (Hwi : 0 < e (S i) - e i) by (apply Hw; lia). field. lra. }
  rewrite Eterm, Rsum_scaled_counts, telescope. simpl Nat.add. field. lra.
Qed.

Lemma has_spread_range (X : list R) (lo hi : R) :
  has_spread X -> (forall x, In x X -> lo <= x <= hi) -> lo < hi.
Proof.
  intros (a & b & Ha & Hb & Hab) Hr.
  pose proof (Hr a Ha). pose proof (Hr b Hb).
  destruct (Rlt_le_dec a b); [lra|]. assert (b < a) by lra. lra.
Qed.

(* ------------------------------------------------------------------ *)
(** ** The divergence of two such histograms *)

Lemma ln_le_sub1 (x : R) : 0 < x -> ln x <= x - 1.
Proof.
  intros Hx. pose proof (exp_ineq1_le (ln x)) as H.
  rewrite exp_ln in H by exact Hx. lra.
Qed.

Lemma ln_2_lt_1 : ln 2 < 1.
Proof.
  pose proof (exp_ineq1 1) as H. assert (H1 : 1 + 1 < exp 1) by (apply H; lra).
  rewrite <- (ln_exp 1). apply ln_increasing; lra.
Qed.

Lemma kl_term_lower (p q : R) :
  0 <= p -> 0 <= q -> p - (p + q) / 2 <= kl_term p ((p + q) / 2).
Proof.
  intros Hp Hq. unfold kl_term. destruct (Rltb 0 p) eqn:E.
  - apply Rltb_true in E. set (m := (p + q) / 2).
    assert (Hm : 0 < m) by (unfold m; lra).
    assert (Hr : 0 < m / p) by (apply Rdiv_lt_0_compat; assumption).
    pose proof (ln_le_sub1 Hr) as Hl.
    replace (p / m) with (/ (m / p)) by (field; lra).
    rewrite ln_Rinv by exact Hr.
    assert (Hmul : p * ln (m / p) <= p * (m / p - 1))
      by (apply Rmult_le_compat_l; lra).
    replace (p * (m / p - 1)) with (m - p) in Hmul by (field; lra). lra.
  - apply Rltb_false in E. assert (p = 0) by lra. subst. lra.
Qed.

Lemma kl_term_upper (p q : R) :
  0 <= p -> 0 <= q -> kl_term p ((p + q) / 2) <= p * ln 2.
Proof.
  intros Hp Hq. unfold kl_term. destruct (Rltb 0 p) eqn:E.
  - apply Rltb_true in E. set (m := (p + q) / 2).
    assert (Hm : 0 < m) by (unfold m; lra).
    assert (Hr : 0 < p / m) by (apply Rdiv_lt_0_compat; assumption).
    assert (Hle : p / m <= 2).
    { apply (Rmult_le_reg_r m); [exact Hm|].
      replace (p / m * m) with p by (field; lra). unfold m. lra. }
    apply Rmult_le_compat_l; [lra|].
    destruct Hle as [Hlt | Heq].
    + left. now apply ln_increasing.
    + rewrite Heq. lra.
  - apply Rltb_false in E. assert (p = 0) by lra. subst. lra.
Qed.

Lemma rel_entr_fin (p q : R) :
  0 <= p -> 0 <= q ->
  rel_entr (Fin p) (Fin ((p + q) / 2)) = Fin (kl_term p ((p + q) / 2)).
Proof.
  intros Hp Hq. set (m := (p + q) / 2).
  unfold rel_entr, kl_term, fgtb, fgeb, fleb. cbn [isnan orb fltb feqb].
  destruct (Rltb 0 p) eqn:E.
  - apply Rltb_true in E.
    assert (Hm : 0 < m) by (unfold m; lra).
    replace (Rltb 0 m) with true by (symmetry; now apply Rltb_true).
    cbn [andb]. unfold fdiv.
    replace (Reqb m 0) with false by (symmetry; apply Reqb_false; lra).
    unfold flog.
    replace (Rltb 0 (p / m)) with true
      by (symmetry; apply Rltb_true; now apply Rdiv_lt_0_compat).
    reflexivity.
  - apply Rltb_false in E. assert (p = 0) by lra. subst p.
    cbn [andb]. rewrite Reqb_refl. cbn [andb].
    assert (Hm : 0 <= m) by (unfold m; lra).
    destruct (Rltb 0 m) eqn:E1; [reflexivity|].
    apply Rltb_false in E1. assert (Hz : 0 = m) by lra.
    replace (Reqb 0 m) with true by (symmetry; now apply Reqb_true).
    reflexivity.
Qed.

Lemma combine_map_map {A B A' B' : Type} (f : A -> A') (g : B -> B')
  (l : list A) (l' : list B) :
  combine (map f l) (map g l')
  = map (fun p => (f (fst p), g (snd p))) (combine l l').
Proof.
  revert l'. induction l as [|a l IH]; intros [|b l']; simpl; try reflexivity.
  now rewrite IH.
Qed.

Lemma combine_fst_with {A B C : Type} (g : A * B -> C) (l : list A) (l' : list B) :
  combine l (map g (combine l l')) = map (fun p => (fst p, g p)) (combine l l').
Proof.
  revert l'. induction l as [|a l IH]; intros [|b l']; simpl; try reflexivity.
  now rewrite IH.
Qed.

Lemma combine_snd_with {A B C : Type} (g : A * B -> C) (l : list A) (l' : list B) :
  combine l' (map g (combine l l')) = map (fun p => (snd p, g p)) (combine l l').
Proof.
  revert l'. induction l as [|a l IH]; intros [|b l']; simpl; try reflexivity.
  now rewrite IH.
Qed.

Lemma map_fst_combine_eq {A B : Type} (l : list A) (l' : list B) :
  length l = length l' -> map fst (combine l l') = l.
Proof.
  revert l'. induction l as [|a l IH]; intros [|b l'] E; simpl in *;
    try discriminate; [reflexivity|].
  f_equal. apply IH. lia.
Qed.

Lemma map_snd_combine_eq {A B : Type} (l : list A) (l' : list B) :
  length l = length l' -> map snd (combine l l') = l'.
Proof.
  revert l'. induction l as [|a l IH]; intros [|b l'] E; simpl in *;
    try discriminate; [reflexivity|].
  f_equal. apply IH. lia.
Qed.

Lemma Rsum_scaled (c : R) (rs : list R) :
  Rsum (map (fun r => r / c) rs) = Rsum rs / c.
Proof.
  induction rs as [|r rs IH]; simpl.
  - unfold Rdiv. ring.
  - rewrite IH. unfold Rdiv. ring.
Qed.

(** The two sums of [rel_entr] terms, for lists of pairs [(p, q)]. *)
Lemma kl_sums_bounds (pq : list (R * R)) :
  Forall (fun p => 0 <= fst p /\ 0 <= snd p) pq ->
  let mid := fun p : R * R => (fst p + snd p) / 2 in
  let L := Rsum (map (fun p => kl_term (fst p) (mid p)) pq) in
  let Rr := Rsum (map (fun p => kl_term (snd p) (mid p)) pq) in
  0 <= L + Rr /\
  L <= Rsum (map fst pq) * ln 2 /\
  Rr <= Rsum (map snd pq) * ln 2.
Proof.
  induction 1 as [|[p q] pq [Hp Hq] _ IH]; cbn zeta in *; simpl.
  - lra.
  - destruct IH as (I0 & I1 & I2). cbn [fst snd] in Hp, Hq.
    pose proof (kl_term_lower Hp Hq). pose proof (kl_term_upper Hp Hq).
    pose proof (kl_term_lower Hq Hp) as HLq. pose proof (kl_term_upper Hq Hp) as HUq.
    replace ((q + p) / 2) with ((p + q) / 2) in HLq, HUq by lra.
    repeat split; lra.
Qed.

(** Two histograms of equal length with finite, non-negative values and
    positive sums. *)
Lemma jensenshannon_bounds (rs1 rs2 : list R) :
  length rs1 = length rs2 ->
  Forall (fun r => 0 <= r) rs1 -> Forall (fun r => 0 <= r) rs2 ->
  0 < Rsum rs1 -> 0 < Rsum rs2 ->
  exists t, jensenshannon (map Fin rs1) (map Fin rs2) = Fin t /\
            0 <= t <= sqrt (ln 2).
Proof.
  intros Hlen N1 N2 S1 S2.
  set (ps := map (fun r => r / Rsum rs1) rs1).
  set (qs := map (fun r => r / Rsum rs2) rs2).
  assert (Hps : Forall (fun r => 0 <= r) ps).
  { apply Forall_forall. intros r Hr. unfold ps in Hr. apply in_map_iff in Hr.
    destruct Hr as (r0 & <- & Hr0). rewrite Forall_forall in N1.
    apply Rmult_le_pos; [now apply N1|]. left. now apply Rinv_0_lt_compat. }
  assert (Hqs : Forall (fun r => 0 <= r) qs).
  { apply Forall_forall. intros r Hr. unfold qs in Hr. apply in_map_iff in Hr.
    destruct Hr as (r0 & <- & Hr0). rewrite Forall_forall in N2.
    apply Rmult_le_pos; [now apply N2|]. left. now apply Rinv_0_lt_compat. }
  assert (Lpq : length ps = length qs) by (unfold ps, qs; now rewrite !length_map).
  assert (Sp : Rsum ps = 1) by (unfold ps; rewrite Rsum_scaled; field; lra).
  assert (Sq : Rsum qs = 1) by (unfold qs; rewrite Rsum_scaled; field; lra).
  set (pq := combine ps qs).
  assert (Hpq : Forall (fun p => 0 <= fst p /\ 0 <= snd p) pq).
  { apply Forall_forall. intros [a b] Hab. unfold pq in Hab.
    rewrite Forall_forall in Hps, Hqs. split.
    - apply Hps. eapply in_combine_l; eauto.
    - apply Hqs. eapply in_combine_r; eauto. }
  set (mid := fun p : R * R => (fst p + snd p) / 2).
  set (L := Rsum (map (fun p => kl_term (fst p) (mid p)) pq)).
  set (Rr := Rsum (map (fun p => kl_term (snd p) (mid p)) pq)).
  destruct (kl_sums_bounds Hpq) as (B0' & B1' & B2').
  unfold pq in B1', B2'.
  rewrite (map_fst_combine_eq _ _ Lpq), Sp in B1'.
  rewrite (map_snd_combine_eq _ _ Lpq), Sq in B2'.
  assert (B0 : 0 <= L + Rr) by exact B0'.
  assert (B1 : L <= 1 * ln 2) by exact B1'.
  assert (B2 : Rr <= 1 * ln 2) by exact B2'.
  clear B0' B1' B2'.
  exists (sqrt ((L + Rr) / 2)). split.
  - unfold jensenshannon. rewrite !fsum_fin.
    assert (EP : map (fun x => fdiv x (Fin (Rsum rs1))) (map Fin rs1) = map Fin ps).
    { unfold ps. rewrite !map_map. apply map_ext. intros r. simpl.
      replace (Reqb (Rsum rs1) 0) with false by (symmetry; apply Reqb_false; lra).
      reflexivity. }
    assert (EQ : map (fun x => fdiv x (Fin (Rsum rs2))) (map Fin rs2) = map Fin qs).
    { unfold qs. rewrite !map_map. apply map_ext. intros r. simpl.
      replace (Reqb (Rsum rs2) 0) with false by (symmetry; apply Reqb_false; lra).
      reflexivity. }
    rewrite EP, EQ.
    assert (Em : map (fun xy => fdiv (fadd (fst xy) (snd xy)) (Fin 2))
                     (combine (map Fin ps) (map Fin qs))
                 = map Fin (map mid pq)).
    { rewrite combine_map_map, !map_map. apply map_ext. intros [a b]. simpl.
      replace (Reqb 2 0) with false by (symmetry; apply Reqb_false; lra).
      reflexivity. }
    rewrite Em.
    assert (El : map (fun xm => rel_entr (fst xm) (snd xm))
                     (combine (map Fin ps) (map Fin (map mid pq)))
                 = map Fin (map (fun p => kl_term (fst p) (mid p)) pq)).
    { rewrite combine_map_map. unfold pq at 1. rewrite combine_fst_with.
      fold pq. rewrite !map_map. apply map_ext_in. intros [a b] Hab.
      rewrite Forall_forall in Hpq. destruct (Hpq _ Hab) as [Ha Hb].
      cbn [fst snd]. unfold mid. cbn [fst snd]. now apply rel_entr_fin. }
    assert (Er : map (fun xm => rel_entr (fst xm) (snd xm))
                     (combine (map Fin qs) (map Fin (map mid pq)))
                 = map Fin (map (fun p => kl_term (snd p) (mid p)) pq)).
    { rewrite combine_map_map. unfold pq at 1. rewrite combine_snd_with.
      fold pq. rewrite !map_map. apply map_ext_in. intros [a b] Hab.
      rewrite Forall_forall in Hpq. destruct (Hpq _ Hab) as [Ha Hb].
      cbn [fst snd]. unfold mid. cbn [fst snd].
      replace ((a + b) / 2) with ((b + a) / 2) by lra. now apply rel_entr_fin. }
    rewrite El, Er, !fsum_fin. fold L Rr.
    cbn [fadd]. unfold fdiv.
    replace (Reqb 2 0) with false by (symmetry; apply Reqb_false; lra).
    unfold fsqrt.
    replace (Rltb ((L + Rr) / 2) 0) with false
      by (symmetry; apply Rltb_false; lra).
    reflexivity.
  - split; [apply sqrt_pos|]. apply sqrt_le_1_alt. lra.
Qed.

(** With some spread, both histograms are densities with equal sums, so
    the distance of the two is the square root of a number between 0
    and [ln 2]. *)
Lemma calculate_jsd_with_spread (bins : nat) (X Y : list R) :
  (1 <= bins)%nat -> X <> [] -> Y <> [] -> has_spread (X ++ Y) ->
  exists rs1 rs2 edges t,
    bin_edges_of bins X Y = Ok edges /\
    histogram_density X edges = Ok (map Fin rs1) /\
    histogram_density Y edges = Ok (map Fin rs2) /\
    jensenshannon (map Fin rs1) (map Fin rs2) = Fin t /\
    0 <= t <= sqrt (ln 2).
Proof.
  intros Hb NX NY Hsp.
  destruct (joint_range NX NY) as (lo & hi & _ & _ & Hr & He).
  pose proof (has_spread_range Hsp Hr) as Hlt.
  destruct (@spread_histogram_density bins lo hi X Hb Hlt NX)
    as (rs1 & H1 & L1 & P1 & S1 & _).
  { intros x Hx. apply Hr. apply in_or_app. now left. }
  destruct (@spread_histogram_density bins lo hi Y Hb Hlt NY)
    as (rs2 & H2 & L2 & P2 & S2 & _).
  { intros x Hx. apply Hr. apply in_or_app. now right. }
  destruct (@jensenshannon_bounds rs1 rs2) as (t & Ht & Hbt);
    [congruence | assumption | assumption | assumption | assumption |].
  exists rs1, rs2, (map (edge lo hi bins) (seq 0 (S bins))), t.
  split; [apply He|]. repeat (split; [assumption|]). exact Hbt.
Qed.

(* ------------------------------------------------------------------ *)
(** ** The order of the scores does not matter *)

Lemma filter_length_perm {A : Type} (p : A -> bool) (l l' : list A) :
  Permutation l l' -> length (filter p l) = length (filter p l').
Proof.
  induction 1 as [|x l l' _ IH|x y l|l l' l'' _ IH1 _ IH2]; simpl.
  - reflexivity.
  - destruct (p x); simpl; now rewrite IH.
  - destruct (p x), (p y); reflexivity.
  - now rewrite IH1.
Qed.

Lemma fold_Rmin_perm (x y : R) (xs ys : list R) :
  Permutation (x :: xs) (y :: ys) -> fold_left Rmin xs x = fold_left Rmin ys y.
Proof.
  intros HP.
  pose proof (fold_Rmin_in xs x) as I1. pose proof (fold_Rmin_in ys y) as I2.
  apply (Permutation_in _ HP) in I1.
  apply (Permutation_in _ (Permutation_sym HP)) in I2.
  pose proof (@fold_Rmin_lower ys y _ I1). pose proof (@fold_Rmin_lower xs x _ I2).
  lra.
Qed.

Lemma fold_Rmax_perm (x y : R) (xs ys : list R) :
  Permutation (x :: xs) (y :: ys) -> fold_left Rmax xs x = fold_left Rmax ys y.
Proof.
  intros HP.
  pose proof (fold_Rmax_in xs x) as I1. pose proof (fold_Rmax_in ys y) as I2.
  apply (Permutation_in _ HP) in I1.
  apply (Permutation_in _ (Permutation_sym HP)) in I2.
  pose proof (@fold_Rmax_upper ys y _ I1). pose proof (@fold_Rmax_upper xs x _ I2).
  lra.
Qed.

Lemma ndarray_min_perm (X X' : list R) :
  Permutation X X' -> ndarray_min X = ndarray_min X'.
Proof.
  intros HP. destruct X as [|x xs], X' as [|y ys]; simpl.
  - reflexivity.
  - now apply Permutation_nil_cons in HP.
  - apply Permutation_sym in HP. now apply Permutation_nil_cons in HP.
  - f_equal. now apply fold_Rmin_perm.
Qed.

Lemma ndarray_max_perm (X X' : list R) :
  Permutation X X' -> ndarray_max X = ndarray_max X'.
Proof.
  intros HP. destruct X as [|x xs], X' as [|y ys]; simpl.
  - reflexivity.
  - now apply Permutation_nil_cons in HP.
  - apply Permutation_sym in HP. now apply Permutation_nil_cons in HP.
  - f_equal. now apply fold_Rmax_perm.
Qed.

Lemma histogram_density_perm (X X' edges : list R) :
  Permutation X X' -> histogram_density X edges = histogram_density X' edges.
Proof.
  intros HP. unfold histogram_density.
  assert (E : search_sorted_inclusive X edges = search_sorted_inclusive X' edges).
  { unfold search_sorted_inclusive. destruct edges as [|e0 edges]; [reflexivity|].
    f_equal.
    - apply map_ext. intros v. unfold count_lt. f_equal.
      now apply filter_length_perm.
    - f_equal. unfold count_le. f_equal. now apply filter_length_perm. }
  now rewrite E.
Qed.

Lemma bin_edges_of_perm (bins : nat) (X X' Y Y' : list R) :
  Permutation X X' -> Permutation Y Y' ->
  bin_edges_of bins X Y = bin_edges_of bins X' Y'.
Proof.
  intros HX HY. unfold bin_edges_of.
  now rewrite (ndarray_min_perm HX), (ndarray_min_perm HY),
    (ndarray_max_perm HX), (ndarray_max_perm HY).
Qed.

(** X11.  The histogram divergence depends only on which scores each
    collection holds and how often, not on their order: rearranging
    either collection leaves the result unchanged. *)
Theorem divergence_ignores_order (bins : nat) (X X' Y Y' : list R) :
  Permutation X X' -> Permutation Y Y' ->
  _calculate_jsd bins X Y = _calculate_jsd bins X' Y'.
Proof.
  intros HX HY. unfold _calculate_jsd.
  rewrite (bin_edges_of_perm bins HX HY).
  destruct (bin_edges_of bins X' Y') as [edges|e]; [|reflexivity].
  cbn [rbind].
  now rewrite (histogram_density_perm _ HX), (histogram_density_perm _ HY).
Qed.

Lemma divergence_ignores_order_witness :
  _calculate_jsd 30 [0; 1; 2] [3; 1] = _calculate_jsd 30 [2; 0; 1] [1; 3].
Proof.
  apply (@divergence_ignores_order 30 [0; 1; 2] [2; 0; 1] [3; 1] [1; 3]).
  - apply Permutation_sym. apply (Permutation_cons_append [0; 1] 2).
  - apply perm_swap.
Defined.

(* ================================================================== *)
(** * The changes given on the command line *)

Lemma dict_get_set (d : dict) (k v k' : String.string) :
  dict_get (dict_set d k v) k'
  = if String.eqb k' k then Some v else dict_get d k'.
Proof.
  induction d as [|[k0 v0] d IH]; simpl.
  - reflexivity.
  - destruct (String.eqb_spec k k0) as [E | NE]; simpl.
    + subst k0. destruct (String.eqb k' k); reflexivity.
    + rewrite IH. destruct (String.eqb_spec k' k0) as [E' | NE'];
        [|reflexivity].
      subst k0. destruct (String.eqb_spec k' k) as [E'' | _]; [|reflexivity].
      subst. contradiction.
Qed.

Lemma dict_set_nonempty (d : dict) (k v : String.string) : dict_set d k v <> [].
Proof.
  destruct d as [|[k0 v0] d]; simpl; [discriminate|].
  destruct (String.eqb k k0); discriminate.
Qed.

Lemma set_pairs_nonempty (tokens : list String.string) :
  forall changes, changes <> [] -> set_pairs changes tokens <> [].
Proof.
  assert (Hn : forall n (l : list String.string), (length l <= n)%nat ->
                 forall changes, changes <> [] -> set_pairs changes l <> []).
  { induction n as [|n IH]; intros l Hl changes Hne.
    - destruct l; [exact Hne | simpl in Hl; lia].
    - destruct l as [|a [|b rest]]; simpl; try exact Hne.
      apply IH; [simpl in Hl; lia | apply dict_set_nonempty]. }
  exact (Hn (length tokens) tokens (le_n _)).
Qed.

Lemma set_pairs_lookup (k : String.string) (tokens : list String.string) :
  forall changes,
    dict_get (set_pairs changes tokens) k
    = match last_replacement k tokens with
      | Some v => Some v
      | None => dict_get changes k
      end.
Proof.
  assert (Hn : forall n (l : list String.string), (length l <= n)%nat ->
                 forall changes,
                   dict_get (set_pairs changes l) k
                   = match last_replacement k l with
                     | Some v => Some v
                     | None => dict_get changes k
                     end).
  { induction n as [|n IH]; intros l Hl changes.
    - destruct l; [reflexivity | simpl in Hl; lia].
    - destruct l as [|a [|b rest]]; try reflexivity.
      cbn [set_pairs last_replacement]. rewrite IH by (simpl in Hl; lia).
      destruct (last_replacement k rest); [reflexivity|].
      rewrite dict_get_set. destruct (String.eqb k a); reflexivity. }
  exact (Hn (length tokens) tokens (le_n _)).
Qed.

Lemma range_step2_SS (n : nat) :
  range_step2 (S (S n)) = 0%nat :: map (fun i => (i + 2)%nat) (range_step2 n).
Proof.
  unfold range_step2. cbn [Nat.add Nat.div2 seq map]. f_equal.
  rewrite <- seq_shift, !map_map. apply map_ext. intros j. lia.
Qed.

Lemma set_pair_shift (a b : String.string) (rest : list String.string)
  (changes : dict) (i : nat) :
  set_pair (a :: b :: rest) changes (i + 2) = set_pair rest changes i.
Proof.
  unfold set_pair.
  replace (i + 2 + 1)%nat with (S (S (i + 1))) by lia.
  replace (i + 2)%nat with (S (S i)) by lia. reflexivity.
Qed.

Lemma foldM_map {A B C : Type} (f : A -> B -> result A) (g : C -> B)
  (l : list C) (a : A) :
  foldM f (map g l) a = foldM (fun a x => f a (g x)) l a.
Proof.
  revert a. induction l as [|x l IH]; intros a; simpl; [reflexivity|].
  destruct (f a (g x)); simpl; [apply IH | reflexivity].
Qed.

Lemma foldM_ext {A B : Type} (f g : A -> B -> result A) (l : list B) (a : A) :
  (forall a x, f a x = g a x) -> foldM f l a = foldM g l a.
Proof.
  intros E. revert a. induction l as [|x l IH]; intros a; simpl; [reflexivity|].
  rewrite E. destruct (g a x); simpl; [apply IH | reflexivity].
Qed.

(** The loop over the indices never reads past the end of an even
    number of tokens, and enters the pairs in order. *)
Lemma loop_enters_pairs (n : nat) :
  forall (tokens : list String.string) (changes : dict),
    length tokens = (2 * n)%nat ->
    foldM (set_pair tokens) (range_step2 (length tokens)) changes
    = Ok (set_pairs changes tokens).
Proof.
  induction n as [|n IH]; intros tokens changes Hlen.
  - destruct tokens; [reflexivity | discriminate].
  - destruct tokens as [|a [|b rest]]; simpl in Hlen; try lia.
    cbn [length]. rewrite range_step2_SS. cbn [foldM].
    unfold set_pair at 1. cbn [Nat.add nth_error rbind].
    rewrite foldM_map.
    rewrite (foldM_ext _ (set_pair rest))
      by (intros c i; apply set_pair_shift).
    cbn [set_pairs]. apply IH. lia.
Qed.

Lemma even_length_half (tokens : list String.string) :
  Nat.odd (length tokens) = false -> exists n, length tokens = (2 * n)%nat.
Proof.
  intros Hodd. rewrite <- Nat.negb_even in Hodd.
  apply negb_false_iff in Hodd. apply Nat.even_spec in Hodd. exact Hodd.
Qed.

(** What lines 87-112 compute, case by case. *)
Lemma main_changes_cases (args : Namespace)
  (read : String.string -> change_file_outcome) :
  (exists msg, main_changes args read = Ok (SysExit 1 msg)) \/
  (main_changes args read
   = Ok (Changes (set_pairs (file_changes args read) (tokens_of args))) /\
   set_pairs (file_changes args read) (tokens_of args) <> [] /\
   Nat.odd (length (tokens_of args)) = false).
Proof.
  unfold main_changes, file_changes, tokens_of.
  destruct (py_truthy_string (change_file args)) as [path|].
  - destruct (read path) as [|e|d0]; [left; eauto | left; eauto |].
    destruct (change args) as [[|t ts]|].
    + destruct d0; [left; eauto | right; repeat split; discriminate].
    + destruct (Nat.odd (length (t :: ts))) eqn:Hodd; [left; eauto|].
      destruct (even_length_half _ Hodd) as (n & Hn).
      rewrite (loop_enters_pairs n _ d0 Hn). cbn [rbind].
      destruct (set_pairs d0 (t :: ts)) eqn:E; [left; eauto|].
      right. repeat split; discriminate.
    + destruct d0; [left; eauto | right; repeat split; discriminate].
  - destruct (change args) as [[|t ts]|].
    + left; eauto.
    + destruct (Nat.odd (length (t :: ts))) eqn:Hodd; [left; eauto|].
      destruct (even_length_half _ Hodd) as (n & Hn).
      rewrite (loop_enters_pairs n _ [] Hn). cbn [rbind].
      destruct (set_pairs [] (t :: ts)) eqn:E; [left; eauto|].
      right. repeat split; discriminate.
    + left; eauto.
Qed.




(** X15.  When the changes are passed on, the replacement of a phrase
    is the one of the last command-line pair that names the phrase, and
    the one of the change file when no pair names it: pairs on the
    command line override the file, and a later pair overrides an
    earlier one. *)
Theorem passed_changes_lookup (args : Namespace)
  (read : String.string -> change_file_outcome) (changes : dict) (k : String.string) :
  main_changes args read = Ok (Changes changes) ->
  dict_get changes k
  = match last_replacement k (tokens_of args) with
    | Some v => Some v
    | None => dict_get (file_changes args read) k
    end.
Proof.
  intros E.
  destruct (main_changes_cases args read) as [(msg & E') | (E' & _ & _)].
  - rewrite E' in E. discriminate.
  - rewrite E' in E. inversion E; subst. apply set_pairs_lookup.
Qed.

Lemma passed_changes_lookup_witness :
  dict_get [("age is 45"%string, "age is 65"%string);
            ("male"%string, "female"%string)] "age is 45"%string
  = match last_replacement "age is 45"%string
            (tokens_of
               {| text := "My age is 45 and I am male."%string;
                  change := Some ["age is 45"%string; "age is 55"%string;
                                  "age is 45"%string; "age is 65"%string];
                  change_file := Some "changes.json"%string;
                  method := "energy"%string; distance := "cosine"%string;
                  permutations := 500; output_format := "json"%string;
                  verbose := true |}) with
    | Some v => Some v
    | None =>
        dict_get
          (file_changes
             {| text := "My age is 45 and I am male."%string;
                change := Some ["age is 45"%string; "age is 55"%string;
                                "age is 45"%string; "age is 65"%string];
                change_file := Some "changes.json"%string;
                method := "energy"%string; distance := "cosine"%string;
                permutations := 500; output_format := "json"%string;
                verbose := true |}
             (fun _ => Loaded [("age is 45"%string, "age is 50"%string);
                               ("male"%string, "female"%string)]))
          "age is 45"%string
    end.
Proof.
  apply (@passed_changes_lookup
           {| text := "My age is 45 and I am male."%string;
              change := Some ["age is 45"%string; "age is 55"%string;
                              "age is 45"%string; "age is 65"%string];
              change_file := Some "changes.json"%string;
              method := "energy"%string; distance := "cosine"%string;
              permutations := 500; output_format := "json"%string;
              verbose := true |}
           (fun _ => Loaded [("age is 45"%string, "age is 50"%string);
                             ("male"%string, "female"%string)])).
  reflexivity.
Defined.

(* ================================================================== *)
(** * The order of the vectors within a group *)

Lemma dot_comm (x y : vector) : dot x y = dot y x.
Proof.
  unfold dot. revert y. induction x as [|a x IH]; intros [|b y]; simpl;
    try reflexivity.
  rewrite IH. ring.
Qed.

Lemma cosine_comm (x y : vector) : cosine x y = cosine y x.
Proof. unfold cosine. apply dot_comm. Qed.

Lemma upper_triangle_cons (a : vector) (A : matrix) :
  upper_triangle (a :: A) = map (fun b => cosine a b) A ++ upper_triangle A.
Proof.
  unfold upper_triangle. cbn [length seq flat_map]. f_equal.
  - cbn [Nat.sub nth]. rewrite Nat.sub_0_r.
    rewrite <- seq_shift, map_map. cbn [nth].
    rewrite <- (map_nth_seq A []) at 2. now rewrite map_map.
  - rewrite <- seq_shift, flat_map_concat_map, map_map, <- flat_map_concat_map.
    apply flat_map_ext. intros i. cbn [Nat.sub nth].
    rewrite <- seq_shift, map_map. reflexivity.
Qed.

Lemma upper_triangle_perm (A A' : matrix) :
  Permutation A A' -> Permutation (upper_triangle A) (upper_triangle A').
Proof.
  induction 1 as [|x l l' HP IH|x y l|l l' l'' _ IH1 _ IH2].
  - apply Permutation_refl.
  - rewrite !upper_triangle_cons. apply Permutation_app; [|exact IH].
    now apply Permutation_map.
  - rewrite !upper_triangle_cons. cbn [map]. rewrite (cosine_comm x y).
    rewrite <- !app_comm_cons. apply perm_skip.
    rewrite !app_assoc. apply Permutation_app_tail. apply Permutation_app_comm.
  - eapply Permutation_trans; eauto.
Qed.

Lemma all_pairs_perm (A A' B B' : matrix) :
  Permutation A A' -> Permutation B B' ->
  Permutation (all_pairs A B) (all_pairs A' B').
Proof.
  intros HA HB. unfold all_pairs.
  eapply Permutation_trans.
  - apply Permutation_flat_map. exact HA.
  - clear HA. induction A' as [|a A' IH]; simpl; [apply Permutation_refl|].
    apply Permutation_app; [now apply Permutation_map | exact IH].
Qed.

Lemma group_of_dim_perm (d : nat) (X X' : matrix) :
  Permutation X X' -> group_of_dim d X -> group_of_dim d X'.
Proof. intros HP HX. unfold group_of_dim in *. now rewrite <- HP. Qed.

(** X16.  The observed statistic does not depend on the order of the
    vectors within either group: rearranging the rows of the first
    group, of the second, or of both leaves it unchanged. *)
Theorem statistic_ignores_order_within_groups
  (d bins : nat) (A A' B B' : matrix) :
  (1 <= d)%nat -> group_of_dim d A -> group_of_dim d B ->
  A <> [] -> B <> [] ->
  Permutation A A' -> Permutation B B' ->
  statistic bins A B = statistic bins A' B'.
Proof.
  intros Hd HA HB NA NB PA PB.
  assert (HA' : group_of_dim d A') by (now apply (group_of_dim_perm PA)).
  assert (HB' : group_of_dim d B') by (now apply (group_of_dim_perm PB)).
  assert (NA' : A' <> []).
  { intros ->. apply Permutation_sym in PA. apply Permutation_nil in PA. auto. }
  assert (NB' : B' <> []).
  { intros ->. apply Permutation_sym in PB. apply Permutation_nil in PB. auto. }
  unfold statistic.
  rewrite (intra_similarities Hd HA NA), (inter_similarities Hd HA HB NA NB).
  rewrite (intra_similarities Hd HA' NA'), (inter_similarities Hd HA' HB' NA' NB').
  cbn [rbind].
  pose proof (upper_triangle_perm PA) as PU.
  pose proof (all_pairs_perm PA PB) as PV.
  unfold _calculate_jsd.
  rewrite (bin_edges_of_perm bins PU PV).
  destruct (bin_edges_of bins (upper_triangle A') (all_pairs A' B'))
    as [edges|e]; [|reflexivity].
  cbn [rbind].
  now rewrite (histogram_density_perm _ PU), (histogram_density_perm _ PV).
Qed.

Lemma statistic_ignores_order_within_groups_witness :
  statistic 30 [[1; 0]; [0; 1]; [1; 1]] [[2; 1]; [1; 3]]
  = statistic 30 [[0; 1]; [1; 0]; [1; 1]] [[1; 3]; [2; 1]].
Proof.
  apply (@statistic_ignores_order_within_groups 2 30
           [[1; 0]; [0; 1]; [1; 1]] [[0; 1]; [1; 0]; [1; 1]]
           [[2; 1]; [1; 3]] [[1; 3]; [2; 1]]).
  - lia.
  - repeat constructor.
  - repeat constructor.
  - discriminate.
  - discriminate.
  - apply perm_swap.
  - apply perm_swap.
Defined.

(* ================================================================== *)
(** * Runs of the test and the drawn permutations *)

(** A pass reads the generator only through the permutation it draws. *)
Lemma iteration_reads_permutation (pool : matrix) (k bins : nat) (observed : f64) :
  exists f : Z -> list nat -> result Z,
    forall (count : Z) (G : Type) (RS : RandomSource G) (g : G),
      permutation_iteration pool k bins observed count g
      = (f count (fst (random_permutation (length pool) g)),
         snd (random_permutation (length pool) g)).
Proof.
  exists (fun count perm =>
            group1 <- take_rows pool (firstn k perm) ;;
            group2 <- take_rows pool (skipn k perm) ;;
            q0 <- calculate_cosine_similarities group1 None ;;
            q1 <- calculate_cosine_similarities group1 (Some group2) ;;
            perm_jsd <- _calculate_jsd bins q0 q1 ;;
            Ok (if fgeb perm_jsd observed then (count + 1)%Z else count)).
  intros count G RS g.
  unfold permutation_iteration, bind, np_random_permutation, lift, ret.
  destruct (take_rows pool (firstn k _)) as [group1|e]; [|reflexivity].
  cbn [rbind].
  destruct (take_rows pool (skipn k _)) as [group2|e]; [|reflexivity].
  cbn [rbind].
  destruct (calculate_cosine_similarities group1 None) as [q0|e]; [|reflexivity].
  cbn [rbind].
  destruct (calculate_cosine_similarities group1 (Some group2)) as [q1|e];
    [|reflexivity].
  cbn [rbind].
  destruct (_calculate_jsd bins q0 q1); reflexivity.
Qed.

Lemma loop_reads_draws {G1 G2 : Type} {RS1 : RandomSource G1} {RS2 : RandomSource G2}
  (pool : matrix) (k bins : nat) (observed : f64) (n : nat) (count : Z)
  (g1 : G1) (g2 : G2) :
  draws n (length pool) g1 = draws n (length pool) g2 ->
  fst (for_range n (permutation_iteration pool k bins observed) count g1)
  = fst (for_range n (permutation_iteration pool k bins observed) count g2).
Proof.
  destruct (iteration_reads_permutation pool k bins observed) as (f & Hf).
  revert count g1 g2.
  induction n as [|n IH]; intros count g1 g2 Hd; [reflexivity|].
  cbn [for_range]. unfold bind. rewrite !Hf.
  cbn [draws] in Hd. injection Hd as Hperm Hrest. rewrite Hperm.
  destruct (f count (fst (random_permutation (length pool) g2))) as [c|e];
    [|reflexivity].
  now apply IH.
Qed.

Lemma test_reads_draws {G1 G2 : Type} {RS1 : RandomSource G1} {RS2 : RandomSource G2}
  (A B : matrix) (num_permutations : Z) (bins : nat) (g1 : G1) (g2 : G2) :
  draws (Z.to_nat num_permutations) (length (A ++ B)) g1
  = draws (Z.to_nat num_permutations) (length (A ++ B)) g2 ->
  fst (jensen_shannon_divergence_and_pvalue A B num_permutations bins g1)
  = fst (jensen_shannon_divergence_and_pvalue A B num_permutations bins g2).
Proof.
  intros Hd.
  unfold jensen_shannon_divergence_and_pvalue, bind, lift, ret.
  destruct (calculate_cosine_similarities A None) as [p0|e]; [|reflexivity].
  destruct (calculate_cosine_similarities A (Some B)) as [p1|e]; [|reflexivity].
  destruct (_calculate_jsd bins p0 p1) as [observed|e]; [|reflexivity].
  destruct (vstack A B) as [pool|e] eqn:Hv; [|reflexivity].
  apply vstack_inv in Hv. subst pool.
  pose proof (@loop_reads_draws _ _ _ _ (A ++ B) (length A) bins observed
                _ 0%Z g1 g2 Hd) as Hloop.
  destruct (for_range _ _ _ g1) as [[c1|e1] g1'];
    destruct (for_range _ _ _ g2) as [[c2|e2] g2'];
    cbn [fst] in Hloop; try discriminate Hloop.
  - injection Hloop as ->.
    destruct (py_truediv (c2 + 1) (num_permutations + 1)); reflexivity.
  - cbn [fst]. congruence.
Qed.

(* ------------------------------------------------------------------ *)
(** ** Two generator states that give different p-values *)

Lemma cosine_of_unit_rows (x y : vector) :
  row_norm x = 1 -> row_norm y = 1 -> cosine x y = dot x y.
Proof.
  intros Hx Hy.
  assert (Hz : handle_zeros_in_scale 1 = 1).
  { unfold handle_zeros_in_scale, float_eps.
    replace (Rltb 1 (10 * / 4503599627370496)) with false; [reflexivity|].
    symmetry. apply Rltb_false. lra. }
  unfold cosine, normalize_row. rewrite Hx, Hy, Hz, dot_scaled_pair. lra.
Qed.

Lemma basis_norms :
  row_norm [1; 0; 0] = 1 /\ row_norm [0; 1; 0] = 1 /\ row_norm [0; 0; 1] = 1.
Proof.
  unfold row_norm, dot. simpl.
  replace (1 * 1 + (0 * 0 + (0 * 0 + 0))) with 1 by lra.
  replace (0 * 0 + (1 * 1 + (0 * 0 + 0))) with 1 by lra.
  replace (0 * 0 + (0 * 0 + (1 * 1 + 0))) with 1 by lra.
  rewrite sqrt_1. auto.
Qed.

Lemma basis_cosines :
  cosine [1; 0; 0] [1; 0; 0] = 1 /\
  cosine [1; 0; 0] [0; 1; 0] = 0 /\
  cosine [1; 0; 0] [0; 0; 1] = 0 /\
  cosine [0; 1; 0] [1; 0; 0] = 0 /\
  cosine [0; 1; 0] [0; 0; 1] = 0 /\
  cosine [0; 0; 1] [1; 0; 0] = 0.
Proof.
  destruct basis_norms as (N1 & N2 & N3).
  repeat split; rewrite cosine_of_unit_rows by assumption;
    unfold dot; simpl; lra.
Qed.

(** Two orthogonal vectors against a third orthogonal one and a copy of
    the first.  The rotation by no place gives back the two groups,
    whose statistic is the observed one; the rotation by one place
    gives two groups whose similarities are all 0, whose statistic is
    [nan]. *)
Lemma draws_decide_the_pvalue :
  exists observed,
    fst (jensen_shannon_divergence_and_pvalue
           [[1; 0; 0]; [0; 1; 0]] [[0; 0; 1]; [1; 0; 0]] 1 30 0%nat)
    = Ok (observed, 1) /\
    fst (jensen_shannon_divergence_and_pvalue
           [[1; 0; 0]; [0; 1; 0]] [[0; 0; 1]; [1; 0; 0]] 1 30 1%nat)
    = Ok (observed, 1 / 2).
Proof.
  set (A := [[1; 0; 0]; [0; 1; 0]]). set (B := [[0; 0; 1]; [1; 0; 0]]).
  destruct basis_cosines as (C11 & C12 & C13 & C21 & C23 & C31).
  assert (HA : group_of_dim 3 A) by (repeat constructor).
  assert (HB : group_of_dim 3 B) by (repeat constructor).
  assert (Hd : (1 <= 3)%nat) by lia.
  assert (LA : (2 <= length A)%nat) by (simpl; lia).
  assert (LB : (1 <= length B)%nat) by (simpl; lia).
  (* the observed statistic is a finite number *)
  destruct (statistic_total 30 Hd HA HB LA LB) as (observed & Hj & Hs).
  assert (Hfin : exists t, observed = Fin t).
  { destruct (@calculate_jsd_with_spread 30 (upper_triangle A) (all_pairs A B))
      as (rs1 & rs2 & edges & t & He & H1 & H2 & Ht & _).
    - lia.
    - discriminate.
    - discriminate.
    - exists 0, 1. unfold upper_triangle, all_pairs, A, B. simpl.
      rewrite C11, C12. split; [now left|]. split; [right; right; now left|]. lra.
    - exists t. unfold _calculate_jsd in Hj. rewrite He in Hj. cbn [rbind] in Hj.
      rewrite H1 in Hj. cbn [rbind] in Hj. rewrite H2 in Hj. cbn [rbind] in Hj.
      congruence. }
  destruct Hfin as (t & ->).
  (* the split of the rotation by one place has no spread *)
  assert (Hnan : statistic 30 [[0; 1; 0]; [0; 0; 1]] [[1; 0; 0]; [1; 0; 0]] = Ok NaN).
  { destruct (@statistic_total 3 30 [[0; 1; 0]; [0; 0; 1]] [[1; 0; 0]; [1; 0; 0]])
      as (t' & Hj' & Hs'); try (repeat constructor); try (simpl; lia).
    rewrite Hs'. rewrite <- Hj'.
    apply (@calculate_jsd_degenerate 30 0).
    - lia.
    - discriminate.
    - discriminate.
    - unfold upper_triangle. simpl. rewrite C23. repeat constructor.
    - unfold all_pairs. simpl. rewrite C21, C31. repeat constructor. }
  exists (Fin t). split.
  - destruct (@test_run nat CounterSource CounterSourceOk 3 30 A B 1%Z 0%nat)
      as (o & Ho & Hrun); try assumption; try lia.
    assert (o = Fin t) by congruence. subst o.
    rewrite Hrun. cbn [fst]. do 2 f_equal.
    unfold exceed_count. simpl draws. cbn [fold_left].
    unfold count_step.
    change (synthetic_group1 (A ++ B) (length A) (rotation 4 0)) with A.
    change (synthetic_group2 (A ++ B) (length A) (rotation 4 0)) with B.
    rewrite Hs. unfold fgeb, fleb. cbn [fltb feqb]. rewrite Reqb_refl, orb_true_r.
    simpl. lra.
  - destruct (@test_run nat CounterSource CounterSourceOk 3 30 A B 1%Z 1%nat)
      as (o & Ho & Hrun); try assumption; try lia.
    assert (o = Fin t) by congruence. subst o.
    rewrite Hrun. cbn [fst]. do 2 f_equal.
    unfold exceed_count. simpl draws. cbn [fold_left].
    unfold count_step.
    change (synthetic_group1 (A ++ B) (length A) (rotation 4 1))
      with [[0; 1; 0]; [0; 0; 1]].
    change (synthetic_group2 (A ++ B) (length A) (rotation 4 1))
      with [[1; 0; 0]; [1; 0; 0]].
    rewrite Hnan. simpl. lra.
Qed.

(** C8.  Two runs of the test on the same groups return the same
    (observed statistic, p-value) pair, or raise the same error,
    whenever the random source hands the two runs the same permutations:
    the test reads the source through nothing but its
    [num_permutations] draws of a permutation of the pooled indices.
    Runs from one and the same state of the source are the first case
    of this.  The condition is needed: there are groups and two states
    of a source from which the test returns different p-values. *)
Theorem seeded_runs_agree {G1 G2 : Type} {RS1 : RandomSource G1} {RS2 : RandomSource G2}
  (A B : matrix) (num_permutations : Z) (bins : nat) (g1 : G1) (g2 : G2) :
  (draws (Z.to_nat num_permutations) (length (A ++ B)) g1
   = draws (Z.to_nat num_permutations) (length (A ++ B)) g2 ->
   fst (jensen_shannon_divergence_and_pvalue A B num_permutations bins g1)
   = fst (jensen_shannon_divergence_and_pvalue A B num_permutations bins g2)) /\
  (exists (A' B' : matrix) (s1 s2 : nat),
     fst (jensen_shannon_divergence_and_pvalue A' B' 1 30 s1)
     <> fst (jensen_shannon_divergence_and_pvalue A' B' 1 30 s2)).
Proof.
  split.
  - apply test_reads_draws.
  - destruct draws_decide_the_pvalue as (observed & E0 & E1).
    exists [[1; 0; 0]; [0; 1; 0]], [[0; 0; 1]; [1; 0; 0]], 0%nat, 1%nat.
    rewrite E0, E1. intros E. injection E as E. lra.
Qed.

Lemma seeded_runs_agree_witness :
  fst (jensen_shannon_divergence_and_pvalue
         [[1; 0]; [0; 1]] [[1; 1]; [2; 1]] 3 30 0%nat)
  = fst (jensen_shannon_divergence_and_pvalue
           [[1; 0]; [0; 1]] [[1; 1]; [2; 1]] 3 30 4%nat).
Proof.
  apply (@seeded_runs_agree nat nat CounterSource CounterSource
           [[1; 0]; [0; 1]] [[1; 1]; [2; 1]] 3%Z 30 0%nat 4%nat).
  reflexivity.
Defined.
